(** * Codex router (main process): session registries, login sessions,
      output scraping and model-name preprocessing.

    Shallow embedding of the tRPC router that drives the Codex CLI: the
    three in-memory registries ([providerSessions], [activeStreams],
    [loginSessions]), the helpers that scrape the login output, and the
    procedures [startLogin], [getLoginSession], [cancelLogin], [chat]
    (start, finally block and teardown), [cancel] and [cleanup].

    A JavaScript string is modelled by a Rocq [string] whose characters are
    its UTF-16 code units; the model covers the code units below 256. *)

From Stdlib Require Import Ascii String.
From stdpp Require Import gmap strings list fin_maps pretty.

Local Open Scope string_scope.
Local Open Scope list_scope.

(** ** JavaScript string primitives *)

Module JsString.

(** WhiteSpace and LineTerminator code units below 256: TAB, LF, VT, FF, CR,
    SP and NBSP. Both [String.prototype.trim] and the class [\s] use it. *)
Definition isWhiteSpace (c : ascii) : bool :=
  let n := nat_of_ascii c in
  (Nat.leb 9 n && Nat.leb n 13) || Nat.eqb n 32 || Nat.eqb n 160.

Fixpoint trimStart (s : string) : string :=
  match s with
  | EmptyString => EmptyString
  | String c s' => if isWhiteSpace c then trimStart s' else s
  end.

(** [trimEnd] keeps a character when it is not white space or when a
    character that is kept follows it. *)
Fixpoint trimEnd (s : string) : string :=
  match s with
  | EmptyString => EmptyString
  | String c s' =>
      match trimEnd s' with
      | EmptyString => if isWhiteSpace c then EmptyString else String c EmptyString
      | t => String c t
      end
  end.

Definition trim (s : string) : string := trimEnd (trimStart s).

(** [toLowerCase] on the code units below 256: A-Z and the Latin-1 capitals
    (0xC0-0xDE without the multiplication sign) move up by 32. *)
Definition lowerChar (c : ascii) : ascii :=
  let n := nat_of_ascii c in
  if (Nat.leb 65 n && Nat.leb n 90)
     || (Nat.leb 192 n && Nat.leb n 222 && negb (Nat.eqb n 215))
  then ascii_of_nat (n + 32) else c.

Fixpoint toLowerCase (s : string) : string :=
  match s with
  | EmptyString => EmptyString
  | String c s' => String (lowerChar c) (toLowerCase s')
  end.

(** [s.startsWith(p)] *)
Definition startsWith (s p : string) : bool := String.prefix p s.

(** [s.slice(n)] for [0 <= n]. *)
Fixpoint slice (n : nat) (s : string) : string :=
  match n, s with
  | O, _ => s
  | S n', String _ s' => slice n' s'
  | S _, EmptyString => EmptyString
  end.

(** [s.endsWith(p)] *)
Definition endsWith (s p : string) : bool :=
  Nat.leb (String.length p) (String.length s)
  && String.eqb (slice (String.length s - String.length p) s) p.

(** Truthiness of a string: the empty string is falsy. *)
Definition truthy (s : string) : bool :=
  match s with EmptyString => false | _ => true end.

(** [s.replace(p, r)] with a string pattern: the first occurrence only. *)
Fixpoint replaceString (p r s : string) : string :=
  if String.prefix p s then r +:+ slice (String.length p) s
  else match s with
       | EmptyString => EmptyString
       | String c s' => String c (replaceString p r s')
       end.

End JsString.

(** ** A backtracking matcher for the regular expressions of the router *)

Module Regex.

Inductive regex : Type :=
| Eps
| Lit (c : ascii)
| Cls (p : ascii -> bool)
| Cat (r1 r2 : regex)
| Alt (r1 r2 : regex)
| Star (r : regex)
| Eos.

Definition Plus (r : regex) : regex := Cat r (Star r).
Definition Opt (r : regex) : regex := Alt r Eps.

Fixpoint Str (s : string) : regex :=
  match s with
  | EmptyString => Eps
  | String c s' => Cat (Lit c) (Str s')
  end.

Definition range (lo hi : ascii) : ascii -> bool :=
  fun c => Nat.leb (nat_of_ascii lo) (nat_of_ascii c)
           && Nat.leb (nat_of_ascii c) (nat_of_ascii hi).

Definition oneOf (cs : string) : ascii -> bool :=
  fun c => existsb (Ascii.eqb c) (list_ascii_of_string cs).

(** [exec r s k] matches [r] at the start of [s] and hands the rest of the
    string to the continuation [k]; alternatives are tried left to right
    and a star is greedy, giving up one iteration at a time. An iteration
    of a star that consumes nothing is refused, as ECMAScript does. *)
Fixpoint exec (r : regex) (s : string) (k : string -> option string)
  : option string :=
  match r with
  | Eps => k s
  | Lit c =>
      match s with
      | String a s' => if Ascii.eqb a c then k s' else None
      | EmptyString => None
      end
  | Cls p =>
      match s with
      | String a s' => if p a then k s' else None
      | EmptyString => None
      end
  | Cat r1 r2 => exec r1 s (fun s' => exec r2 s' k)
  | Alt r1 r2 =>
      match exec r1 s k with
      | Some rest => Some rest
      | None => exec r2 s k
      end
  | Star r1 =>
      (fix loop (fuel : nat) (s0 : string) : option string :=
         match fuel with
         | O => k s0
         | S fuel' =>
             match exec r1 s0
                     (fun s' => if Nat.ltb (String.length s') (String.length s0)
                                then loop fuel' s' else None) with
             | Some rest => Some rest
             | None => k s0
             end
         end) (String.length s) s
  | Eos =>
      match s with
      | EmptyString => k s
      | String _ _ => None
      end
  end.

(** The rest of [s] after the match that starts at its first character. *)
Definition matchAt (r : regex) (s : string) : option string := exec r s Some.

Definition matchLength (s rest : string) : nat :=
  String.length s - String.length rest.

(** [s.replace(r, "")] for a global [r]: every match, found left to right,
    is dropped; [skip] counts the characters of the current match that are
    still to be dropped. *)
Fixpoint removeAll_go (r : regex) (skip : nat) (s : string) : string :=
  match s with
  | EmptyString => EmptyString
  | String c s' =>
      match skip with
      | S n => removeAll_go r n s'
      | O =>
          match matchAt r s with
          | Some rest =>
              match matchLength s rest with
              | O => String c (removeAll_go r 0 s')
              | S n => removeAll_go r n s'
              end
          | None => String c (removeAll_go r 0 s')
          end
      end
  end.

Definition removeAll (r : regex) (s : string) : string := removeAll_go r 0 s.

(** [s.replace(r, "")] for a regex without the global flag: the leftmost
    match only. *)
Fixpoint removeFirst (r : regex) (s : string) : string :=
  match matchAt r s with
  | Some rest => rest
  | None =>
      match s with
      | EmptyString => EmptyString
      | String c s' => String c (removeFirst r s')
      end
  end.

(** [s.match(r)] for a global [r]: the matched substrings, left to right
    ([null] is the empty list). *)
Fixpoint matchAll_go (r : regex) (skip : nat) (s : string) : list string :=
  match s with
  | EmptyString =>
      match skip, matchAt r EmptyString with
      | O, Some _ => [EmptyString]
      | _, _ => []
      end
  | String c s' =>
      match skip with
      | S n => matchAll_go r n s'
      | O =>
          match matchAt r s with
          | Some rest =>
              let len := matchLength s rest in
              String.substring 0 len s :: matchAll_go r (Nat.pred len) s'
          | None => matchAll_go r 0 s'
          end
      end
  end.

Definition matchAll (r : regex) (s : string) : list string := matchAll_go r 0 s.

End Regex.

Import JsString Regex.

(** ** Constants of the router *)

Definition ESC : ascii := "027"%char.
Definition BEL : ascii := "007"%char.

(** [/https?:\/\/[^\s]+/g] *)
Definition URL_CANDIDATE_REGEX : regex :=
  Cat (Str "http") (Cat (Opt (Lit "s"))
    (Cat (Str "://") (Plus (Cls (fun c => negb (isWhiteSpace c)))))).

(** [/\u001B\[[0-?]*[ -/]*[@-~]/g] *)
Definition ANSI_ESCAPE_REGEX : regex :=
  Cat (Lit ESC) (Cat (Lit "[")
    (Cat (Star (Cls (range "0" "?")))
      (Cat (Star (Cls (range " " "/"))) (Cls (range "@" "~"))))).

(** [/\u001B\][^\u0007]*(?:\u0007|\u001B\\)/g] *)
Definition ANSI_OSC_REGEX : regex :=
  Cat (Lit ESC) (Cat (Lit "]")
    (Cat (Star (Cls (fun c => negb (Ascii.eqb c BEL))))
      (Alt (Lit BEL) (Cat (Lit ESC) (Lit "\"))))).

(** [/[),.;!?]+$/] *)
Definition TRAILING_PUNCTUATION_REGEX : regex :=
  Cat (Plus (Cls (oneOf "),.;!?"))) Eos.

Definition DEFAULT_CODEX_MODEL : string := "gpt-5.3-codex/high".

Definition stripAnsi (input : string) : string :=
  removeAll ANSI_ESCAPE_REGEX (removeAll ANSI_OSC_REGEX input).

Definition isLocalhostHostname (hostname : string) : bool :=
  let normalized := toLowerCase (trim hostname) in
  String.eqb normalized "localhost"
  || String.eqb normalized "127.0.0.1"
  || String.eqb normalized "::1"
  || String.eqb normalized "[::1]"
  || endsWith normalized ".localhost".


(** ** Data model *)

(** A call either returns a value or throws an [Error] with a message. *)
Inductive outcome (A : Type) : Type :=
| Return (a : A)
| Throw (message : string).
Arguments Return {A} a.
Arguments Throw {A} message.

(** [authConfig?: { apiKey: string }] *)
Record AuthConfig : Type := { apiKey : string }.

(** The parsed [URL] object, as far as the router reads it. *)
Record URL : Type := { hostname : string; href : string }.

(** What the router asks of Node, Electron and the ACP library. *)
Record Host : Type := {
  platform : string;
  arch : string;
  sep : string;
  isPackaged : bool;
  resourcesPath : string;
  appPath : string;
  process_env : gmap string string;
  existsSync : string -> bool;
  path_join : list string -> string;
  path_dirname : string -> string;
  (** [require.resolve(request, { paths })]; it throws when nothing is found *)
  require_resolve : string -> list string -> outcome string;
  (** [createHash("sha256").update(s).digest("hex")] *)
  sha256_hex : string -> string;
  (** [new URL(s)]; [None] when the constructor throws *)
  URL_parse : string -> option URL
}.

(** The argument of [createACPProvider]. *)
Record ACPProviderSettings : Type := {
  command : string;
  env : gmap string string;
  authMethodId : option string;
  session_cwd : string;
  existingSessionId : option string;
  persistSession : bool
}.

(** An ACP provider object: its identity and the settings it was built from. *)
Record ACPProvider : Type := {
  handle : nat;
  settings : ACPProviderSettings
}.

Record CodexProviderSession : Type := {
  provider : ACPProvider;
  cwd : string;
  authFingerprint : option string
}.

Inductive CodexLoginSessionState : Type :=
| running
| success
| error
| cancelled.

(** The [ChildProcess] object as the router reads it. *)
Record ChildProcess : Type := {
  pid : nat;
  killed : bool
}.

Module Login.
Record CodexLoginSession : Type := {
  id : string;
  process : option ChildProcess;
  state : CodexLoginSessionState;
  output : string;
  url : option string;
  error : option string;
  exitCode : option Z
}.
End Login.
Abbreviation CodexLoginSession := Login.CodexLoginSession.

Record ActiveCodexStream : Type := {
  runId : string;
  controller : nat
}.

(** The listeners [startLogin] registers with [once] on the child of a
    session; each is gone after it has run. *)
Record ChildListeners : Type := {
  onError : bool;
  onClose : bool
}.

(** Calls on objects the router does not own. *)
Inductive Effect : Type :=
| Abort (controller : nat)
| Cleanup (provider : nat)
| Spawn (pid : nat) (file : string) (args : list string)
| Kill (pid : nat) (signal : string).

(** The module state. [loginSessions] is a [Map] that is iterated, so it keeps
    its insertion order; [next] numbers the objects that are created
    (providers, abort controllers, child processes). *)
Record World : Type := {
  providerSessions : gmap string CodexProviderSession;
  activeStreams : gmap string ActiveCodexStream;
  loginSessions : list (string * CodexLoginSession);
  listeners : gmap string ChildListeners;
  next : nat;
  effects : list Effect
}.

#[global] Instance ChildProcess_eq_dec : EqDecision ChildProcess.
Proof. solve_decision. Defined.
#[global] Instance CodexLoginSessionState_eq_dec : EqDecision CodexLoginSessionState.
Proof. solve_decision. Defined.
#[global] Instance ActiveCodexStream_eq_dec : EqDecision ActiveCodexStream.
Proof. solve_decision. Defined.
#[global] Instance Effect_eq_dec : EqDecision Effect.
Proof. solve_decision. Defined.

Definition initial : World :=
  {| providerSessions := ∅; activeStreams := ∅; loginSessions := [];
     listeners := ∅; next := 0; effects := [] |}.

(** ** Model names and authentication *)

(** [Boolean(authConfig?.apiKey?.trim())] *)
Definition hasAppManagedApiKey (authConfig : option AuthConfig) : bool :=
  match authConfig with
  | Some cfg => truthy (trim (apiKey cfg))
  | None => false
  end.

Definition supportedThinkingLevels : list string :=
  ["low"; "medium"; "high"; "xhigh"].

Definition preprocessCodexModelName
    (modelId : string) (authConfig : option AuthConfig) : string :=
  if negb (hasAppManagedApiKey authConfig) then modelId
  else if String.eqb modelId "gpt-5.3-codex" then "gpt-5.2-codex/high"
  else
    let gpt53Prefix := "gpt-5.3-codex/" in
    if startsWith modelId gpt53Prefix then
      let requestedThinking := slice (String.length gpt53Prefix) modelId in
      let normalizedThinking :=
        if existsb (String.eqb requestedThinking) supportedThinkingLevels
        then requestedThinking else "high" in
      "gpt-5.2-codex/" +:+ normalizedThinking
    else modelId.

(** [rawModel] is [undefined] or a string here: [chat] passes [input.model],
    a [z.string().optional()]. *)
Definition extractCodexModelId (rawModel : option string) : option string :=
  match rawModel with
  | None => None
  | Some raw =>
      if Nat.eqb (String.length raw) 0 then None
      else
        let normalizedModel := trim raw in
        if negb (truthy normalizedModel) || String.eqb normalizedModel "codex"
        then None else Some normalizedModel
  end.

(** The model [chat] streams with: [extractCodexModelId(input.model) ||
    DEFAULT_CODEX_MODEL], then preprocessed. *)
Definition selectedModelId
    (model : option string) (authConfig : option AuthConfig) : string :=
  let requestedModelId :=
    match extractCodexModelId model with
    | Some m => if truthy m then m else DEFAULT_CODEX_MODEL
    | None => DEFAULT_CODEX_MODEL
    end in
  preprocessCodexModelName requestedModelId authConfig.

Section WithHost.

Context (host : Host).

Definition getAuthFingerprint (authConfig : option AuthConfig) : option string :=
  match authConfig with
  | None => None
  | Some cfg =>
      let key := trim (apiKey cfg) in
      if truthy key then Some (sha256_hex host key) else None
  end.

Definition buildCodexProviderEnv (authConfig : option AuthConfig)
  : gmap string string :=
  let env := process_env host in
  match authConfig with
  | None => env
  | Some cfg =>
      let key := trim (apiKey cfg) in
      if truthy key then <["CODEX_API_KEY" := key]> env else env
  end.

Definition getCodexAuthMethodId (authConfig : option AuthConfig) : option string :=
  match authConfig with
  | None => None
  | Some cfg => if truthy (trim (apiKey cfg)) then Some "codex-api-key" else None
  end.

Definition getCodexPackageName : outcome string :=
  let p := platform host in
  let a := arch host in
  if String.eqb p "darwin" && String.eqb a "arm64"
  then Return "@zed-industries/codex-acp-darwin-arm64"
  else if String.eqb p "darwin" && String.eqb a "x64"
  then Return "@zed-industries/codex-acp-darwin-x64"
  else if String.eqb p "linux" && String.eqb a "arm64"
  then Return "@zed-industries/codex-acp-linux-arm64"
  else if String.eqb p "linux" && String.eqb a "x64"
  then Return "@zed-industries/codex-acp-linux-x64"
  else if String.eqb p "win32" && String.eqb a "arm64"
  then Return "@zed-industries/codex-acp-win32-arm64"
  else if String.eqb p "win32" && String.eqb a "x64"
  then Return "@zed-industries/codex-acp-win32-x64"
  else Throw ("Unsupported platform/arch for codex-acp: " +:+ p +:+ "/" +:+ a).

Definition toUnpackedAsarPath (filePath : string) : string :=
  let unpackedPath :=
    replaceString (sep host +:+ "app.asar" +:+ sep host)
                  (sep host +:+ "app.asar.unpacked" +:+ sep host) filePath in
  if negb (String.eqb unpackedPath filePath) && existsSync host unpackedPath
  then unpackedPath else filePath.

Definition resolveCodexAcpBinaryPath : outcome string :=
  match getCodexPackageName with
  | Throw m => Throw m
  | Return packageName =>
      let binaryName :=
        if String.eqb (platform host) "win32" then "codex-acp.exe" else "codex-acp" in
      match require_resolve host "@zed-industries/codex-acp/package.json" [] with
      | Throw m => Throw m
      | Return packageJson =>
          let codexPackageRoot := path_dirname host packageJson in
          match require_resolve host (packageName +:+ "/bin/" +:+ binaryName)
                                [codexPackageRoot] with
          | Throw m => Throw m
          | Return resolvedPath => Return (toUnpackedAsarPath resolvedPath)
          end
      end
  end.

Definition resolveBundledCodexCliPath : outcome string :=
  let binaryName :=
    if String.eqb (platform host) "win32" then "codex.exe" else "codex" in
  let resourcesDir :=
    if isPackaged host then path_join host [resourcesPath host; "bin"]
    else path_join host [appPath host; "resources"; "bin";
                         platform host +:+ "-" +:+ arch host] in
  let binaryPath := path_join host [resourcesDir; binaryName] in
  if existsSync host binaryPath then Return binaryPath
  else
    let hint :=
      if isPackaged host then "Binary is missing from bundled resources."
      else "Run `bun run codex:download` to download it for local dev." in
    Throw ("[codex] Bundled Codex CLI not found at " +:+ binaryPath
           +:+ ". " +:+ hint).

End WithHost.

(** ** Login sessions *)

Section LoginOutput.

Context (host : Host).

(** The loop of [extractFirstNonLocalhostUrl] over the candidates. *)
Fixpoint firstNonLocalhostUrl (matches : list string) : option string :=
  match matches with
  | [] => None
  | m :: rest =>
      match URL_parse host (removeFirst TRAILING_PUNCTUATION_REGEX (trim m)) with
      | Some parsedUrl =>
          if negb (isLocalhostHostname (hostname parsedUrl))
          then Some (href parsedUrl)
          else firstNonLocalhostUrl rest
      | None => firstNonLocalhostUrl rest
      end
  end.

Definition extractFirstNonLocalhostUrl (output : string) : option string :=
  firstNonLocalhostUrl (matchAll URL_CANDIDATE_REGEX (stripAnsi output)).

(** Truthiness of [session.url], a [string | null]. *)
Definition hasUrl (s : CodexLoginSession) : bool :=
  match Login.url s with
  | Some u => truthy u
  | None => false
  end.

Definition appendLoginOutput (session : CodexLoginSession) (chunk : string)
  : CodexLoginSession :=
  let cleanChunk := stripAnsi chunk in
  if negb (truthy cleanChunk) then session
  else
    let output' := Login.output session +:+ cleanChunk in
    {| Login.id := Login.id session;
       Login.process := Login.process session;
       Login.state := Login.state session;
       Login.output := output';
       Login.url := if negb (hasUrl session)
                    then extractFirstNonLocalhostUrl output'
                    else Login.url session;
       Login.error := Login.error session;
       Login.exitCode := Login.exitCode session |}.

End LoginOutput.

(** The object [toLoginSessionResponse] builds. *)
Record LoginSessionResponse : Type := {
  r_sessionId : string;
  r_state : CodexLoginSessionState;
  r_url : option string;
  r_output : string;
  r_error : option string;
  r_exitCode : option Z
}.

Definition toLoginSessionResponse (session : CodexLoginSession)
  : LoginSessionResponse :=
  {| r_sessionId := Login.id session;
     r_state := Login.state session;
     r_url := Login.url session;
     r_output := Login.output session;
     r_error := Login.error session;
     r_exitCode := Login.exitCode session |}.

(** [Map.prototype.get], [set] and the in-place mutation of a stored session
    on the insertion-ordered [loginSessions]. *)
Fixpoint mapGet {A : Type} (key : string) (m : list (string * A)) : option A :=
  match m with
  | [] => None
  | (k, v) :: rest => if String.eqb k key then Some v else mapGet key rest
  end.

Fixpoint mapSet {A : Type} (key : string) (v : A) (m : list (string * A))
  : list (string * A) :=
  match m with
  | [] => [(key, v)]
  | (k, v0) :: rest =>
      if String.eqb k key then (k, v) :: rest else (k, v0) :: mapSet key v rest
  end.

Fixpoint mapMutate {A : Type} (key : string) (f : A -> A) (m : list (string * A))
  : list (string * A) :=
  match m with
  | [] => []
  | (k, v) :: rest =>
      if String.eqb k key then (k, f v) :: rest else (k, v) :: mapMutate key f rest
  end.

(** The test of [getActiveLoginSession]:
    [state === "running" && process && !process.killed]. *)
Definition isActiveLogin (session : CodexLoginSession) : bool :=
  match Login.state session, Login.process session with
  | running, Some child => negb (killed child)
  | _, _ => false
  end.

Fixpoint firstActiveLogin (sessions : list (string * CodexLoginSession))
  : option CodexLoginSession :=
  match sessions with
  | [] => None
  | (_, session) :: rest =>
      if isActiveLogin session then Some session else firstActiveLogin rest
  end.

Definition getActiveLoginSession (w : World) : option CodexLoginSession :=
  firstActiveLogin (loginSessions w).

Definition withLogin (w : World)
    (sessions : list (string * CodexLoginSession)) : World :=
  {| providerSessions := providerSessions w;
     activeStreams := activeStreams w;
     loginSessions := sessions;
     listeners := listeners w;
     next := next w;
     effects := effects w |}.

Definition withListeners (w : World) (l : gmap string ChildListeners) : World :=
  {| providerSessions := providerSessions w;
     activeStreams := activeStreams w;
     loginSessions := loginSessions w;
     listeners := l;
     next := next w;
     effects := effects w |}.

Definition emit (e : Effect) (w : World) : World :=
  {| providerSessions := providerSessions w;
     activeStreams := activeStreams w;
     loginSessions := loginSessions w;
     listeners := listeners w;
     next := next w;
     effects := effects w ++ [e] |}.

(** A new object: its number, and the world in which that number is taken. *)
Definition fresh (w : World) : nat * World :=
  (next w,
   {| providerSessions := providerSessions w;
      activeStreams := activeStreams w;
      loginSessions := loginSessions w;
      listeners := listeners w;
      next := S (next w);
      effects := effects w |}).

(** The body of the ["error"] listener of [startLogin]. *)
Definition onChildError (message : string) (session : CodexLoginSession)
  : CodexLoginSession :=
  {| Login.id := Login.id session;
     Login.process := None;
     Login.state := error;
     Login.output := Login.output session;
     Login.url := Login.url session;
     Login.error := Some ("[codex] Failed to start login flow: " +:+ message);
     Login.exitCode := Login.exitCode session |}.

(** [session.error || `Codex login exited with code ${exitCode ?? "unknown"}`] *)
Definition exitError (session : CodexLoginSession) (code : option Z) : string :=
  match Login.error session with
  | Some e => if truthy e then e
              else "Codex login exited with code " +:+ from_option pretty "unknown" code
  | None => "Codex login exited with code " +:+ from_option pretty "unknown" code
  end.

(** The body of the ["close"] listener of [startLogin]. *)
Definition onChildClose (code : option Z) (session : CodexLoginSession)
  : CodexLoginSession :=
  match Login.state session with
  | cancelled =>
      {| Login.id := Login.id session;
         Login.process := None;
         Login.state := cancelled;
         Login.output := Login.output session;
         Login.url := Login.url session;
         Login.error := Login.error session;
         Login.exitCode := code |}
  | _ =>
      if decide (code = Some 0%Z) then
        {| Login.id := Login.id session;
           Login.process := None;
           Login.state := success;
           Login.output := Login.output session;
           Login.url := Login.url session;
           Login.error := None;
           Login.exitCode := code |}
      else
        {| Login.id := Login.id session;
           Login.process := None;
           Login.state := error;
           Login.output := Login.output session;
           Login.url := Login.url session;
           Login.error := Some (exitError session code);
           Login.exitCode := code |}
  end.

Section LoginProcedures.

Context (host : Host).

(** [startLogin]; [uuid] is what [crypto.randomUUID()] returns. The
    listeners of the child close over the session object that is stored
    under [uuid]; the registry never deletes an entry, so the events of the
    child find that object under its id. *)
Definition startLogin (uuid : string) (w : World)
  : World * outcome LoginSessionResponse :=
  match getActiveLoginSession w with
  | Some existingSession => (w, Return (toLoginSessionResponse existingSession))
  | None =>
      match resolveBundledCodexCliPath host with
      | Throw m => (w, Throw m)
      | Return codexCliPath =>
          let '(childPid, w1) := fresh w in
          let w2 := emit (Spawn childPid codexCliPath ["login"]) w1 in
          let session :=
            {| Login.id := uuid;
               Login.process := Some {| pid := childPid; killed := false |};
               Login.state := running;
               Login.output := "";
               Login.url := None;
               Login.error := None;
               Login.exitCode := None |} in
          let w3 :=
            withListeners w2
              (<[uuid := {| onError := true; onClose := true |}]> (listeners w2)) in
          (withLogin w3 (mapSet uuid session (loginSessions w3)),
           Return (toLoginSessionResponse session))
      end
  end.

Definition getLoginSession (sessionId : string) (w : World)
  : outcome LoginSessionResponse :=
  match mapGet sessionId (loginSessions w) with
  | None => Throw "Codex login session not found"
  | Some session => Return (toLoginSessionResponse session)
  end.

(** A ["data"] event of the stdout or stderr of the child of [sessionId]. *)
Definition childData (sessionId chunk : string) (w : World) : World :=
  withLogin w (mapMutate sessionId (fun s => appendLoginOutput host s chunk)
                         (loginSessions w)).

(** An ["error"] event of that child: the listener runs once. *)
Definition childError (sessionId message : string) (w : World) : World :=
  match listeners w !! sessionId with
  | Some l =>
      if onError l then
        withListeners
          (withLogin w (mapMutate sessionId (onChildError message) (loginSessions w)))
          (<[sessionId := {| onError := false; onClose := onClose l |}]> (listeners w))
      else w
  | None => w
  end.

(** A ["close"] event of that child: the listener runs once. *)
Definition childClose (sessionId : string) (code : option Z) (w : World) : World :=
  match listeners w !! sessionId with
  | Some l =>
      if onClose l then
        withListeners
          (withLogin w (mapMutate sessionId (onChildClose code) (loginSessions w)))
          (<[sessionId := {| onError := onError l; onClose := false |}]> (listeners w))
      else w
  | None => w
  end.

End LoginProcedures.

Record CancelLoginResponse : Type := {
  cl_success : bool;
  cl_found : bool;
  cl_session : option LoginSessionResponse
}.

(** What [child.kill("SIGTERM")] does in Node: the signal is sent, [killed]
    is set and [true] is returned; or the process is gone (no handle, or
    ESRCH) and [false] is returned; or the system call fails in another way
    (EPERM), the child emits ["error"] with that error inside [kill], and
    [false] is returned. [kill] itself throws only for a signal the platform
    does not know, which SIGTERM is not. *)
Inductive KillResult : Type :=
| killSent
| killGone
| killFailed (message : string).

(** [session.state = "cancelled"; session.error = null] *)
Definition markCancelled (session : CodexLoginSession) : CodexLoginSession :=
  {| Login.id := Login.id session;
     Login.process := Login.process session;
     Login.state := cancelled;
     Login.output := Login.output session;
     Login.url := Login.url session;
     Login.error := None;
     Login.exitCode := Login.exitCode session |}.

(** [child.killed = true], on the child object the session holds. *)
Definition markKilled (session : CodexLoginSession) : CodexLoginSession :=
  {| Login.id := Login.id session;
     Login.process :=
       match Login.process session with
       | Some child => Some {| pid := pid child; killed := true |}
       | None => None
       end;
     Login.state := Login.state session;
     Login.output := Login.output session;
     Login.url := Login.url session;
     Login.error := Login.error session;
     Login.exitCode := Login.exitCode session |}.

(** [session.process.kill("SIGTERM")] for the child of [sessionId]: the world
    after the call, and the error the call throws, if any. An ["error"]
    event is handled by the once-listener of [startLogin] when that is still
    registered; emitted without a listener, the error is thrown. *)
Definition childKill (sessionId : string) (child : ChildProcess)
    (kill : KillResult) (w : World) : World * option string :=
  let w1 := emit (Kill (pid child) "SIGTERM") w in
  match kill with
  | killSent =>
      (withLogin w1 (mapMutate sessionId markKilled (loginSessions w1)), None)
  | killGone => (w1, None)
  | killFailed message =>
      match listeners w1 !! sessionId with
      | Some l =>
          if onError l then (childError sessionId message w1, None)
          else (w1, Some message)
      | None => (w1, Some message)
      end
  end.

(** [cancelLogin]; the answer holds the snapshot of the session object as it
    is after the call of [kill]. *)
Definition cancelLogin (sessionId : string) (kill : KillResult) (w : World)
  : World * outcome CancelLoginResponse :=
  match mapGet sessionId (loginSessions w) with
  | None =>
      (w, Return {| cl_success := true; cl_found := false; cl_session := None |})
  | Some session =>
      let w1 :=
        withLogin w (mapMutate sessionId markCancelled (loginSessions w)) in
      let '(w2, thrown) :=
        match Login.process session with
        | Some child =>
            if negb (killed child) then childKill sessionId child kill w1
            else (w1, None)
        | None => (w1, None)
        end in
      match thrown with
      | Some message => (w2, Throw message)
      | None =>
          (w2, Return {| cl_success := true; cl_found := true;
                         cl_session := toLoginSessionResponse
                                         <$> mapGet sessionId (loginSessions w2) |})
      end
  end.

(** ** Provider sessions and active streams *)

Definition withProviderSessions (w : World)
    (m : gmap string CodexProviderSession) : World :=
  {| providerSessions := m;
     activeStreams := activeStreams w;
     loginSessions := loginSessions w;
     listeners := listeners w;
     next := next w;
     effects := effects w |}.

Definition withActiveStreams (w : World)
    (m : gmap string ActiveCodexStream) : World :=
  {| providerSessions := providerSessions w;
     activeStreams := m;
     loginSessions := loginSessions w;
     listeners := listeners w;
     next := next w;
     effects := effects w |}.

Definition cleanupProvider (subChatId : string) (w : World) : World :=
  match providerSessions w !! subChatId with
  | None => w
  | Some existing =>
      let w1 := emit (Cleanup (handle (provider existing))) w in
      withProviderSessions w1 (delete subChatId (providerSessions w1))
  end.

Section Providers.

Context (host : Host).

(** The part of [getOrCreateProvider] after the cache test: build the
    provider and store the session. *)
Definition createProvider
    (subChatId cwd0 : string) (existingSessionId0 : option string)
    (authConfig : option AuthConfig) (w : World)
  : World * outcome ACPProvider :=
  let existingSessionIdForProvider :=
    if hasAppManagedApiKey authConfig then None else existingSessionId0 in
  match resolveCodexAcpBinaryPath host with
  | Throw m => (w, Throw m)
  | Return binaryPath =>
      let '(h, w1) := fresh w in
      let p :=
        {| handle := h;
           settings :=
             {| command := binaryPath;
                env := buildCodexProviderEnv host authConfig;
                authMethodId := getCodexAuthMethodId authConfig;
                session_cwd := cwd0;
                existingSessionId :=
                  match existingSessionIdForProvider with
                  | Some s => if truthy s then Some s else None
                  | None => None
                  end;
                persistSession := true |} |} in
      (withProviderSessions w1
         (<[subChatId := {| provider := p; cwd := cwd0;
                            authFingerprint := getAuthFingerprint host authConfig |}]>
            (providerSessions w1)),
       Return p)
  end.

Definition getOrCreateProvider
    (subChatId cwd0 : string) (existingSessionId0 : option string)
    (authConfig : option AuthConfig) (w : World)
  : World * outcome ACPProvider :=
  let fingerprint := getAuthFingerprint host authConfig in
  match providerSessions w !! subChatId with
  | Some existing =>
      if bool_decide (cwd existing = cwd0)
         && bool_decide (authFingerprint existing = fingerprint)
      then (w, Return (provider existing))
      else
        let w1 := emit (Cleanup (handle (provider existing))) w in
        let w2 := withProviderSessions w1 (delete subChatId (providerSessions w1)) in
        createProvider subChatId cwd0 existingSessionId0 authConfig w2
  | None => createProvider subChatId cwd0 existingSessionId0 authConfig w
  end.

End Providers.

(** The synchronous start of the [chat] subscription: supersede the stream
    that is registered for the sub-chat, then register the new run. It
    returns the new [AbortController]. *)
Definition supersede (subChatId : string) (w : World) : World :=
  match activeStreams w !! subChatId with
  | Some existingStream =>
      cleanupProvider subChatId (emit (Abort (controller existingStream)) w)
  | None => w
  end.

Definition chatStart (subChatId runId0 : string) (w : World) : World * nat :=
  let w1 := supersede subChatId w in
  let '(abortController, w2) := fresh w1 in
  (withActiveStreams w2
     (<[subChatId := {| runId := runId0; controller := abortController |}]>
        (activeStreams w2)),
   abortController).

(** [if (activeStreams.get(subChatId)?.runId === runId)
       activeStreams.delete(subChatId)] *)
Definition releaseStream (subChatId runId0 : string) (w : World) : World :=
  match activeStreams w !! subChatId with
  | Some s =>
      if bool_decide (runId s = runId0)
      then withActiveStreams w (delete subChatId (activeStreams w))
      else w
  | None => w
  end.

(** The [finally] block of the run. *)
Definition chatFinally (subChatId runId0 : string) (w : World) : World :=
  releaseStream subChatId runId0 w.

(** The teardown the subscription returns; [abortController] is the
    controller of this run. *)
Definition chatTeardown (subChatId runId0 : string) (abortController : nat)
    (w : World) : World :=
  releaseStream subChatId runId0 (emit (Abort abortController) w).

Record CancelResponse : Type := {
  cancelled_ : bool;
  ignoredStale : bool
}.

Definition cancel (subChatId runId0 : string) (w : World) : World * CancelResponse :=
  match activeStreams w !! subChatId with
  | None => (w, {| cancelled_ := false; ignoredStale := false |})
  | Some activeStream =>
      if negb (bool_decide (runId activeStream = runId0))
      then (w, {| cancelled_ := false; ignoredStale := true |})
      else
        let w1 := emit (Abort (controller activeStream)) w in
        let w2 := cleanupProvider subChatId w1 in
        (withActiveStreams w2 (delete subChatId (activeStreams w2)),
         {| cancelled_ := true; ignoredStale := false |})
  end.

Definition cleanup (subChatId : string) (w : World) : World * bool :=
  let w1 := cleanupProvider subChatId w in
  match activeStreams w1 !! subChatId with
  | Some activeStream =>
      let w2 := emit (Abort (controller activeStream)) w1 in
      (withActiveStreams w2 (delete subChatId (activeStreams w2)), true)
  | None => (w1, true)
  end.

(** ** Events *)

(** What can happen to the module: a procedure is called, or a child process
    emits an event. *)
Inductive Event : Type :=
| StartLogin (uuid : string)
| CancelLogin (sessionId : string) (kill : KillResult)
| ChildData (sessionId chunk : string)
| ChildError (sessionId message : string)
| ChildClose (sessionId : string) (code : option Z)
| ChatStart (subChatId runId0 : string)
| ChatProvider (subChatId cwd0 : string) (existingSessionId0 : option string)
               (authConfig : option AuthConfig) (forceNewSession : bool)
| ChatFinally (subChatId runId0 : string)
| ChatTeardown (subChatId runId0 : string) (abortController : nat)
| Cancel (subChatId runId0 : string)
| CleanupCall (subChatId : string).

Section Steps.

Context (host : Host).

(** The provider a run of [chat] streams with:
    [if (input.forceNewSession) cleanupProvider(...)], then
    [getOrCreateProvider]. *)
Definition chatProvider
    (subChatId cwd0 : string) (existingSessionId0 : option string)
    (authConfig : option AuthConfig) (forceNewSession : bool) (w : World)
  : World * outcome ACPProvider :=
  let w1 := if forceNewSession then cleanupProvider subChatId w else w in
  getOrCreateProvider host subChatId cwd0
    (if forceNewSession then None else existingSessionId0) authConfig w1.

Definition handleEvent (e : Event) (w : World) : World :=
  match e with
  | StartLogin uuid => fst (startLogin host uuid w)
  | CancelLogin sessionId kill => fst (cancelLogin sessionId kill w)
  | ChildData sessionId chunk => childData host sessionId chunk w
  | ChildError sessionId message => childError sessionId message w
  | ChildClose sessionId code => childClose sessionId code w
  | ChatStart subChatId runId0 => fst (chatStart subChatId runId0 w)
  | ChatProvider subChatId cwd0 sid authConfig force =>
      fst (chatProvider subChatId cwd0 sid authConfig force w)
  | ChatFinally subChatId runId0 => chatFinally subChatId runId0 w
  | ChatTeardown subChatId runId0 c => chatTeardown subChatId runId0 c w
  | Cancel subChatId runId0 => fst (cancel subChatId runId0 w)
  | CleanupCall subChatId => fst (cleanup subChatId w)
  end.

(** [crypto.randomUUID()] returns an identifier that is not in use. *)
Definition admissible (w : World) (e : Event) : Prop :=
  match e with
  | StartLogin uuid => mapGet uuid (loginSessions w) = None
  | _ => True
  end.

Inductive steps : World -> list Event -> World -> Prop :=
| steps_nil (w : World) : steps w [] w
| steps_cons (w : World) (e : Event) (es : list Event) (w' : World) :
    admissible w e -> steps (handleEvent e w) es w' -> steps w (e :: es) w'.

Definition reachable (w : World) : Prop := exists es, steps initial es w.

End Steps.

(** ** A host for the examples *)

Fixpoint upTo (stop : ascii -> bool) (s : string) : string :=
  match s with
  | EmptyString => EmptyString
  | String c s' => if stop c then EmptyString else String c (upTo stop s')
  end.

(** A Linux machine in development mode on which every file exists; its URL
    parser accepts what starts with a scheme and reads the host name up to
    the first of [/], [:], [?] and [#]. *)
Definition exampleHost : Host :=
  {| platform := "linux";
     arch := "x64";
     sep := "/";
     isPackaged := false;
     resourcesPath := "/opt/app/resources";
     appPath := "/opt/app";
     process_env := {[ "HOME" := "/home/dev" ]};
     existsSync := fun _ => true;
     path_join := fun parts => fold_right (fun p acc =>
                    match acc with EmptyString => p | _ => p +:+ "/" +:+ acc end)
                    EmptyString parts;
     path_dirname := fun p => p;
     require_resolve := fun request _ => Return ("/node_modules/" +:+ request);
     sha256_hex := fun s => "sha256:" +:+ s;
     URL_parse := fun s =>
       if String.prefix "https://" s
       then Some {| hostname := upTo (oneOf "/:?#") (slice 8 s); href := s |}
       else if String.prefix "http://" s
       then Some {| hostname := upTo (oneOf "/:?#") (slice 7 s); href := s |}
       else None |}.

(** The same machine running the packaged app: modules resolve inside the
    [app.asar] archive. *)
Definition packagedHost : Host :=
  {| platform := platform exampleHost;
     arch := arch exampleHost;
     sep := sep exampleHost;
     isPackaged := true;
     resourcesPath := resourcesPath exampleHost;
     appPath := "/opt/app/resources/app.asar";
     process_env := process_env exampleHost;
     existsSync := existsSync exampleHost;
     path_join := path_join exampleHost;
     path_dirname := path_dirname exampleHost;
     require_resolve := fun request _ =>
       Return ("/opt/app/resources/app.asar/node_modules/" +:+ request);
     sha256_hex := sha256_hex exampleHost;
     URL_parse := URL_parse exampleHost |}.

(** ** Vocabulary of the properties *)

(** The calls [cleanupProvider] makes on a provider: [cleanup()] on the one
    that is stored for the sub-chat, if any. *)
Definition teardownCalls (subChatId : string) (w : World) : list Effect :=
  match providerSessions w !! subChatId with
  | Some existing => [Cleanup (handle (provider existing))]
  | None => []
  end.

(** The calls [cancelLogin] makes on the child of the session it finds. *)
Definition killCalls (s : CodexLoginSession) : list Effect :=
  match Login.process s with
  | Some child => if killed child then [] else [Kill (pid child) "SIGTERM"]
  | None => []
  end.

(** The session [startLogin] stores for a new child process. *)
Definition newLoginSession (uuid : string) (childPid : nat) : CodexLoginSession :=
  {| Login.id := uuid;
     Login.process := Some {| pid := childPid; killed := false |};
     Login.state := running;
     Login.output := "";
     Login.url := None;
     Login.error := None;
     Login.exitCode := None |}.

(** How many sessions of the registry pass the test of
    [getActiveLoginSession]. *)
Fixpoint activeCount (sessions : list (string * CodexLoginSession)) : nat :=
  match sessions with
  | [] => 0
  | (_, session) :: rest =>
      (if isActiveLogin session then 1 else 0) + activeCount rest
  end.

(** [RegExp.prototype.test] of a regex without sticky flag: is there a match
    anywhere in the string? *)
Fixpoint test (r : regex) (s : string) : bool :=
  match matchAt r s with
  | Some _ => true
  | None =>
      match s with
      | EmptyString => false
      | String _ s' => test r s'
      end
  end.

(** A string contains an ANSI escape sequence when one of the two regexes of
    [stripAnsi] matches in it. *)
Definition containsAnsi (s : string) : bool :=
  test ANSI_ESCAPE_REGEX s || test ANSI_OSC_REGEX s.

(** What [extractFirstNonLocalhostUrl] hands to [new URL]. *)
Definition candidateText (m : string) : string :=
  removeFirst TRAILING_PUNCTUATION_REGEX (trim m).

Section Vocabulary.

Context (host : Host).

(** What one event does to a stored session. *)
Inductive sessionStep : CodexLoginSession -> CodexLoginSession -> Prop :=
| sessionStep_data (s : CodexLoginSession) (chunk : string) :
    sessionStep s (appendLoginOutput host s chunk)
| sessionStep_error (s : CodexLoginSession) (message : string) :
    sessionStep s (onChildError message s)
| sessionStep_close (s : CodexLoginSession) (code : option Z) :
    sessionStep s (onChildClose code s)
| sessionStep_cancel (s : CodexLoginSession) :
    sessionStep s (markCancelled s)
| sessionStep_cancel_sent (s : CodexLoginSession) :
    sessionStep s (markKilled (markCancelled s))
| sessionStep_cancel_failed (s : CodexLoginSession) (message : string) :
    sessionStep s (onChildError message (markCancelled s)).

(** A candidate is passed over when it does not parse or names this
    machine. *)
Definition passedOver (m : string) : Prop :=
  match URL_parse host (candidateText m) with
  | Some parsedUrl => isLocalhostHostname (hostname parsedUrl) = true
  | None => True
  end.

(** The URL of a stored session is what the last scan of its output found. *)
Definition urlScanned (s : CodexLoginSession) : Prop :=
  match Login.url s with
  | None => extractFirstNonLocalhostUrl host (Login.output s) = None
  | Some u => u <> ""
  end.

(** Every stored session has a scanned URL. *)
Definition allUrlScanned (w : World) : Prop :=
  forall sid s, mapGet sid (loginSessions w) = Some s -> urlScanned s.

End Vocabulary.

(** The output of every poll of every reachable registry is free of ANSI
    escape sequences. *)
Definition outputAnsiFree (host : Host) : Prop :=
  forall (w : World) (sid : string) (r : LoginSessionResponse),
    reachable host w ->
    getLoginSession sid w = Return r ->
    containsAnsi (r_output r) = false.

(** The login children that have not closed: a child of [startLogin] runs
    from its spawn until its ["close"] event, and the once-listener for that
    event is registered until it has run. *)
Definition openChildren (w : World) : list string :=
  List.filter
    (fun k => match listeners w !! k with
              | Some l => onClose l
              | None => false
              end)
    (loginSessions w).*1.

(** In every reachable registry at most one login child has not closed. *)
Definition oneLoginProcess (host : Host) : Prop :=
  forall w : World, reachable host w -> length (openChildren w) <= 1.

(** ** Vocabulary of the registry invariants *)

(** The provider registry is sound: a cached provider is an object that was
    created, has not been cleaned up and runs in the working directory of
    its session; no two sub-chats share a provider; only created objects
    were cleaned up. *)
Definition providersSound (w : World) : Prop :=
  (forall sid e, providerSessions w !! sid = Some e ->
     handle (provider e) < next w
     /\ (Cleanup (handle (provider e)) ∉ effects w)
     /\ session_cwd (settings (provider e)) = cwd e)
  /\ (forall sid1 sid2 e1 e2, sid1 <> sid2 ->
        providerSessions w !! sid1 = Some e1 ->
        providerSessions w !! sid2 = Some e2 ->
        handle (provider e1) <> handle (provider e2))
  /\ (forall h, Cleanup h ∈ effects w -> h < next w).

(** The sub-chat a call is about. *)
Definition eventSubChat (e : Event) : option string :=
  match e with
  | ChatStart subChatId _ => Some subChatId
  | ChatProvider subChatId _ _ _ _ => Some subChatId
  | ChatFinally subChatId _ => Some subChatId
  | ChatTeardown subChatId _ _ => Some subChatId
  | Cancel subChatId _ => Some subChatId
  | CleanupCall subChatId => Some subChatId
  | _ => None
  end.

(** The login registry is sound: every id is stored once, a session is
    stored under its own id, a session that still holds its child has both
    listeners of that child (each listener sets [session.process = null]
    when it runs), and a running session has neither an error nor an exit
    code. *)
Definition loginsSound (w : World) : Prop :=
  NoDup (loginSessions w).*1
  /\ (forall k s, (k, s) ∈ loginSessions w -> Login.id s = k)
  /\ (forall k s child, mapGet k (loginSessions w) = Some s ->
        Login.process s = Some child ->
        listeners w !! k = Some {| onError := true; onClose := true |})
  /\ (forall k s, (k, s) ∈ loginSessions w -> Login.state s = running ->
        Login.error s = None /\ Login.exitCode s = None).

(** ** Further helpers of the router *)

(** [s.includes(sub)] *)
Fixpoint includes (s sub : string) : bool :=
  String.prefix sub s
  || match s with
     | EmptyString => false
     | String _ s' => includes s' sub
     end.

Definition AUTH_HINTS : list string :=
  ["not logged in"; "authentication required"; "auth required";
   "login required"; "missing credentials"; "no credentials"; "unauthorized";
   "forbidden"; "codex login"; "401"; "403"].

(** [x || ""] for a [string | null | undefined]. *)
Definition orEmpty (x : option string) : string :=
  match x with
  | Some s => s
  | None => ""
  end.

Definition isCodexAuthError (message code : option string) : bool :=
  let searchableText := toLowerCase (orEmpty code +:+ " " +:+ orEmpty message) in
  existsb (fun hint => includes searchableText hint) AUTH_HINTS.

Inductive CodexIntegrationState : Type :=
| connected_chatgpt
| connected_api_key
| not_logged_in
| unknown.

Definition normalizeCodexIntegrationState (rawOutput : string)
  : CodexIntegrationState :=
  let normalizedOutput := toLowerCase rawOutput in
  if includes normalizedOutput "logged in using chatgpt" then connected_chatgpt
  else if includes normalizedOutput "logged in using an api key"
          || includes normalizedOutput "logged in using api key"
  then connected_api_key
  else if includes normalizedOutput "not logged in" then not_logged_in
  else unknown.

(** What [runCodexCli] resolves with. *)
Record CliResult : Type := {
  stdout : string;
  stderr : string;
  cli_exitCode : option Z
}.

Definition LF : ascii := "010"%char.

(** [[stdout, stderr].filter((chunk) => chunk.trim().length > 0)
      .join("\n").trim()] *)
Definition combinedOutput (result : CliResult) : string :=
  trim (String.concat (String LF "")
          (List.filter (fun chunk => negb (Nat.eqb (String.length (trim chunk)) 0))
             [stdout result; stderr result])).

Definition isConnectedState (state : CodexIntegrationState) : bool :=
  match state with
  | connected_chatgpt | connected_api_key => true
  | _ => false
  end.

Record IntegrationResponse : Type := {
  i_state : CodexIntegrationState;
  i_isConnected : bool;
  i_rawOutput : string;
  i_exitCode : option Z
}.

(** [getIntegration]; [result] is what [runCodexCli(["login", "status"])]
    resolves or rejects with. *)
Definition getIntegration (result : outcome CliResult)
  : outcome IntegrationResponse :=
  match result with
  | Throw m => Throw m
  | Return result =>
      let combined := combinedOutput result in
      let state := normalizeCodexIntegrationState combined in
      Return {| i_state := state;
                i_isConnected := isConnectedState state;
                i_rawOutput := combined;
                i_exitCode := cli_exitCode result |}
  end.

Record LogoutResponse : Type := {
  lo_success : bool;
  lo_state : CodexIntegrationState;
  lo_isConnected : bool;
  lo_logoutExitCode : option Z;
  lo_logoutOutput : string;
  lo_statusOutput : string
}.

(** [logout]; the arguments are what [runCodexCli(["logout"])] and then
    [runCodexCli(["login", "status"])] resolve or reject with. *)
Definition logout (logoutResult statusResult : outcome CliResult)
  : outcome LogoutResponse :=
  match logoutResult with
  | Throw m => Throw m
  | Return logoutResult =>
      match statusResult with
      | Throw m => Throw m
      | Return statusResult =>
          let statusOutput := combinedOutput statusResult in
          let state := normalizeCodexIntegrationState statusOutput in
          if isConnectedState state
          then Throw "Failed to log out from Codex. Please try again."
          else Return {| lo_success := true;
                         lo_state := state;
                         lo_isConnected := false;
                         lo_logoutExitCode := cli_exitCode logoutResult;
                         lo_logoutOutput := combinedOutput logoutResult;
                         lo_statusOutput := statusOutput |}
      end
  end.

(** *** Stored messages

    A stored message is a parsed JSON value; numbers are the integers. *)

#[local] Unset Elimination Schemes.
Inductive JsValue : Type :=
| JsUndefined
| JsNull
| JsBool (b : bool)
| JsNumber (n : Z)
| JsString (s : string)
| JsArray (items : list JsValue)
| JsObject (fields : list (string * JsValue)).
#[local] Set Elimination Schemes.

(** [v?.key] for the keys the router reads: only an object has them. *)
Definition getProp (v : JsValue) (key : string) : JsValue :=
  match v with
  | JsObject fields =>
      match mapGet key fields with
      | Some x => x
      | None => JsUndefined
      end
  | _ => JsUndefined
  end.

Definition jsTruthy (v : JsValue) : bool :=
  match v with
  | JsUndefined | JsNull => false
  | JsBool b => b
  | JsNumber n => negb (Z.eqb n 0)
  | JsString s => truthy s
  | JsArray _ | JsObject _ => true
  end.

(** [typeof v === "string" ? v : undefined] *)
Definition asString (v : JsValue) : option string :=
  match v with
  | JsString s => Some s
  | _ => None
  end.

(** [v === s] for a string literal [s]. *)
Definition isString (v : JsValue) (s : string) : bool :=
  match v with
  | JsString x => String.eqb x s
  | _ => false
  end.

(** [s.split("/").pop()]: what follows the last slash. *)
Fixpoint lastSegment (s : string) : string :=
  match s with
  | EmptyString => EmptyString
  | String c s' =>
      if includes s' "/" then lastSegment s'
      else if Ascii.eqb c "/" then s' else s
  end.

(** The entry [extractPromptFromStoredMessage] pushes for a part of type
    ["file-content"]. *)
Definition fileContentEntry (part : JsValue) : string :=
  let filePath := asString (getProp part "filePath") in
  let fileName :=
    match filePath with
    | Some fp => if truthy (lastSegment fp) then lastSegment fp
                 else if truthy fp then fp else "file"
    | None => "file"
    end in
  let content := orEmpty (asString (getProp part "content")) in
  String LF "--- " +:+ fileName +:+ " ---" +:+ String LF content.

(** The two arrays [extractPromptFromStoredMessage] fills, in one pass. *)
Fixpoint collectParts (parts : list JsValue) : list string * list string :=
  match parts with
  | [] => ([], [])
  | part :: rest =>
      let '(textParts, fileContents) := collectParts rest in
      match (if isString (getProp part "type") "text"
             then asString (getProp part "text") else None) with
      | Some text => (text :: textParts, fileContents)
      | None =>
          if isString (getProp part "type") "file-content"
          then (textParts, fileContentEntry part :: fileContents)
          else (textParts, fileContents)
      end
  end.

Definition extractPromptFromStoredMessage (message : JsValue) : string :=
  if negb (jsTruthy message) then ""
  else
    match getProp message "parts" with
    | JsArray parts =>
        let '(textParts, fileContents) := collectParts parts in
        String.concat (String LF "") textParts +:+ String.concat "" fileContents
    | _ => ""
    end.

(** [[...messages].reverse().find((m) => m?.role === "assistant")] *)
Definition lastAssistant (messages : list JsValue) : JsValue :=
  match List.find (fun m => isString (getProp m "role") "assistant")
                  (rev messages) with
  | Some m => m
  | None => JsUndefined
  end.

Definition getLastSessionId (messages : list JsValue) : option string :=
  asString (getProp (getProp (lastAssistant messages) "metadata") "sessionId").

(** An image attachment; a field that is missing is [None]. *)
Record ImageAttachment : Type := {
  base64Data : option string;
  mediaType : option string;
  filename : option string
}.

Definition optString (x : option string) : JsValue :=
  match x with
  | Some s => JsString s
  | None => JsUndefined
  end.

(** [!image.base64Data || !image.mediaType] *)
Definition imageUnusable (image : ImageAttachment) : bool :=
  negb (truthy (orEmpty (base64Data image)))
  || negb (truthy (orEmpty (mediaType image))).

Fixpoint userImageParts (images : list ImageAttachment) : list JsValue :=
  match images with
  | [] => []
  | image :: rest =>
      if imageUnusable image then userImageParts rest
      else JsObject [("type", JsString "data-image");
                     ("data", JsObject [("base64Data", optString (base64Data image));
                                        ("mediaType", optString (mediaType image));
                                        ("filename", optString (filename image))])]
           :: userImageParts rest
  end.

Definition buildUserParts (prompt : string)
    (images : option (list ImageAttachment)) : list JsValue :=
  JsObject [("type", JsString "text"); ("text", JsString prompt)]
  :: match images with
     | Some l => userImageParts l
     | None => []
     end.

Fixpoint modelImageParts (images : list ImageAttachment) : list JsValue :=
  match images with
  | [] => []
  | image :: rest =>
      if imageUnusable image then modelImageParts rest
      else JsObject ([("type", JsString "file");
                      ("mediaType", optString (mediaType image));
                      ("data", optString (base64Data image))]
                     ++ if truthy (orEmpty (filename image))
                        then [("filename", optString (filename image))]
                        else [])
           :: modelImageParts rest
  end.

Definition buildModelMessageContent (prompt : string)
    (images : option (list ImageAttachment)) : list JsValue :=
  JsObject [("type", JsString "text"); ("text", JsString prompt)]
  :: match images with
     | Some l => modelImageParts l
     | None => []
     end.

(** The test of [chat] for a prompt that is already the last stored message:
    [lastMessage?.role === "user" &&
     extractPromptFromStoredMessage(lastMessage) === input.prompt]. *)
Definition isDuplicatePrompt (existingMessages : list JsValue) (prompt : string)
  : bool :=
  let lastMessage := List.last existingMessages JsUndefined in
  isString (getProp lastMessage "role") "user"
  && String.eqb (extractPromptFromStoredMessage lastMessage) prompt.

(** The user message [chat] appends to the stored messages. *)
Definition userMessage (messageId prompt : string)
    (images : option (list ImageAttachment)) (metadataModel : string) : JsValue :=
  JsObject [("id", JsString messageId);
            ("role", JsString "user");
            ("parts", JsArray (buildUserParts prompt images));
            ("metadata", JsObject [("model", JsString metadataModel)])].

(** *** Errors of the stream *)

Section ErrorText.

(** [String(value)] *)
Context (toJsString : JsValue -> string).






End ErrorText.

(** ** Vocabulary of the regular expressions *)

(** [matchesPrefix r m rest]: the regular expression [r] matches the text [m]
    when [rest] follows it. An iteration of a star consumes something. *)
Inductive matchesPrefix : regex -> string -> string -> Prop :=
| matches_Eps (rest : string) : matchesPrefix Eps "" rest
| matches_Lit (c : ascii) (rest : string) :
    matchesPrefix (Lit c) (String c "") rest
| matches_Cls (p : ascii -> bool) (c : ascii) (rest : string) :
    p c = true -> matchesPrefix (Cls p) (String c "") rest
| matches_Cat (r1 r2 : regex) (m1 m2 rest : string) :
    matchesPrefix r1 m1 (m2 +:+ rest) -> matchesPrefix r2 m2 rest ->
    matchesPrefix (Cat r1 r2) (m1 +:+ m2) rest
| matches_Alt_l (r1 r2 : regex) (m rest : string) :
    matchesPrefix r1 m rest -> matchesPrefix (Alt r1 r2) m rest
| matches_Alt_r (r1 r2 : regex) (m rest : string) :
    matchesPrefix r2 m rest -> matchesPrefix (Alt r1 r2) m rest
| matches_Star_nil (r : regex) (rest : string) : matchesPrefix (Star r) "" rest
| matches_Star_cons (r : regex) (m1 m2 rest : string) :
    m1 <> "" ->
    matchesPrefix r m1 (m2 +:+ rest) -> matchesPrefix (Star r) m2 rest ->
    matchesPrefix (Star r) (m1 +:+ m2) rest
| matches_Eos : matchesPrefix Eos "" "".

(** * Properties *)

(** ** Strings *)

Lemma append_nil (s : string) : "" +:+ s = s.
Proof. reflexivity. Qed.

Lemma append_cons (c : ascii) (p s : string) :
  String c p +:+ s = String c (p +:+ s).
Proof. reflexivity. Qed.

Lemma length_append (p s : string) :
  String.length (p +:+ s) = String.length p + String.length s.
Proof.
  induction p as [|c p IH]; [done|].
  rewrite append_cons. simpl. by rewrite IH.
Qed.

Lemma prefix_append (p s : string) : String.prefix p (p +:+ s) = true.
Proof.
  induction p as [|c p IH].
  - rewrite append_nil. by destruct s.
  - rewrite append_cons. simpl. destruct (ascii_dec c c); [exact IH | done].
Qed.

Lemma slice_append (p s : string) : slice (String.length p) (p +:+ s) = s.
Proof.
  induction p as [|c p IH]; [by rewrite append_nil|].
  rewrite append_cons. exact IH.
Qed.

Lemma prefix_split (p s : string) :
  String.prefix p s = true -> s = p +:+ slice (String.length p) s.
Proof.
  revert s; induction p as [|c p IH]; intros s H.
  - by rewrite append_nil.
  - destruct s as [|a s]; [done|]. simpl in H.
    destruct (ascii_dec c a) as [->|]; [|done].
    rewrite append_cons. simpl. f_equal. by apply IH.
Qed.

Lemma prefix_iff (p s : string) :
  String.prefix p s = true <-> exists rest, s = p +:+ rest.
Proof.
  split.
  - intros H. eexists. by apply prefix_split.
  - intros [rest ->]. apply prefix_append.
Qed.

Lemma truthy_iff (s : string) : truthy s = true <-> s <> "".
Proof. destruct s; simpl; split; congruence. Qed.

Lemma existsb_string_eqb (x : string) (l : list string) :
  existsb (String.eqb x) l = bool_decide (x ∈ l).
Proof.
  induction l as [|y l IH]; simpl; [done|].
  rewrite IH. destruct (String.eqb_spec x y) as [->|Hne]; simpl.
  - symmetry. apply bool_decide_eq_true. set_solver.
  - apply eq_true_iff_eq. rewrite !bool_decide_eq_true, elem_of_cons.
    split; [by right | by intros [?|?]].
Qed.

(** ** The regular expressions on sample inputs *)

Example stripAnsi_colours :
  stripAnsi (String ESC "[1;31mred" +:+ String ESC "[0m ok") = "red ok".
Proof. reflexivity. Qed.

(** An OSC sequence ends at the first BEL after it, whatever comes before. *)
Example stripAnsi_osc_bel :
  stripAnsi (String ESC "]0;t" +:+ String ESC "\a"
             +:+ String ESC "]0;u" +:+ String BEL "b") = "b".
Proof. reflexivity. Qed.

(** Without a BEL the greedy class runs to the end of the string and gives
    characters back up to the last [ESC \]. *)
Example stripAnsi_osc_st :
  stripAnsi (String ESC "]8;;u" +:+ String ESC "\link"
             +:+ String ESC "]8;;" +:+ String ESC "\end") = "end".
Proof. reflexivity. Qed.

Example url_candidates :
  matchAll URL_CANDIDATE_REGEX
    "see https://a.b/c?x=1). and http://localhost:1455/x then https://"
  = ["https://a.b/c?x=1)."; "http://localhost:1455/x"].
Proof. reflexivity. Qed.

Example trailing_punctuation :
  removeFirst TRAILING_PUNCTUATION_REGEX "https://a.b/c?x=1)." = "https://a.b/c?x=1"
  /\ removeFirst TRAILING_PUNCTUATION_REGEX "https://a.b/c.,x" = "https://a.b/c.,x".
Proof. split; reflexivity. Qed.

Example extract_skips_localhost :
  extractFirstNonLocalhostUrl exampleHost
    "open http://localhost:1455/cb or https://a.localhost/ or (https://auth.openai.com/o?x=1)."
  = Some "https://auth.openai.com/o?x=1".
Proof. vm_compute. reflexivity. Qed.

(** ** Model-name preprocessing *)

Lemma hasAppManagedApiKey_iff (authConfig : option AuthConfig) :
  hasAppManagedApiKey authConfig = true
  <-> exists cfg, authConfig = Some cfg /\ trim (apiKey cfg) <> "".
Proof.
  destruct authConfig as [cfg|]; simpl.
  - rewrite truthy_iff. split; [eauto|]. intros (c & Hc & Hk). by simplify_eq.
  - split; [done | by intros (? & ? & ?)].
Qed.

(** C9. With an app-managed API key (non-empty after trimming),
    ["gpt-5.3-codex"] becomes ["gpt-5.2-codex/high"] and
    ["gpt-5.3-codex/<level>"] becomes ["gpt-5.2-codex/<level>"], the level kept
    when it is one of low, medium, high, xhigh and replaced by high otherwise;
    every other model id, and every model id when no such key is supplied,
    passes through unchanged. The model [chat] selects is this function
    applied to the requested model id. *)
Theorem preprocessCodexModelName_spec
    (modelId : string) (authConfig : option AuthConfig) :
  ((exists cfg, authConfig = Some cfg /\ trim (apiKey cfg) <> "") ->
     (modelId = "gpt-5.3-codex" ->
        preprocessCodexModelName modelId authConfig = "gpt-5.2-codex/high")
     /\ (forall level, modelId = "gpt-5.3-codex/" +:+ level ->
           preprocessCodexModelName modelId authConfig =
             "gpt-5.2-codex/" +:+
               (if bool_decide (level ∈ ["low"; "medium"; "high"; "xhigh"])
                then level else "high"))
     /\ (modelId <> "gpt-5.3-codex" ->
         (forall level, modelId <> "gpt-5.3-codex/" +:+ level) ->
         preprocessCodexModelName modelId authConfig = modelId))
  /\ (~ (exists cfg, authConfig = Some cfg /\ trim (apiKey cfg) <> "") ->
        preprocessCodexModelName modelId authConfig = modelId)
  /\ (forall model,
        selectedModelId model authConfig =
          preprocessCodexModelName
            (default DEFAULT_CODEX_MODEL (extractCodexModelId model)) authConfig).
Proof.
  split; [|split].
  - intros Hkey. apply hasAppManagedApiKey_iff in Hkey.
    unfold preprocessCodexModelName. rewrite Hkey. simpl negb. cbv iota.
    split; [|split].
    + intros ->. reflexivity.
    + intros level ->.
      replace (String.eqb ("gpt-5.3-codex/" +:+ level) "gpt-5.3-codex") with false.
      2:{ symmetry. apply String.eqb_neq. intros H.
          apply (f_equal String.length) in H. rewrite length_append in H.
          simpl in H. lia. }
      unfold startsWith. rewrite prefix_append, slice_append.
      rewrite existsb_string_eqb. reflexivity.
    + intros Hne Hpre.
      destruct (String.eqb_spec modelId "gpt-5.3-codex") as [|_]; [done|].
      unfold startsWith.
      destruct (String.prefix "gpt-5.3-codex/" modelId) eqn:Hp; [|done].
      apply prefix_iff in Hp as [rest ->]. by destruct (Hpre rest).
  - intros Hno. unfold preprocessCodexModelName.
    destruct (hasAppManagedApiKey authConfig) eqn:Hkey; [|done].
    apply hasAppManagedApiKey_iff in Hkey. done.
  - intros model. unfold selectedModelId. f_equal.
    destruct (extractCodexModelId model) as [m|] eqn:Hm; [|done]. simpl.
    destruct m; [|done].
    unfold extractCodexModelId in Hm. destruct model as [raw|]; [|done].
    destruct (String.length raw =? 0)%nat; [done|].
    destruct (trim raw); simpl in Hm; [done|].
    repeat case_match; congruence.
Qed.

(** The theorem at a request with a key and the model ["gpt-5.3-codex/turbo"]. *)
Lemma preprocessCodexModelName_spec_witness :
  preprocessCodexModelName "gpt-5.3-codex/turbo" (Some {| apiKey := " sk-1 " |})
  = "gpt-5.2-codex/high".
Proof.
  destruct (preprocessCodexModelName_spec "gpt-5.3-codex/turbo"
              (Some {| apiKey := " sk-1 " |})) as [H _].
  destruct H as (_ & H & _).
  - eexists. split; [reflexivity|]. vm_compute. discriminate.
  - exact (H "turbo" eq_refl).
Defined.

(** ** The active stream registry *)

Lemma cleanupProvider_activeStreams (subChatId : string) (w : World) :
  activeStreams (cleanupProvider subChatId w) = activeStreams w.
Proof. unfold cleanupProvider. by destruct (providerSessions w !! subChatId). Qed.

Lemma cleanupProvider_loginSessions (subChatId : string) (w : World) :
  loginSessions (cleanupProvider subChatId w) = loginSessions w.
Proof. unfold cleanupProvider. by destruct (providerSessions w !! subChatId). Qed.

Lemma cleanupProvider_providerSessions (subChatId : string) (w : World) :
  providerSessions (cleanupProvider subChatId w)
  = delete subChatId (providerSessions w).
Proof.
  unfold cleanupProvider.
  destruct (providerSessions w !! subChatId) eqn:H; [done|].
  symmetry. by apply delete_id.
Qed.

Lemma cleanupProvider_effects (subChatId : string) (w : World) :
  effects (cleanupProvider subChatId w) = effects w ++ teardownCalls subChatId w.
Proof.
  unfold cleanupProvider, teardownCalls.
  destruct (providerSessions w !! subChatId); simpl; [done|].
  by rewrite app_nil_r.
Qed.

Lemma cleanupProvider_next (subChatId : string) (w : World) :
  next (cleanupProvider subChatId w) = next w.
Proof. unfold cleanupProvider. by destruct (providerSessions w !! subChatId). Qed.

Lemma releaseStream_own (subChatId runId0 : string) (s : ActiveCodexStream) (w : World) :
  activeStreams w !! subChatId = Some s -> runId s = runId0 ->
  activeStreams (releaseStream subChatId runId0 w)
  = delete subChatId (activeStreams w).
Proof.
  intros Hs Hr. unfold releaseStream. rewrite Hs.
  by rewrite bool_decide_eq_true_2.
Qed.

Lemma releaseStream_stale (subChatId runId0 : string) (w : World) :
  (forall s, activeStreams w !! subChatId = Some s -> runId s <> runId0) ->
  releaseStream subChatId runId0 w = w.
Proof.
  intros H. unfold releaseStream.
  destruct (activeStreams w !! subChatId) as [s|]; [|done].
  rewrite bool_decide_eq_false_2; [done|]. by apply H.
Qed.

(** C1. The registry holds at most one stream per sub-chat id. Starting the
    chat subscription for a sub-chat id that has an entry aborts the
    controller of that entry and tears down the provider session of the
    sub-chat (cleanup call, entry removed), then registers the new run id
    with a new controller; without an entry it only registers. The finally
    block and the teardown of a run remove the entry exactly when it still
    holds the run id of that run, and otherwise leave the registry as it is:
    a run that was superseded by a run with another id does not remove the
    registration of its successor. *)
Theorem chat_single_active_stream (subChatId runId0 : string) (w : World) :
  (* start of the subscription *)
  (let '(w', c) := chatStart subChatId runId0 w in
   activeStreams w' !! subChatId = Some {| runId := runId0; controller := c |}
   /\ c = next w
   /\ (forall other, other <> subChatId ->
         activeStreams w' !! other = activeStreams w !! other)
   /\ (forall old, activeStreams w !! subChatId = Some old ->
         effects w' = effects w ++ Abort (controller old) :: teardownCalls subChatId w
         /\ providerSessions w' = delete subChatId (providerSessions w))
   /\ (activeStreams w !! subChatId = None ->
         effects w' = effects w /\ providerSessions w' = providerSessions w))
  (* finally block and teardown of the run *)
  /\ (forall s, activeStreams w !! subChatId = Some s -> runId s = runId0 ->
        activeStreams (chatFinally subChatId runId0 w)
          = delete subChatId (activeStreams w)
        /\ forall c, activeStreams (chatTeardown subChatId runId0 c w)
                     = delete subChatId (activeStreams w))
  /\ ((forall s, activeStreams w !! subChatId = Some s -> runId s <> runId0) ->
        chatFinally subChatId runId0 w = w
        /\ forall c, activeStreams (chatTeardown subChatId runId0 c w)
                     = activeStreams w)
  (* a superseded run and its successor *)
  /\ (forall successor, successor <> runId0 ->
        let '(w', c') := chatStart subChatId successor w in
        activeStreams (chatFinally subChatId runId0 w') !! subChatId
          = Some {| runId := successor; controller := c' |}
        /\ forall c, activeStreams (chatTeardown subChatId runId0 c w') !! subChatId
                     = Some {| runId := successor; controller := c' |}).
Proof.
  assert (Hstart : forall r,
    activeStreams (chatStart subChatId r w).1 !! subChatId
    = Some {| runId := r; controller := (chatStart subChatId r w).2 |}).
  { intros r. unfold chatStart. simpl. by rewrite lookup_insert_eq. }
  split; [|split; [|split]].
  - specialize (Hstart runId0).
    destruct (chatStart subChatId runId0 w) as [w' c] eqn:Hc.
    unfold chatStart in Hc. simpl in Hc. injection Hc as <- <-.
    split; [exact Hstart|]. unfold supersede.
    split; [|split; [|split]].
    + destruct (activeStreams w !! subChatId); [|done].
      by rewrite cleanupProvider_next.
    + intros other Hne. simpl. rewrite lookup_insert_ne by done.
      destruct (activeStreams w !! subChatId); [|done].
      by rewrite cleanupProvider_activeStreams.
    + intros old ->. simpl.
      rewrite cleanupProvider_effects, cleanupProvider_providerSessions. simpl.
      by rewrite <- app_assoc.
    + by intros ->.
  - intros s Hs Hr. split; [by eapply releaseStream_own|].
    intros c. exact (releaseStream_own _ _ s (emit (Abort c) w) Hs Hr).
  - intros Hstale. split; [by apply releaseStream_stale|].
    intros c. unfold chatTeardown.
    by rewrite (releaseStream_stale _ _ (emit (Abort c) w)).
  - intros successor Hne. specialize (Hstart successor).
    destruct (chatStart subChatId successor w) as [w' c']. simpl in Hstart.
    split.
    + unfold chatFinally. rewrite releaseStream_stale; [done|].
      intros s Hs. rewrite Hstart in Hs. by injection Hs as <-.
    + intros c. unfold chatTeardown.
      rewrite (releaseStream_stale _ _ (emit (Abort c) w')); [done|].
      intros s Hs. simpl in Hs. rewrite Hstart in Hs. by injection Hs as <-.
Qed.

(** C2. [cancel(subChatId, runId)] is a no-op when the registry has no entry
    for the sub-chat or holds another run id: the world is unchanged and the
    answer is [cancelled = false], with [ignoredStale = true] exactly when
    another run id is registered. When the registered run id is the given
    one, the controller is aborted, the provider session is torn down, the
    entry is removed, and the answer is [cancelled = true]. *)
Theorem cancel_spec (subChatId runId0 : string) (w : World) :
  (activeStreams w !! subChatId = None ->
     cancel subChatId runId0 w
     = (w, {| cancelled_ := false; ignoredStale := false |}))
  /\ (forall s, activeStreams w !! subChatId = Some s -> runId s <> runId0 ->
        cancel subChatId runId0 w
        = (w, {| cancelled_ := false; ignoredStale := true |}))
  /\ (forall s, activeStreams w !! subChatId = Some s -> runId s = runId0 ->
        let '(w', r) := cancel subChatId runId0 w in
        r = {| cancelled_ := true; ignoredStale := false |}
        /\ effects w' = effects w ++ Abort (controller s) :: teardownCalls subChatId w
        /\ providerSessions w' = delete subChatId (providerSessions w)
        /\ activeStreams w' = delete subChatId (activeStreams w)
        /\ loginSessions w' = loginSessions w).
Proof.
  unfold cancel. split; [|split].
  - by intros ->.
  - intros s -> Hne. by rewrite bool_decide_eq_false_2.
  - intros s -> Heq. rewrite bool_decide_eq_true_2 by done. simpl.
    rewrite cleanupProvider_effects, cleanupProvider_providerSessions,
      cleanupProvider_activeStreams, cleanupProvider_loginSessions. simpl.
    by rewrite <- app_assoc.
Qed.

(** ** The provider session registry *)

Section ProviderProperties.

Context (host : Host).

Lemma getAuthFingerprint_spec (authConfig : option AuthConfig) :
  getAuthFingerprint host authConfig =
    match authConfig with
    | Some cfg =>
        if decide (trim (apiKey cfg) = "") then None
        else Some (sha256_hex host (trim (apiKey cfg)))
    | None => None
    end.
Proof.
  destruct authConfig as [cfg|]; [|done]. simpl.
  destruct (trim (apiKey cfg)); by case_decide.
Qed.

Lemma createProvider_spec
    (subChatId cwd0 : string) (sid : option string)
    (authConfig : option AuthConfig) (w : World) (binaryPath : string) :
  resolveCodexAcpBinaryPath host = Return binaryPath ->
  exists p,
    createProvider host subChatId cwd0 sid authConfig w
    = (withProviderSessions (fresh w).2
         (<[subChatId := {| provider := p; cwd := cwd0;
              authFingerprint := getAuthFingerprint host authConfig |}]>
            (providerSessions w)),
       Return p)
    /\ handle p = next w
    /\ session_cwd (settings p) = cwd0
    /\ command (settings p) = binaryPath.
Proof.
  intros Hbin. unfold createProvider. rewrite Hbin. simpl.
  eexists. split; [reflexivity|]. done.
Qed.

(** C3. With a session cached for the sub-chat, [getOrCreateProvider]
    returns the cached provider and changes nothing if and only if the
    stored working directory is the requested one and the stored
    fingerprint is the fingerprint of the supplied key: the SHA-256 hex
    digest of the trimmed key, or null without a non-empty key. In every
    other case the cached provider is cleaned up and removed, and (the
    codex-acp binary being resolved) a new provider is created and stored
    with the new working directory and fingerprint. *)
Theorem getOrCreateProvider_spec
    (subChatId cwd0 : string) (sid : option string)
    (authConfig : option AuthConfig) (w : World)
    (existing : CodexProviderSession) :
  providerSessions w !! subChatId = Some existing ->
  let fingerprint :=
    match authConfig with
    | Some cfg =>
        if decide (trim (apiKey cfg) = "") then None
        else Some (sha256_hex host (trim (apiKey cfg)))
    | None => None
    end in
  let '(w', r) := getOrCreateProvider host subChatId cwd0 sid authConfig w in
  ((w' = w /\ r = Return (provider existing))
     <-> (cwd existing = cwd0 /\ authFingerprint existing = fingerprint))
  /\ (~ (cwd existing = cwd0 /\ authFingerprint existing = fingerprint) ->
        take (S (length (effects w))) (effects w')
          = effects w ++ [Cleanup (handle (provider existing))]
        /\ forall binaryPath,
             resolveCodexAcpBinaryPath host = Return binaryPath ->
             exists p,
               r = Return p
               /\ handle p = next w
               /\ session_cwd (settings p) = cwd0
               /\ effects w' = effects w ++ [Cleanup (handle (provider existing))]
               /\ providerSessions w'
                  = <[subChatId := {| provider := p; cwd := cwd0;
                                      authFingerprint := fingerprint |}]>
                      (providerSessions w)).
Proof.
  intros Hex fingerprint.
  assert (Hfp : getAuthFingerprint host authConfig = fingerprint)
    by apply getAuthFingerprint_spec.
  unfold getOrCreateProvider. rewrite Hex, Hfp.
  destruct (decide (cwd existing = cwd0 /\ authFingerprint existing = fingerprint))
    as [[Hc Hf]|Hno].
  - rewrite !bool_decide_eq_true_2 by done. simpl. split; [done|].
    intros []. by split.
  - replace (bool_decide (cwd existing = cwd0)
             && bool_decide (authFingerprint existing = fingerprint))
      with false.
    2:{ symmetry. apply andb_false_iff.
        rewrite !bool_decide_eq_false.
        destruct (decide (cwd existing = cwd0)); [right|left]; tauto. }
    set (w2 := withProviderSessions _ _).
    assert (Heff : effects w2 = effects w ++ [Cleanup (handle (provider existing))])
      by done.
    destruct (createProvider host subChatId cwd0 sid authConfig w2)
      as [w' r] eqn:Hcreate.
    assert (Heff' : effects w' = effects w2).
    { unfold createProvider in Hcreate.
      destruct (resolveCodexAcpBinaryPath host); simpl in Hcreate;
        by injection Hcreate as <- _. }
    split; [|intros _; split].
    + split; [|done]. intros [-> _].
      rewrite Heff in Heff'. apply (f_equal length) in Heff'.
      rewrite length_app in Heff'. simpl in Heff'. lia.
    + rewrite Heff', Heff. by rewrite take_ge by (rewrite length_app; simpl; lia).
    + intros binaryPath Hbin.
      destruct (createProvider_spec subChatId cwd0 sid authConfig w2 binaryPath Hbin)
        as (p & Hp & Hh & Hcwd & _).
      rewrite Hcreate in Hp. injection Hp as -> ->.
      exists p. split; [done|]. split; [done|]. split; [done|].
      split; [done|]. simpl. rewrite Hfp. by rewrite insert_delete_eq.
Qed.

End ProviderProperties.

(** ** The login session registry *)

Lemma append_empty_r (s : string) : s +:+ "" = s.
Proof.
  induction s as [|c s IH]; [done|]. rewrite append_cons. by rewrite IH.
Qed.

Lemma append_assoc (a b c : string) : (a +:+ b) +:+ c = a +:+ (b +:+ c).
Proof.
  induction a as [|x a IH]; [done|]. rewrite !append_cons. by rewrite IH.
Qed.

Lemma mapGet_mapMutate {A : Type} (key k : string) (f : A -> A)
    (m : list (string * A)) :
  mapGet key (mapMutate k f m)
  = if decide (key = k) then f <$> mapGet key m else mapGet key m.
Proof.
  induction m as [|[k0 v] m IH]; simpl; [by case_decide|].
  destruct (String.eqb_spec k0 k) as [->|Hk]; simpl.
  - destruct (String.eqb_spec k key) as [->|Hkey].
    + by rewrite decide_True.
    + by rewrite decide_False.
  - destruct (String.eqb_spec k0 key) as [->|Hkey].
    + by rewrite decide_False.
    + exact IH.
Qed.

Lemma mapGet_mapSet {A : Type} (key k : string) (v : A) (m : list (string * A)) :
  mapGet key (mapSet k v m) = if decide (key = k) then Some v else mapGet key m.
Proof.
  induction m as [|[k0 v0] m IH]; simpl.
  - destruct (String.eqb_spec k key) as [->|Hkey].
    + by rewrite decide_True.
    + by rewrite decide_False.
  - destruct (String.eqb_spec k0 k) as [->|Hk]; simpl.
    + destruct (String.eqb_spec k key) as [->|Hkey].
      * by rewrite decide_True.
      * by rewrite decide_False.
    + destruct (String.eqb_spec k0 key) as [->|Hkey].
      * by rewrite decide_False.
      * exact IH.
Qed.

Lemma mapMutate_mapMutate {A : Type} (k : string) (f g : A -> A)
    (m : list (string * A)) :
  mapMutate k g (mapMutate k f m) = mapMutate k (fun v => g (f v)) m.
Proof.
  induction m as [|[k0 v] m IH]; simpl; [done|].
  destruct (String.eqb_spec k0 k) as [->|Hk]; simpl.
  - by rewrite String.eqb_refl.
  - destruct (String.eqb_spec k0 k) as [->|_]; [done|]. by rewrite IH.
Qed.

(** The four ways [cancelLogin] ends for a stored session: [kill] is not
    called or reports nothing, the signal is sent, the error of [kill] is
    handled by the error listener, or it is thrown. *)
Lemma cancelLogin_cases (sessionId : string) (kill : KillResult) (w : World)
    (s : CodexLoginSession) :
  mapGet sessionId (loginSessions w) = Some s ->
  exists (f : CodexLoginSession -> CodexLoginSession)
         (l' : gmap string ChildListeners)
         (r : outcome CancelLoginResponse),
    cancelLogin sessionId kill w
    = ({| providerSessions := providerSessions w;
          activeStreams := activeStreams w;
          loginSessions := mapMutate sessionId f (loginSessions w);
          listeners := l';
          next := next w;
          effects := effects w ++ killCalls s |}, r)
    /\ (((killCalls s = [] \/ kill = killGone)
         /\ f = markCancelled /\ l' = listeners w
         /\ r = Return {| cl_success := true; cl_found := true;
                          cl_session := Some (toLoginSessionResponse (f s)) |})
        \/ (killCalls s <> [] /\ kill = killSent
            /\ f = (fun s => markKilled (markCancelled s)) /\ l' = listeners w
            /\ r = Return {| cl_success := true; cl_found := true;
                             cl_session := Some (toLoginSessionResponse (f s)) |})
        \/ (exists message l,
              killCalls s <> [] /\ kill = killFailed message
              /\ listeners w !! sessionId = Some l /\ onError l = true
              /\ f = (fun s => onChildError message (markCancelled s))
              /\ l' = <[sessionId := {| onError := false; onClose := onClose l |}]>
                        (listeners w)
              /\ r = Return {| cl_success := true; cl_found := true;
                               cl_session := Some (toLoginSessionResponse (f s)) |})
        \/ (exists message,
              killCalls s <> [] /\ kill = killFailed message
              /\ (forall l, listeners w !! sessionId = Some l -> onError l = false)
              /\ f = markCancelled /\ l' = listeners w
              /\ r = Throw message)).
Proof.
  intros Hs. unfold cancelLogin, killCalls. rewrite Hs.
  assert (Hget : forall f,
            mapGet sessionId (mapMutate sessionId f (loginSessions w)) = Some (f s)).
  { intros f. by rewrite mapGet_mapMutate, decide_True, Hs. }
  destruct (Login.process s) as [child|] eqn:Hp; [destruct (killed child) eqn:Hk|];
    simpl.
  - eexists markCancelled, (listeners w), _. rewrite app_nil_r, Hget.
    split; [done|]. left. by repeat split; [left|..].
  - unfold childKill. destruct kill as [| |message]; simpl.
    + eexists (fun s => markKilled (markCancelled s)), (listeners w), _.
      rewrite mapMutate_mapMutate, Hget.
      split; [done|]. right; left. by repeat split.
    + eexists markCancelled, (listeners w), _. rewrite Hget.
      split; [done|]. left. by repeat split; [right|..].
    + destruct (listeners w !! sessionId) as [l|] eqn:Hl;
        [destruct (onError l) eqn:He|].
      * unfold childError. simpl. rewrite Hl, He. simpl.
        eexists (fun s => onChildError message (markCancelled s)), _, _.
        rewrite mapMutate_mapMutate, Hget.
        split; [done|]. right; right; left. exists message, l. by repeat split.
      * eexists markCancelled, (listeners w), _.
        split; [done|]. right; right; right. exists message.
        repeat split; try done. by intros l0 [= <-].
      * eexists markCancelled, (listeners w), _.
        split; [done|]. right; right; right. exists message.
        repeat split; done.
  - eexists markCancelled, (listeners w), _. rewrite app_nil_r, Hget.
    split; [done|]. left. by repeat split; [left|..].
Qed.

Lemma firstActiveLogin_None (sessions : list (string * CodexLoginSession)) :
  firstActiveLogin sessions = None <-> activeCount sessions = 0.
Proof.
  induction sessions as [|[k s] l IH]; simpl; [done|].
  destruct (isActiveLogin s); simpl; [split; [done|lia] | exact IH].
Qed.

Lemma firstActiveLogin_Some (sessions : list (string * CodexLoginSession))
    (s : CodexLoginSession) :
  firstActiveLogin sessions = Some s ->
  isActiveLogin s = true /\ exists k, (k, s) ∈ sessions.
Proof.
  induction sessions as [|[k0 s0] l IH]; simpl; [done|].
  destruct (isActiveLogin s0) eqn:Ha.
  - intros [= <-]. split; [done|]. exists k0. by left.
  - intros H. destruct (IH H) as (? & k & ?). split; [done|]. exists k. by right.
Qed.

Lemma firstActiveLogin_complete (sessions : list (string * CodexLoginSession))
    (k : string) (s : CodexLoginSession) :
  (k, s) ∈ sessions -> isActiveLogin s = true ->
  exists s', firstActiveLogin sessions = Some s'.
Proof.
  intros Hin Ha. destruct (firstActiveLogin sessions) eqn:H; [eauto|].
  exfalso. induction sessions as [|[k0 s0] l IH]; [by inversion Hin|].
  simpl in H. destruct (isActiveLogin s0) eqn:Ha0; [done|].
  apply elem_of_cons in Hin as [[= <- <-]|Hin]; [congruence | by apply IH].
Qed.

Lemma activeCount_mapMutate (k : string) (f : CodexLoginSession -> CodexLoginSession)
    (sessions : list (string * CodexLoginSession)) :
  (forall s, isActiveLogin (f s) = true -> isActiveLogin s = true) ->
  activeCount (mapMutate k f sessions) <= activeCount sessions.
Proof.
  intros Hf. induction sessions as [|[k0 s0] l IH]; simpl; [done|].
  destruct (String.eqb k0 k); simpl; [|lia].
  specialize (Hf s0).
  destruct (isActiveLogin (f s0)), (isActiveLogin s0);
    first [lia | by specialize (Hf eq_refl)].
Qed.

Lemma activeCount_mapSet (k : string) (v : CodexLoginSession)
    (sessions : list (string * CodexLoginSession)) :
  activeCount (mapSet k v sessions) <= S (activeCount sessions).
Proof.
  induction sessions as [|[k0 s0] l IH]; simpl.
  - destruct (isActiveLogin v); lia.
  - destruct (String.eqb k0 k); simpl; [|lia].
    destruct (isActiveLogin v), (isActiveLogin s0); lia.
Qed.

Section LoginProperties.

Context (host : Host).

Lemma getOrCreateProvider_loginSessions
    (subChatId cwd0 : string) (sid : option string)
    (authConfig : option AuthConfig) (w : World) :
  loginSessions (getOrCreateProvider host subChatId cwd0 sid authConfig w).1
  = loginSessions w.
Proof.
  unfold getOrCreateProvider, createProvider.
  destruct (providerSessions w !! subChatId) as [e|];
    [destruct (_ && _); [done|]|];
    by destruct (resolveCodexAcpBinaryPath host).
Qed.

(** The registry after an event: unchanged, one stored session stepped, or
    (for [startLogin] without an active session) a new session stored. Of the
    events that step a session, only the ["error"] event of its child takes
    a cancelled state away. *)
Lemma handleEvent_loginSessions (e : Event) (w : World) :
  loginSessions (handleEvent host e w) = loginSessions w
  \/ (exists k f, (forall s, sessionStep host s (f s))
        /\ ((forall m, e <> ChildError k m) ->
            (forall m, e <> CancelLogin k (killFailed m)) ->
            forall s, Login.state s = cancelled -> Login.state (f s) = cancelled)
        /\ loginSessions (handleEvent host e w) = mapMutate k f (loginSessions w))
  \/ (exists uuid, e = StartLogin uuid
        /\ getActiveLoginSession w = None
        /\ loginSessions (handleEvent host e w)
           = mapSet uuid (newLoginSession uuid (next w)) (loginSessions w)).
Proof.
  destruct e; simpl.
  - unfold startLogin. destruct (getActiveLoginSession w) eqn:Ha; [by left|].
    destruct (resolveBundledCodexCliPath host); [|by left].
    right; right. by exists uuid.
  - destruct (mapGet sessionId (loginSessions w)) as [s|] eqn:Hs;
      [|by left; unfold cancelLogin; rewrite Hs].
    destruct (cancelLogin_cases sessionId kill w s Hs) as (f & l' & r & -> & Hcase).
    right; left. exists sessionId, f. simpl.
    destruct Hcase as [(_ & -> & _)|[(_ & _ & -> & _)|
      [(m & l & _ & -> & _ & _ & -> & _)|(m & _ & _ & _ & -> & _)]]].
    + split; [intros; constructor|]. done.
    + split; [intros; constructor|]. done.
    + split; [intros; constructor|]. split; [|done].
      intros _ Hne. by destruct (Hne m).
    + split; [intros; constructor|]. done.
  - right; left. exists sessionId, (fun s => appendLoginOutput host s chunk).
    split; [intros; constructor|].
    split; [|reflexivity]. intros _ _ s Hs. unfold appendLoginOutput.
    by destruct (negb _).
  - unfold childError. destruct (listeners w !! sessionId) as [l|]; [|by left].
    destruct (onError l); [|by left].
    right; left. exists sessionId, (onChildError message).
    split; [intros; constructor|].
    split; [|reflexivity]. intros Hne. by destruct (Hne message).
  - unfold childClose. destruct (listeners w !! sessionId) as [l|]; [|by left].
    destruct (onClose l); [|by left].
    right; left. exists sessionId, (onChildClose code).
    split; [intros; constructor|].
    split; [|reflexivity]. intros _ _ s Hs. unfold onChildClose. by rewrite Hs.
  - left. unfold supersede.
    destruct (activeStreams w !! subChatId); [|done].
    by rewrite cleanupProvider_loginSessions.
  - left. unfold chatProvider. rewrite getOrCreateProvider_loginSessions.
    destruct forceNewSession; [|done]. apply cleanupProvider_loginSessions.
  - left. unfold chatFinally, releaseStream.
    destruct (activeStreams w !! subChatId); [|done]. by case_bool_decide.
  - left. unfold chatTeardown, releaseStream. simpl.
    destruct (activeStreams w !! subChatId); [|done]. by case_bool_decide.
  - left. unfold cancel. destruct (activeStreams w !! subChatId); [|done].
    destruct (negb _); [done|]. simpl. by rewrite cleanupProvider_loginSessions.
  - left. unfold cleanup. rewrite cleanupProvider_activeStreams.
    destruct (activeStreams w !! subChatId); simpl;
      by rewrite cleanupProvider_loginSessions.
Qed.

End LoginProperties.

Lemma removeAll_go_sublist (r : regex) (skip : nat) (s : string) :
  sublist (list_ascii_of_string (removeAll_go r skip s)) (list_ascii_of_string s).
Proof.
  revert skip. induction s as [|c s IH]; intros skip; simpl; [done|].
  destruct skip as [|n]; [|by apply sublist_cons].
  destruct (matchAt r (String c s)) as [rest|]; [|by apply sublist_skip].
  destruct (matchLength (String c s) rest); simpl;
    [by apply sublist_skip | by apply sublist_cons].
Qed.

Lemma stripAnsi_sublist (s : string) :
  sublist (list_ascii_of_string (stripAnsi s)) (list_ascii_of_string s).
Proof.
  unfold stripAnsi, removeAll.
  etrans; apply removeAll_go_sublist.
Qed.

Lemma removeAll_no_match (r : regex) (s : string) :
  test r s = false -> removeAll r s = s.
Proof.
  unfold removeAll. induction s as [|c s IH]; simpl; [done|].
  destruct (matchAt r (String c s)); [done|]. intros H. by rewrite IH.
Qed.

Lemma stripAnsi_no_match (s : string) :
  containsAnsi s = false -> stripAnsi s = s.
Proof.
  unfold containsAnsi, stripAnsi. intros [H1 H2]%orb_false_iff.
  rewrite (removeAll_no_match _ _ H2). by apply removeAll_no_match.
Qed.

Section OutputProperties.

Context (host : Host).

Lemma appendLoginOutput_output (s : CodexLoginSession) (chunk : string) :
  Login.output (appendLoginOutput host s chunk)
  = Login.output s +:+ stripAnsi chunk.
Proof.
  unfold appendLoginOutput. destruct (stripAnsi chunk); simpl; [|done].
  by rewrite append_empty_r.
Qed.

Lemma appendLoginOutput_state (s : CodexLoginSession) (chunk : string) :
  Login.state (appendLoginOutput host s chunk) = Login.state s
  /\ Login.process (appendLoginOutput host s chunk) = Login.process s
  /\ Login.id (appendLoginOutput host s chunk) = Login.id s.
Proof. unfold appendLoginOutput. by destruct (negb _). Qed.

Lemma sessionStep_output (s s' : CodexLoginSession) :
  sessionStep host s s' ->
  exists suffix, Login.output s' = Login.output s +:+ suffix.
Proof.
  intros [s0 chunk|s0 m|s0 code|s0|s0|s0 m].
  - eexists. apply appendLoginOutput_output.
  - exists "". by rewrite append_empty_r.
  - exists "". rewrite append_empty_r. unfold onChildClose.
    destruct (Login.state s0); try done; by case_decide.
  - exists "". by rewrite append_empty_r.
  - exists "". by rewrite append_empty_r.
  - exists "". by rewrite append_empty_r.
Qed.

Lemma sessionStep_id (s s' : CodexLoginSession) :
  sessionStep host s s' -> Login.id s' = Login.id s.
Proof.
  intros [s0 chunk|s0 m|s0 code|s0|s0|s0 m']; try done.
  - apply appendLoginOutput_state.
  - unfold onChildClose. destruct (Login.state s0); try done; by case_decide.
Qed.

(** A session that is stored stays stored under its id, and what is stored
    later is what the events made of it. *)
Lemma handleEvent_session (e : Event) (w : World) (sid : string) (s : CodexLoginSession) :
  admissible w e ->
  mapGet sid (loginSessions w) = Some s ->
  exists s', mapGet sid (loginSessions (handleEvent host e w)) = Some s'
             /\ rtc (sessionStep host) s s'.
Proof.
  intros Hadm Hs.
  destruct (handleEvent_loginSessions host e w)
    as [->|[(k & f & Hf & _ & ->)|(uuid & -> & _ & ->)]].
  - by exists s.
  - rewrite mapGet_mapMutate, Hs. case_decide; simpl.
    + exists (f s). split; [done|]. by apply rtc_once.
    + by exists s.
  - rewrite mapGet_mapSet. simpl in Hadm. case_decide; [congruence|by exists s].
Qed.

Lemma steps_session (w w' : World) (es : list Event)
    (sid : string) (s : CodexLoginSession) :
  steps host w es w' ->
  mapGet sid (loginSessions w) = Some s ->
  exists s', mapGet sid (loginSessions w') = Some s'
             /\ rtc (sessionStep host) s s'.
Proof.
  intros Hsteps. revert s. induction Hsteps as [w|w e es w' Hadm _ IH]; intros s Hs.
  - by exists s.
  - destruct (handleEvent_session e w sid s Hadm Hs) as (s1 & Hs1 & Hrtc1).
    destruct (IH s1 Hs1) as (s' & Hs' & Hrtc2).
    exists s'. split; [done|]. by etrans.
Qed.

Lemma rtc_sessionStep_output (s s' : CodexLoginSession) :
  rtc (sessionStep host) s s' ->
  Login.id s' = Login.id s
  /\ exists suffix, Login.output s' = Login.output s +:+ suffix.
Proof.
  induction 1 as [s|s s1 s2 H1 _ [IHid (suf2 & IH)]].
  - split; [done|]. exists "". by rewrite append_empty_r.
  - destruct (sessionStep_output _ _ H1) as (suf1 & Ho).
    split; [by rewrite IHid, (sessionStep_id _ _ H1)|].
    exists (suf1 +:+ suf2). by rewrite IH, Ho, append_assoc.
Qed.

End OutputProperties.

(** C5. The output of a login session only grows. Appending a chunk extends
    [session.output] by the stripped chunk, so the old output is a prefix of
    the new one; and when [getLoginSession] answers for a session id, every
    later poll for that id answers too, for the same session, with an output
    of which the earlier output is a prefix. *)
Theorem login_output_monotone (host : Host) :
  (forall (s : CodexLoginSession) (chunk : string),
     Login.output (appendLoginOutput host s chunk)
       = Login.output s +:+ stripAnsi chunk
     /\ String.prefix (Login.output s)
          (Login.output (appendLoginOutput host s chunk)) = true)
  /\ (forall (w w' : World) (es : list Event) (sid : string)
             (r : LoginSessionResponse),
        steps host w es w' ->
        getLoginSession sid w = Return r ->
        exists r' suffix,
          getLoginSession sid w' = Return r'
          /\ r_sessionId r' = r_sessionId r
          /\ r_output r' = r_output r +:+ suffix
          /\ String.prefix (r_output r) (r_output r') = true).
Proof.
  split.
  - intros s chunk. rewrite appendLoginOutput_output.
    split; [done | apply prefix_append].
  - intros w w' es sid r Hsteps Hr. unfold getLoginSession in *.
    destruct (mapGet sid (loginSessions w)) as [s|] eqn:Hs; [|done].
    injection Hr as <-.
    destruct (steps_session host w w' es sid s Hsteps Hs) as (s' & -> & Hrtc).
    destruct (rtc_sessionStep_output host s s' Hrtc) as (Hid & suffix & Hout).
    exists (toLoginSessionResponse s'), suffix. simpl.
    rewrite Hout. split; [done|]. split; [done|]. split; [done|].
    apply prefix_append.
Qed.

(** ** ANSI sequences in the output *)

(** The CSI sequence [ESC [ 3 1 m] arrives in two chunks, [ESC [ 3] and
    [1 m r e d]: neither chunk holds a whole sequence, nothing is stripped,
    and the output holds the sequence. *)
Lemma outputAnsiFree_counterexample : ~ outputAnsiFree exampleHost.
Proof.
  intros H.
  pose (es := [StartLogin "login-1";
               ChildData "login-1" (String ESC "[3");
               ChildData "login-1" "1mred"]).
  pose (w := fold_left (fun w e => handleEvent exampleHost e w) es initial).
  specialize (H w "login-1"
    {| r_sessionId := "login-1"; r_state := running; r_url := None;
       r_output := String ESC "[31mred"; r_error := None; r_exitCode := None |}).
  assert (Hw : reachable exampleHost w).
  { exists es. repeat (apply steps_cons; [done|]). apply steps_nil. }
  specialize (H Hw eq_refl). vm_compute in H. discriminate.
Qed.

(** Stripping one chunk can itself leave a sequence behind: deleting the
    inner [ESC [ m] of [ESC [ ESC [ m m] leaves [ESC [ m]. *)
Example stripAnsi_leaves_sequence :
  stripAnsi (String ESC ("[" +:+ String ESC "[mm")) = String ESC "[m"
  /\ containsAnsi (String ESC "[m") = true.
Proof. split; reflexivity. Qed.

Lemma foldl_appendLoginOutput_output (host : Host)
    (chunks : list string) (s : CodexLoginSession) :
  Login.output (foldl (appendLoginOutput host) s chunks)
  = Login.output s +:+ String.concat "" (map stripAnsi chunks).
Proof.
  revert s. induction chunks as [|c chunks IH]; intros s; simpl.
  - by rewrite append_empty_r.
  - rewrite IH, appendLoginOutput_output, append_assoc. f_equal.
    destruct (map stripAnsi chunks) eqn:Hm; simpl; [by rewrite append_empty_r|].
    done.
Qed.

(** C6, as the code has it. The state of a login session is one of running, success,
    error and cancelled. Every chunk goes through [stripAnsi] before it is
    appended, so the output is the old output followed by the stripped
    chunks in order; stripping only deletes characters of the chunk, and a
    chunk in which neither regex matches is appended as it is. *)
Theorem login_output_stripped (host : Host) :
  (forall s : CodexLoginSession,
     Login.state s = running \/ Login.state s = success
     \/ Login.state s = error \/ Login.state s = cancelled)
  /\ (forall (s : CodexLoginSession) (chunk : string),
        Login.output (appendLoginOutput host s chunk)
        = Login.output s +:+ stripAnsi chunk)
  /\ (forall (s : CodexLoginSession) (chunks : list string),
        Login.output (foldl (appendLoginOutput host) s chunks)
        = Login.output s +:+ String.concat "" (map stripAnsi chunks))
  /\ (forall chunk : string,
        stripAnsi chunk
        = removeAll ANSI_ESCAPE_REGEX (removeAll ANSI_OSC_REGEX chunk)
        /\ sublist (list_ascii_of_string (stripAnsi chunk))
                   (list_ascii_of_string chunk))
  /\ (forall chunk : string,
        containsAnsi chunk = false -> stripAnsi chunk = chunk).
Proof.
  split; [|split; [|split; [|split]]].
  - intros s. destruct (Login.state s); tauto.
  - apply appendLoginOutput_output.
  - intros s chunks. apply foldl_appendLoginOutput_output.
  - intros chunk. split; [done | apply stripAnsi_sublist].
  - apply stripAnsi_no_match.
Qed.

(** ** One login at a time *)

Lemma isActiveLogin_iff (s : CodexLoginSession) :
  isActiveLogin s = true
  <-> Login.state s = running
      /\ exists child, Login.process s = Some child /\ killed child = false.
Proof.
  unfold isActiveLogin. split.
  - destruct (Login.state s), (Login.process s) as [c|]; try done.
    intros H%negb_true_iff. eauto.
  - intros (-> & c & -> & ->). done.
Qed.

Lemma activeCount_elem_of (sessions : list (string * CodexLoginSession))
    (k : string) (s : CodexLoginSession) :
  (k, s) ∈ sessions -> isActiveLogin s = true -> 1 <= activeCount sessions.
Proof.
  induction sessions as [|[k0 s0] l IH]; intros Hin Ha; [by inversion Hin|].
  simpl. apply elem_of_cons in Hin as [[= <- <-]|Hin].
  - rewrite Ha. lia.
  - specialize (IH Hin Ha). lia.
Qed.

Lemma firstActiveLogin_unique (sessions : list (string * CodexLoginSession))
    (k : string) (s : CodexLoginSession) :
  activeCount sessions <= 1 ->
  (k, s) ∈ sessions -> isActiveLogin s = true ->
  firstActiveLogin sessions = Some s.
Proof.
  induction sessions as [|[k0 s0] l IH]; intros Hc Hin Ha; [by inversion Hin|].
  simpl in *. apply elem_of_cons in Hin as [[= <- <-]|Hin].
  - by rewrite Ha.
  - pose proof (activeCount_elem_of l k s Hin Ha).
    destruct (isActiveLogin s0); [lia|]. apply IH; [lia|done..].
Qed.

Lemma sessionStep_active (host : Host) (s s' : CodexLoginSession) :
  sessionStep host s s' -> isActiveLogin s' = true -> isActiveLogin s = true.
Proof.
  intros [s0 chunk|s0 m|s0 code|s0|s0|s0 m']; unfold isActiveLogin; try done.
  - by destruct (appendLoginOutput_state host s0 chunk) as (-> & -> & _).
  - unfold onChildClose. destruct (Login.state s0); try done; by case_decide.
Qed.

Lemma steps_invariant (host : Host) (P : World -> Prop) :
  (forall w e, P w -> P (handleEvent host e w)) ->
  forall w es w', steps host w es w' -> P w -> P w'.
Proof. intros Hstep w es w'. induction 1; eauto. Qed.

Lemma reachable_activeCount (host : Host) (w : World) :
  reachable host w -> activeCount (loginSessions w) <= 1.
Proof.
  intros [es Hsteps].
  apply (steps_invariant host (fun w => activeCount (loginSessions w) <= 1))
    with (w := initial) (es := es); [|done|simpl; lia].
  clear. intros w e Hw.
  destruct (handleEvent_loginSessions host e w)
    as [->|[(k & f & Hf & _ & ->)|(uuid & -> & Hnone & ->)]]; [done| |].
  - etrans; [apply activeCount_mapMutate|done].
    intros s. apply (sessionStep_active host), Hf.
  - apply firstActiveLogin_None in Hnone.
    etrans; [apply activeCount_mapSet|]. lia.
Qed.

(** C7. A session is active when its state is running and it has a process
    that is not killed. With an active session in the registry, [startLogin]
    spawns nothing, leaves the world as it is and answers with the snapshot
    of that session; in a reachable registry at most one session is active.
    Without an active session it stores a new running session under the
    new id once the bundled CLI is found, and spawns the CLI; so a session is
    created only when no session is active. *)
Theorem startLogin_single_active (host : Host) (uuid : string) (w : World) :
  (forall s, isActiveLogin s = true
     <-> Login.state s = running
         /\ exists child, Login.process s = Some child /\ killed child = false)
  /\ (forall k s, (k, s) ∈ loginSessions w -> isActiveLogin s = true ->
        exists s', isActiveLogin s' = true
          /\ (exists k', (k', s') ∈ loginSessions w)
          /\ startLogin host uuid w = (w, Return (toLoginSessionResponse s')))
  /\ (reachable host w ->
        activeCount (loginSessions w) <= 1
        /\ forall k s, (k, s) ∈ loginSessions w -> isActiveLogin s = true ->
             startLogin host uuid w = (w, Return (toLoginSessionResponse s)))
  /\ ((forall k s, (k, s) ∈ loginSessions w -> isActiveLogin s = false) ->
        match resolveBundledCodexCliPath host with
        | Return codexCliPath =>
            let '(w', r) := startLogin host uuid w in
            r = Return {| r_sessionId := uuid; r_state := running; r_url := None;
                          r_output := ""; r_error := None; r_exitCode := None |}
            /\ loginSessions w'
               = mapSet uuid (newLoginSession uuid (next w)) (loginSessions w)
            /\ effects w' = effects w ++ [Spawn (next w) codexCliPath ["login"]]
        | Throw m => startLogin host uuid w = (w, Throw m)
        end)
  /\ ((startLogin host uuid w).1 <> w ->
        forall k s, (k, s) ∈ loginSessions w -> isActiveLogin s = false).
Proof.
  assert (Hactive : forall k s, (k, s) ∈ loginSessions w -> isActiveLogin s = true ->
            exists s', getActiveLoginSession w = Some s').
  { intros k s. apply firstActiveLogin_complete. }
  split; [apply isActiveLogin_iff|]. split; [|split; [|split]].
  - intros k s Hin Ha. destruct (Hactive k s Hin Ha) as [s' Hs'].
    exists s'. destruct (firstActiveLogin_Some _ _ Hs') as [? ?].
    split; [done|]. split; [done|]. unfold startLogin. by rewrite Hs'.
  - intros Hreach. pose proof (reachable_activeCount host w Hreach) as Hc.
    split; [done|]. intros k s Hin Ha. unfold startLogin, getActiveLoginSession.
    by rewrite (firstActiveLogin_unique _ k s Hc Hin Ha).
  - intros Hnone. assert (Hget : getActiveLoginSession w = None).
    { destruct (getActiveLoginSession w) as [s|] eqn:Hs; [|done].
      destruct (firstActiveLogin_Some _ _ Hs) as [Ha [k Hin]].
      rewrite (Hnone k s Hin) in Ha. done. }
    unfold startLogin. rewrite Hget.
    by destruct (resolveBundledCodexCliPath host).
  - intros Hchanged k s Hin. destruct (isActiveLogin s) eqn:Ha; [|done].
    destruct (Hactive k s Hin Ha) as [s' Hs'].
    exfalso. apply Hchanged. unfold startLogin. by rewrite Hs'.
Qed.

(** C7, first sentence: at most one login CLI process runs at a time. It
    does not hold. A login is started and cancelled: the session is marked
    cancelled and SIGTERM is sent to its child, which has not closed. The
    session no longer passes the test of [getActiveLoginSession], so the
    next [startLogin] spawns a second CLI: two login children have not
    closed. *)
Lemma oneLoginProcess_counterexample : ~ oneLoginProcess exampleHost.
Proof.
  intros H.
  pose (es := [StartLogin "login-1"; CancelLogin "login-1" killSent;
               StartLogin "login-2"]).
  pose (w := fold_left (fun w e => handleEvent exampleHost e w) es initial).
  assert (Hw : reachable exampleHost w).
  { exists es. repeat (apply steps_cons; [done|]). apply steps_nil. }
  specialize (H w Hw). vm_compute in H. lia.
Qed.

(** The calls made along that sequence of events, whatever [kill] did: the
    second spawn follows the signal, and no close event lies between. *)
Example second_login_child (kill : KillResult) :
  let es := [StartLogin "login-1"; CancelLogin "login-1" kill;
             StartLogin "login-2"] in
  let w := fold_left (fun w e => handleEvent exampleHost e w) es initial in
  effects w
  = [Spawn 0 "/opt/app/resources/bin/linux-x64/codex" ["login"];
     Kill 0 "SIGTERM";
     Spawn 1 "/opt/app/resources/bin/linux-x64/codex" ["login"]]
  /\ openChildren w = ["login-1"; "login-2"]
  /\ activeCount (loginSessions w) = 1.
Proof. destruct kill; repeat split; vm_compute; reflexivity. Qed.

(** ** Cancelled logins *)

(** The close listener leaves a cancelled state alone and records the exit
    code. *)
Lemma onChildClose_cancelled (code : option Z) (s : CodexLoginSession) :
  Login.state s = cancelled ->
  Login.state (onChildClose code s) = cancelled
  /\ Login.exitCode (onChildClose code s) = code
  /\ Login.error (onChildClose code s) = Login.error s.
Proof. intros H. unfold onChildClose. by rewrite H. Qed.

Lemma markCancelled_state (s : CodexLoginSession) :
  Login.state (markCancelled s) = cancelled
  /\ Login.error (markCancelled s) = None.
Proof. done. Qed.

(** The error listener has no such test. *)
Lemma onChildError_state (message : string) (s : CodexLoginSession) :
  Login.state (onChildError message s) = error.
Proof. done. Qed.

(** Without an ["error"] event of its child, a cancelled session stays
    cancelled: output, close events (whatever the exit code) and further
    cancels leave the state alone. The child emits ["error"] when it cannot
    be spawned and when [kill] fails. *)
Lemma cancelled_stays_without_error (host : Host) (w w' : World)
    (es : list Event) (sid : string) (s : CodexLoginSession) :
  steps host w es w' ->
  (forall m, ChildError sid m ∉ es) ->
  (forall m, CancelLogin sid (killFailed m) ∉ es) ->
  mapGet sid (loginSessions w) = Some s ->
  Login.state s = cancelled ->
  exists s', mapGet sid (loginSessions w') = Some s'
             /\ Login.state s' = cancelled.
Proof.
  intros Hsteps. revert s.
  induction Hsteps as [w|w e es w' Hadm _ IH]; intros s Hes Hes2 Hs Hc.
  - by exists s.
  - assert (Hne : forall m, e <> ChildError sid m).
    { intros m ->. apply (Hes m). by left. }
    assert (Hne2 : forall m, e <> CancelLogin sid (killFailed m)).
    { intros m ->. apply (Hes2 m). by left. }
    assert (Hes' : forall m, ChildError sid m ∉ es).
    { intros m Hin. apply (Hes m). by right. }
    assert (Hes2' : forall m, CancelLogin sid (killFailed m) ∉ es).
    { intros m Hin. apply (Hes2 m). by right. }
    destruct (handleEvent_loginSessions host e w)
      as [Heq|[(k & f & _ & Hf & Heq)|(uuid & -> & _ & Heq)]].
    + apply (IH s Hes' Hes2'); [by rewrite Heq | done].
    + destruct (decide (sid = k)) as [<-|Hk].
      * apply (IH (f s) Hes' Hes2'); [|by apply Hf].
        by rewrite Heq, mapGet_mapMutate, decide_True, Hs.
      * apply (IH s Hes' Hes2'); [|done].
        by rewrite Heq, mapGet_mapMutate, decide_False.
    + apply (IH s Hes' Hes2'); [|done]. simpl in Hadm.
      rewrite Heq, mapGet_mapSet. rewrite decide_False; [done|congruence].
Qed.

(** C8 (the code at the failing input). A login is started and cancelled;
    [kill] cannot deliver the signal, and the child emits ["error"] inside
    the call. [cancelLogin] has marked the session cancelled by then; the
    error listener, which does not look at the state, sets it to error, so
    the answer of [cancelLogin] and the poll after it report error. When the
    signal is sent, the poll after [cancelLogin] reports cancelled, and a
    close event with exit code 0 leaves the state cancelled. *)
Theorem cancelled_login_overwritten_by_error :
  let w1 := handleEvent exampleHost (StartLogin "login-1") initial in
  let w2 :=
    handleEvent exampleHost (CancelLogin "login-1" (killFailed "kill EPERM")) w1 in
  let w2' := handleEvent exampleHost (CancelLogin "login-1" killSent) w1 in
  let w3' := handleEvent exampleHost (ChildClose "login-1" (Some 0%Z)) w2' in
  let failed :=
    {| r_sessionId := "login-1"; r_state := error; r_url := None;
       r_output := "";
       r_error := Some "[codex] Failed to start login flow: kill EPERM";
       r_exitCode := None |} in
  (cancelLogin "login-1" (killFailed "kill EPERM") w1).2
  = Return {| cl_success := true; cl_found := true; cl_session := Some failed |}
  /\ mapGet "login-1" (loginSessions w2)
     = onChildError "kill EPERM"
         <$> (markCancelled <$> mapGet "login-1" (loginSessions w1))
  /\ getLoginSession "login-1" w2 = Return failed
  /\ getLoginSession "login-1" w2'
     = Return {| r_sessionId := "login-1"; r_state := cancelled; r_url := None;
                 r_output := ""; r_error := None; r_exitCode := None |}
  /\ getLoginSession "login-1" w3'
     = Return {| r_sessionId := "login-1"; r_state := cancelled; r_url := None;
                 r_output := ""; r_error := None; r_exitCode := Some 0%Z |}.
Proof. repeat split; vm_compute; reflexivity. Qed.

(** ** The login URL *)

Lemma slice_split (n : nat) (s : string) : exists q, s = q +:+ slice n s.
Proof.
  revert s. induction n as [|n IH]; intros s; [by exists ""|].
  destruct s as [|c s]; [by exists ""|].
  destruct (IH s) as [q Hq]. exists (String c q).
  rewrite append_cons. simpl. by rewrite <- Hq.
Qed.

Lemma endsWith_iff (s p : string) :
  endsWith s p = true <-> exists q, s = q +:+ p.
Proof.
  unfold endsWith. rewrite andb_true_iff, String.eqb_eq. split.
  - intros [_ H]. destruct (slice_split (String.length s - String.length p) s) as [q Hq].
    exists q. by rewrite <- H.
  - intros [q ->]. rewrite length_append. split; [apply Nat.leb_le; lia|].
    replace (String.length q + String.length p - String.length p)
      with (String.length q) by lia.
    apply slice_append.
Qed.

Lemma isLocalhostHostname_iff (h : string) :
  isLocalhostHostname h = true
  <-> let normalized := toLowerCase (trim h) in
      normalized = "localhost" \/ normalized = "127.0.0.1"
      \/ normalized = "::1" \/ normalized = "[::1]"
      \/ exists q, normalized = q +:+ ".localhost".
Proof.
  unfold isLocalhostHostname. cbv zeta.
  rewrite !orb_true_iff, !String.eqb_eq, endsWith_iff. tauto.
Qed.

Section UrlProperties.

Context (host : Host).

Lemma firstNonLocalhostUrl_iff (matches : list string) (u : string) :
  firstNonLocalhostUrl host matches = Some u
  <-> exists before m after parsedUrl,
        matches = before ++ m :: after
        /\ Forall (passedOver host) before
        /\ URL_parse host (candidateText m) = Some parsedUrl
        /\ isLocalhostHostname (hostname parsedUrl) = false
        /\ u = href parsedUrl.
Proof.
  induction matches as [|m0 l IH]; simpl.
  { split; [done|]. intros (b & ? & ? & ? & H & _). by destruct b. }
  fold (candidateText m0).
  assert (Hskip : passedOver host m0 ->
    (firstNonLocalhostUrl host l = Some u
     <-> exists before m after parsedUrl,
           m0 :: l = before ++ m :: after
           /\ Forall (passedOver host) before
           /\ URL_parse host (candidateText m) = Some parsedUrl
           /\ isLocalhostHostname (hostname parsedUrl) = false
           /\ u = href parsedUrl)).
  { intros Hm0. rewrite IH. split.
    - intros (b & m & a & p & -> & Hb & Hrest).
      exists (m0 :: b), m, a, p. split; [done|]. split; [|done].
      by constructor.
    - intros (b & m & a & p & Heq & Hb & Hp & Hl & ->).
      destruct b as [|b0 b]; simpl in Heq; injection Heq as ? ?; subst.
      + unfold passedOver in Hm0. rewrite Hp in Hm0. congruence.
      + inversion Hb; subst. by exists b, m, a, p. }
  unfold passedOver in Hskip at 1.
  destruct (URL_parse host (candidateText m0)) as [p0|] eqn:Hp0; [|by apply Hskip].
  destruct (isLocalhostHostname (hostname p0)) eqn:Hl0; simpl; [by apply Hskip|].
  clear Hskip. split.
  - intros [= <-]. by exists [], m0, l, p0.
  - intros (b & m & a & p & Heq & Hb & Hp & Hl & ->).
    destruct b as [|b0 b]; simpl in Heq; injection Heq as ? ?; subst.
    + congruence.
    + inversion Hb as [|? ? Hb0 ?]; subst.
      unfold passedOver in Hb0. rewrite Hp0 in Hb0. congruence.
Qed.

(** The serialization of a URL is never the empty string. *)
Hypothesis href_not_empty :
  forall (s : string) (parsedUrl : URL),
    URL_parse host s = Some parsedUrl -> href parsedUrl <> "".

Lemma extractFirstNonLocalhostUrl_not_empty (out u : string) :
  extractFirstNonLocalhostUrl host out = Some u -> u <> "".
Proof.
  unfold extractFirstNonLocalhostUrl. rewrite firstNonLocalhostUrl_iff.
  intros (? & ? & ? & p & _ & _ & Hp & _ & ->). by eapply href_not_empty.
Qed.

Lemma appendLoginOutput_url (s : CodexLoginSession) (chunk : string) :
  urlScanned host s ->
  match Login.url s with
  | None =>
      Login.url (appendLoginOutput host s chunk)
      = extractFirstNonLocalhostUrl host
          (Login.output (appendLoginOutput host s chunk))
  | Some u => Login.url (appendLoginOutput host s chunk) = Some u
  end.
Proof.
  unfold urlScanned, appendLoginOutput, hasUrl.
  destruct (Login.url s) as [u|] eqn:Hu.
  - intros Hne. apply truthy_iff in Hne. rewrite Hne.
    destruct (negb (truthy (stripAnsi chunk))); simpl; done.
  - intros Hscan. destruct (negb (truthy (stripAnsi chunk))); simpl; [|done].
    by rewrite Hu, Hscan.
Qed.

Lemma sessionStep_urlScanned (s s' : CodexLoginSession) :
  sessionStep host s s' -> urlScanned host s -> urlScanned host s'.
Proof.
  intros [s0 chunk|s0 m|s0 code|s0|s0|s0 m'] Hs; try done.
  - pose proof (appendLoginOutput_url s0 chunk Hs) as H.
    unfold urlScanned in *. destruct (Login.url s0) as [u|].
    + by rewrite H.
    + rewrite H.
      destruct (extractFirstNonLocalhostUrl host
                  (Login.output (appendLoginOutput host s0 chunk)))
        as [u|] eqn:He; [|done].
      by eapply extractFirstNonLocalhostUrl_not_empty.
  - unfold urlScanned, onChildClose in *.
    destruct (Login.state s0); try done; by case_decide.
Qed.

Lemma sessionStep_url (s s' : CodexLoginSession) (u : string) :
  sessionStep host s s' -> urlScanned host s ->
  Login.url s = Some u -> Login.url s' = Some u.
Proof.
  intros [s0 chunk|s0 m|s0 code|s0|s0|s0 m'] Hs Hu; try done.
  - pose proof (appendLoginOutput_url s0 chunk Hs) as H. by rewrite Hu in H.
  - unfold onChildClose. destruct (Login.state s0); try done; by case_decide.
Qed.

Lemma rtc_sessionStep_url (s s' : CodexLoginSession) (u : string) :
  rtc (sessionStep host) s s' -> urlScanned host s ->
  Login.url s = Some u -> Login.url s' = Some u.
Proof.
  induction 1 as [|s s1 s2 H1 _ IH]; [done|]. intros Hs Hu.
  apply IH; [by eapply sessionStep_urlScanned | by eapply sessionStep_url].
Qed.

Lemma handleEvent_allUrlScanned (w : World) (e : Event) :
  allUrlScanned host w -> allUrlScanned host (handleEvent host e w).
Proof.
  intros Hw sid s'.
  destruct (handleEvent_loginSessions host e w)
    as [->|[(k & f & Hf & _ & ->)|(uuid & -> & _ & ->)]]; [apply Hw| |].
  - rewrite mapGet_mapMutate. case_decide; [|apply Hw].
    destruct (mapGet sid (loginSessions w)) as [s|] eqn:Hs; [|done].
    intros [= <-]. eapply sessionStep_urlScanned; [apply Hf | by eapply Hw].
  - rewrite mapGet_mapSet. case_decide; [|apply Hw].
    intros [= <-]. reflexivity.
Qed.

Lemma reachable_allUrlScanned (w : World) : reachable host w -> allUrlScanned host w.
Proof.
  intros [es Hsteps].
  apply (steps_invariant host (allUrlScanned host)) with (w := initial) (es := es);
    [|done|done].
  intros w0 e. apply handleEvent_allUrlScanned.
Qed.

End UrlProperties.

(** C4. The URL of a login session is set at most once and then stays. For a
    session of a reachable registry: while [session.url] is null, the URL
    after a chunk is the result of scanning the whole accumulated output,
    that is the serialization of the first candidate that parses to a URL
    whose host name is not a localhost name; a localhost name is, trimmed and
    in lower case, one of localhost, 127.0.0.1, ::1, [::1], or a name that
    ends in [.localhost]. Once [session.url] is not null, no chunk and no
    later event changes it. *)
Theorem login_url_sticky (host : Host) :
  (forall (s : string) (parsedUrl : URL),
     URL_parse host s = Some parsedUrl -> href parsedUrl <> "") ->
  forall (w : World) (sid : string) (s : CodexLoginSession),
    reachable host w ->
    mapGet sid (loginSessions w) = Some s ->
    (forall chunk : string,
       match Login.url s with
       | None =>
           Login.url (appendLoginOutput host s chunk)
           = extractFirstNonLocalhostUrl host
               (Login.output (appendLoginOutput host s chunk))
       | Some u => Login.url (appendLoginOutput host s chunk) = Some u
       end)
    /\ (forall (u : string) (es : list Event) (w' : World),
          Login.url s = Some u -> steps host w es w' ->
          exists s', mapGet sid (loginSessions w') = Some s'
                     /\ Login.url s' = Some u)
    /\ (forall out u : string,
          extractFirstNonLocalhostUrl host out = Some u
          <-> exists before m after parsedUrl,
                matchAll URL_CANDIDATE_REGEX (stripAnsi out) = before ++ m :: after
                /\ Forall (passedOver host) before
                /\ URL_parse host (candidateText m) = Some parsedUrl
                /\ isLocalhostHostname (hostname parsedUrl) = false
                /\ u = href parsedUrl)
    /\ (forall h : string,
          isLocalhostHostname h = true
          <-> let normalized := toLowerCase (trim h) in
              normalized = "localhost" \/ normalized = "127.0.0.1"
              \/ normalized = "::1" \/ normalized = "[::1]"
              \/ exists q, normalized = q +:+ ".localhost").
Proof.
  intros Hhref w sid s Hreach Hs.
  pose proof (reachable_allUrlScanned host Hhref w Hreach sid s Hs) as Hscan.
  split; [|split; [|split]].
  - intros chunk. by apply appendLoginOutput_url.
  - intros u es w' Hu Hsteps.
    destruct (steps_session host w w' es sid s Hsteps Hs) as (s' & Hs' & Hrtc).
    exists s'. split; [done|]. by eapply rtc_sessionStep_url.
  - intros out u. apply firstNonLocalhostUrl_iff.
  - apply isLocalhostHostname_iff.
Qed.

(** * The theorems at concrete inputs *)

Lemma exampleHost_href (s : string) (parsedUrl : URL) :
  URL_parse exampleHost s = Some parsedUrl -> href parsedUrl <> "".
Proof.
  simpl. destruct (String.prefix "https://" s) eqn:H1.
  - intros [= <-]. simpl. intros ->. done.
  - destruct (String.prefix "http://" s) eqn:H2; [|done].
    intros [= <-]. simpl. intros ->. done.
Qed.

(** Run 1 is superseded by run 2 on the same sub-chat: the finally block of
    run 1 leaves the registration of run 2, that of run 2 removes it. *)
Lemma chat_single_active_stream_witness :
  let w1 := (chatStart "sub-1" "run-1" initial).1 in
  let w2 := (chatStart "sub-1" "run-2" w1).1 in
  activeStreams (chatFinally "sub-1" "run-1" w2) !! "sub-1"
    = Some {| runId := "run-2"; controller := 1 |}
  /\ activeStreams (chatFinally "sub-1" "run-2" w2)
     = delete "sub-1" (activeStreams w2).
Proof.
  intros w1 w2.
  destruct (chat_single_active_stream "sub-1" "run-1" w1) as (_ & _ & _ & Hsucc).
  destruct (chat_single_active_stream "sub-1" "run-2" w2) as (_ & Hown & _ & _).
  split.
  - assert (Hne : "run-2" <> "run-1") by discriminate.
    destruct (Hsucc "run-2" Hne) as [H _]. exact H.
  - destruct (Hown {| runId := "run-2"; controller := 1 |}) as [H _];
      [reflexivity | reflexivity | exact H].
Defined.

(** A cancel for run 1 after run 2 has taken over is ignored as stale. *)
Lemma cancel_spec_witness :
  let w := (chatStart "sub-1" "run-2" initial).1 in
  cancel "sub-1" "run-1" w = (w, {| cancelled_ := false; ignoredStale := true |}).
Proof.
  intros w.
  destruct (cancel_spec "sub-1" "run-1" w) as (_ & Hstale & _).
  apply (Hstale {| runId := "run-2"; controller := 0 |}); [reflexivity | discriminate].
Defined.

(** The working directory of a cached session changes: the provider is
    cleaned up and a new one is stored. *)
Lemma getOrCreateProvider_spec_witness :
  let w := (getOrCreateProvider exampleHost "sub-1" "/repo/a" None None initial).1 in
  exists p,
    (getOrCreateProvider exampleHost "sub-1" "/repo/b" None
       (Some {| apiKey := " sk-1 " |}) w).2 = Return p
    /\ handle p = 1.
Proof.
  intros w.
  set (existing :=
    {| provider :=
         {| handle := 0;
            settings :=
              {| command :=
                   "/node_modules/@zed-industries/codex-acp-linux-x64/bin/codex-acp";
                 env := process_env exampleHost;
                 authMethodId := None;
                 session_cwd := "/repo/a";
                 existingSessionId := None;
                 persistSession := true |} |};
       cwd := "/repo/a";
       authFingerprint := None |}).
  assert (Hex : providerSessions w !! "sub-1" = Some existing) by reflexivity.
  pose proof (getOrCreateProvider_spec exampleHost "sub-1" "/repo/b" None
                (Some {| apiKey := " sk-1 " |}) w existing Hex) as H.
  cbv zeta in H.
  destruct (getOrCreateProvider exampleHost "sub-1" "/repo/b" None
              (Some {| apiKey := " sk-1 " |}) w) as [w' r].
  destruct H as [_ H]. destruct H as [_ H].
  - intros [Hcwd _]. discriminate Hcwd.
  - destruct (H _ eq_refl) as (p & -> & Hh & _). exists p. split; [reflexivity|].
    exact Hh.
Defined.

(** A login prints its URL, then another one: the first one stays. *)
Lemma login_url_sticky_witness :
  let w := handleEvent exampleHost
             (ChildData "login-1" "Open https://auth.openai.com/device.")
             (handleEvent exampleHost (StartLogin "login-1") initial) in
  let w' := handleEvent exampleHost
              (ChildData "login-1" " Docs: https://platform.openai.com/docs") w in
  exists s', mapGet "login-1" (loginSessions w') = Some s'
             /\ Login.url s' = Some "https://auth.openai.com/device".
Proof.
  intros w w'.
  assert (Hreach : reachable exampleHost w).
  { exists [StartLogin "login-1";
            ChildData "login-1" "Open https://auth.openai.com/device."].
    repeat (apply steps_cons; [done|]). apply steps_nil. }
  destruct (mapGet "login-1" (loginSessions w)) as [s|] eqn:Hs;
    [|discriminate Hs].
  destruct (login_url_sticky exampleHost exampleHost_href w "login-1" s Hreach Hs)
    as (_ & Hsticky & _).
  apply (Hsticky "https://auth.openai.com/device"
           [ChildData "login-1" " Docs: https://platform.openai.com/docs"] w').
  - vm_compute in Hs. injection Hs as <-. reflexivity.
  - apply steps_cons; [done|]. apply steps_nil.
Defined.

(** Two polls of a login with a chunk of output between them. *)
Lemma login_output_monotone_witness :
  let w := handleEvent exampleHost (ChildData "login-1" "Open ")
             (handleEvent exampleHost (StartLogin "login-1") initial) in
  let w' := handleEvent exampleHost
              (ChildData "login-1" "https://auth.openai.com/device") w in
  exists r' suffix,
    getLoginSession "login-1" w' = Return r'
    /\ r_output r' = "Open " +:+ suffix.
Proof.
  intros w w'.
  destruct (login_output_monotone exampleHost) as [_ H].
  destruct (H w w' [ChildData "login-1" "https://auth.openai.com/device"]
              "login-1"
              {| r_sessionId := "login-1"; r_state := running; r_url := None;
                 r_output := "Open "; r_error := None; r_exitCode := None |})
    as (r' & suffix & Hr' & _ & Hout & _).
  - apply steps_cons; [done|]. apply steps_nil.
  - reflexivity.
  - exists r', suffix. split; [exact Hr' | exact Hout].
Defined.

(** A chunk without escape sequences is appended as it is. *)
Lemma login_output_stripped_witness :
  stripAnsi "Starting local login server" = "Starting local login server".
Proof.
  destruct (login_output_stripped exampleHost) as (_ & _ & _ & _ & H).
  apply H. reflexivity.
Defined.

(** A second [startLogin] while the first login runs answers with the first
    session and spawns nothing. *)
Lemma startLogin_single_active_witness :
  let w := handleEvent exampleHost (StartLogin "login-1") initial in
  startLogin exampleHost "login-2" w
  = (w, Return {| r_sessionId := "login-1"; r_state := running; r_url := None;
                  r_output := ""; r_error := None; r_exitCode := None |}).
Proof.
  intros w.
  destruct (startLogin_single_active exampleHost "login-2" w)
    as (_ & _ & H & _).
  destruct H as [_ H].
  - exists [StartLogin "login-1"]. apply steps_cons; [done|]. apply steps_nil.
  - apply (H "login-1" (newLoginSession "login-1" 0)); [|reflexivity].
    apply list_elem_of_here.
Defined.

(** * Further properties *)

(** ** Providers are created once and never used after cleanup *)

Lemma providersSound_frame (w w' : World) :
  providerSessions w' = providerSessions w ->
  next w' = next w ->
  effects w' = effects w ->
  providersSound w -> providersSound w'.
Proof. unfold providersSound. intros -> -> ->. done. Qed.

Lemma providersSound_emit (e : Effect) (w : World) :
  (forall h, e <> Cleanup h) ->
  providersSound w -> providersSound (emit e w).
Proof.
  intros He (H1 & H2 & H3). split; [|split]; simpl.
  - intros sid s Hs. destruct (H1 sid s Hs) as (? & Hn & ?).
    split; [done|]. split; [|done].
    rewrite elem_of_app, list_elem_of_singleton. intros [?|Heq]; [done|].
    by destruct (He (handle (provider s))).
  - exact H2.
  - intros h. rewrite elem_of_app, list_elem_of_singleton.
    intros [?|Heq]; [by apply H3|]. by destruct (He h).
Qed.

Lemma providersSound_fresh (w : World) :
  providersSound w -> providersSound (fresh w).2.
Proof.
  intros (H1 & H2 & H3). split; [|split]; simpl.
  - intros sid s Hs. destruct (H1 sid s Hs) as (? & ? & ?). split; [lia|done].
  - exact H2.
  - intros h Hh. specialize (H3 h Hh). lia.
Qed.

Lemma providersSound_cleanupProvider (subChatId : string) (w : World) :
  providersSound w -> providersSound (cleanupProvider subChatId w).
Proof.
  intros (H1 & H2 & H3). unfold cleanupProvider.
  destruct (providerSessions w !! subChatId) as [existing|] eqn:Hex; [|done].
  split; [|split]; simpl.
  - intros sid s Hs. apply lookup_delete_Some in Hs as [Hne Hs].
    destruct (H1 sid s Hs) as (? & ? & ?). split; [done|]. split; [|done].
    rewrite elem_of_app, list_elem_of_singleton. intros [?|Heq]; [done|].
    injection Heq as Heq. by apply (H2 sid subChatId s existing).
  - intros sid1 sid2 e1 e2 Hne [_ Hs1]%lookup_delete_Some [_ Hs2]%lookup_delete_Some.
    by eapply H2.
  - intros h. rewrite elem_of_app, list_elem_of_singleton.
    intros [?|Heq]; [by apply H3|]. injection Heq as ->.
    by apply (H1 subChatId existing).
Qed.

Lemma providersSound_createProvider (host : Host)
    (subChatId cwd0 : string) (sid : option string)
    (authConfig : option AuthConfig) (w : World) :
  providersSound w ->
  providersSound (createProvider host subChatId cwd0 sid authConfig w).1.
Proof.
  intros (H1 & H2 & H3). unfold createProvider.
  destruct (resolveCodexAcpBinaryPath host) as [binaryPath|]; [|done].
  split; [|split]; simpl.
  - intros k s. rewrite lookup_insert. case_decide as Hk.
    + intros [= <-]. simpl. split; [lia|]. split; [|done].
      intros Hin. specialize (H3 _ Hin). lia.
    + intros Hs. destruct (H1 k s Hs) as (? & ? & ?). split; [lia|done].
  - intros k1 k2 e1 e2 Hne. rewrite !lookup_insert.
    repeat case_decide; subst; try done.
    + intros [= <-] Hs2. simpl. destruct (H1 k2 e2 Hs2) as (? & _). lia.
    + intros Hs1 [= <-]. simpl. destruct (H1 k1 e1 Hs1) as (? & _). lia.
    + by apply H2.
  - intros h Hh. specialize (H3 h Hh). lia.
Qed.

Lemma getOrCreateProvider_unfold (host : Host)
    (subChatId cwd0 : string) (sid : option string)
    (authConfig : option AuthConfig) (w : World) :
  getOrCreateProvider host subChatId cwd0 sid authConfig w
  = match providerSessions w !! subChatId with
    | Some existing =>
        if bool_decide (cwd existing = cwd0)
           && bool_decide (authFingerprint existing
                           = getAuthFingerprint host authConfig)
        then (w, Return (provider existing))
        else createProvider host subChatId cwd0 sid authConfig
               (cleanupProvider subChatId w)
    | None => createProvider host subChatId cwd0 sid authConfig w
    end.
Proof.
  unfold getOrCreateProvider, cleanupProvider.
  by destruct (providerSessions w !! subChatId).
Qed.

Lemma providersSound_getOrCreateProvider (host : Host)
    (subChatId cwd0 : string) (sid : option string)
    (authConfig : option AuthConfig) (w : World) :
  providersSound w ->
  providersSound (getOrCreateProvider host subChatId cwd0 sid authConfig w).1.
Proof.
  intros Hw. rewrite getOrCreateProvider_unfold.
  destruct (providerSessions w !! subChatId) as [existing|].
  - destruct (_ && _); [done|].
    by apply providersSound_createProvider, providersSound_cleanupProvider.
  - by apply providersSound_createProvider.
Qed.

Lemma providersSound_handleEvent (host : Host) (e : Event) (w : World) :
  providersSound w -> providersSound (handleEvent host e w).
Proof.
  intros Hw. destruct e; simpl.
  - unfold startLogin. destruct (getActiveLoginSession w); [done|].
    destruct (resolveBundledCodexCliPath host); [|done]. simpl.
    eapply providersSound_frame; [..|apply (providersSound_emit
      (Spawn (next w) a ["login"]) _ ltac:(done) (providersSound_fresh w Hw))];
      done.
  - destruct (mapGet sessionId (loginSessions w)) as [s|] eqn:Hs;
      [|by unfold cancelLogin; rewrite Hs].
    destruct (cancelLogin_cases sessionId kill w s Hs) as (f & l' & r & -> & _).
    simpl. unfold killCalls.
    destruct (Login.process s) as [c|]; [destruct (killed c)|].
    + eapply providersSound_frame; [..|exact Hw]; simpl;
        [done | done | by rewrite app_nil_r].
    + eapply providersSound_frame;
        [..|apply (providersSound_emit (Kill (pid c) "SIGTERM") w ltac:(done) Hw)];
        done.
    + eapply providersSound_frame; [..|exact Hw]; simpl;
        [done | done | by rewrite app_nil_r].
  - by eapply providersSound_frame; [..|exact Hw].
  - unfold childError. destruct (listeners w !! sessionId) as [l|]; [|done].
    destruct (onError l); [|done]. by eapply providersSound_frame; [..|exact Hw].
  - unfold childClose. destruct (listeners w !! sessionId) as [l|]; [|done].
    destruct (onClose l); [|done]. by eapply providersSound_frame; [..|exact Hw].
  - unfold chatStart. simpl.
    eapply providersSound_frame; [..|apply providersSound_fresh]; [done..|].
    unfold supersede. destruct (activeStreams w !! subChatId) as [s|]; [|done].
    by apply providersSound_cleanupProvider, providersSound_emit.
  - unfold chatProvider. apply providersSound_getOrCreateProvider.
    destruct forceNewSession; [|done]. by apply providersSound_cleanupProvider.
  - unfold chatFinally, releaseStream.
    destruct (activeStreams w !! subChatId) as [s|]; [|done].
    case_bool_decide; [|done]. by eapply providersSound_frame; [..|exact Hw].
  - unfold chatTeardown, releaseStream. simpl.
    pose proof (providersSound_emit (Abort abortController) w ltac:(done) Hw).
    destruct (activeStreams w !! subChatId) as [s|]; [|done].
    case_bool_decide; [|done]. by eapply providersSound_frame.
  - unfold cancel. destruct (activeStreams w !! subChatId) as [s|]; [|done].
    destruct (negb _); [done|]. simpl.
    eapply providersSound_frame;
      [..|apply providersSound_cleanupProvider, providersSound_emit; [|exact Hw]];
      done.
  - unfold cleanup.
    pose proof (providersSound_cleanupProvider subChatId w Hw) as H1.
    destruct (activeStreams (cleanupProvider subChatId w) !! subChatId) as [s|];
      [|done]. simpl.
    eapply providersSound_frame; [..|apply providersSound_emit; [|exact H1]]; done.
Qed.

Lemma reachable_providersSound (host : Host) (w : World) :
  reachable host w -> providersSound w.
Proof.
  intros [es Hsteps].
  apply (steps_invariant host providersSound) with (w := initial) (es := es);
    [|done|].
  - intros w0 e. apply providersSound_handleEvent.
  - split; [|split]; simpl.
    + intros sid e Hs. by rewrite lookup_empty in Hs.
    + intros sid1 sid2 e1 e2 _ Hs. by rewrite lookup_empty in Hs.
    + intros h Hh. by apply not_elem_of_nil in Hh.
Qed.

Lemma getOrCreateProvider_registered (host : Host)
    (subChatId cwd0 : string) (sid : option string)
    (authConfig : option AuthConfig) (w w' : World) (p : ACPProvider) :
  getOrCreateProvider host subChatId cwd0 sid authConfig w = (w', Return p) ->
  providerSessions w' !! subChatId
  = Some {| provider := p; cwd := cwd0;
            authFingerprint := getAuthFingerprint host authConfig |}.
Proof.
  rewrite getOrCreateProvider_unfold.
  assert (Hcreate : forall w0,
    createProvider host subChatId cwd0 sid authConfig w0 = (w', Return p) ->
    providerSessions w' !! subChatId
    = Some {| provider := p; cwd := cwd0;
              authFingerprint := getAuthFingerprint host authConfig |}).
  { intros w0. unfold createProvider.
    destruct (resolveCodexAcpBinaryPath host); [|done].
    intros [= <- <-]. simpl. by rewrite lookup_insert_eq. }
  destruct (providerSessions w !! subChatId) as [existing|] eqn:Hex;
    [|apply Hcreate].
  destruct (bool_decide (cwd existing = cwd0)) eqn:Hc; simpl; [|apply Hcreate].
  destruct (bool_decide (authFingerprint existing = _)) eqn:Hf; [|apply Hcreate].
  apply bool_decide_eq_true in Hc, Hf. intros [= <- <-].
  rewrite Hex. destruct existing. simpl in *. by subst.
Qed.

(** X1. The provider that [getOrCreateProvider] returns is the one that is
    registered for the sub-chat under the requested working directory and
    the fingerprint of the supplied key; it runs in that directory, its
    [cleanup()] has not been called, and no other sub-chat holds it. *)
Theorem getOrCreateProvider_returns_live_provider (host : Host)
    (subChatId cwd0 : string) (sid : option string)
    (authConfig : option AuthConfig) (w w' : World) (p : ACPProvider) :
  reachable host w ->
  getOrCreateProvider host subChatId cwd0 sid authConfig w = (w', Return p) ->
  providerSessions w' !! subChatId
    = Some {| provider := p; cwd := cwd0;
              authFingerprint := getAuthFingerprint host authConfig |}
  /\ session_cwd (settings p) = cwd0
  /\ (Cleanup (handle p) ∉ effects w')
  /\ (forall other e, other <> subChatId ->
        providerSessions w' !! other = Some e -> handle (provider e) <> handle p).
Proof.
  intros Hreach Hcall.
  pose proof (getOrCreateProvider_registered _ _ _ _ _ _ _ _ Hcall) as Hreg.
  assert (Hsound : providersSound w').
  { replace w' with (getOrCreateProvider host subChatId cwd0 sid authConfig w).1
      by (by rewrite Hcall).
    by apply providersSound_getOrCreateProvider, (reachable_providersSound host). }
  destruct Hsound as (H1 & H2 & _).
  destruct (H1 _ _ Hreg) as (_ & Hlive & Hcwd). simpl in *.
  split; [done|]. split; [done|]. split; [done|].
  intros other e Hne He. by apply (H2 other subChatId e _ Hne He Hreg).
Qed.

(** X2. A second call for the same sub-chat and working directory with a key
    of the same fingerprint (the same key, or one that differs by
    surrounding white space) changes nothing and returns the same provider,
    whatever session id it is asked to resume. *)
Theorem getOrCreateProvider_again (host : Host)
    (subChatId cwd0 : string) (sid sid' : option string)
    (authConfig authConfig' : option AuthConfig) (w w' : World) (p : ACPProvider) :
  getOrCreateProvider host subChatId cwd0 sid authConfig w = (w', Return p) ->
  getAuthFingerprint host authConfig' = getAuthFingerprint host authConfig ->
  getOrCreateProvider host subChatId cwd0 sid' authConfig' w' = (w', Return p).
Proof.
  intros Hcall Hfp.
  pose proof (getOrCreateProvider_registered _ _ _ _ _ _ _ _ Hcall) as Hreg.
  rewrite getOrCreateProvider_unfold, Hreg. simpl.
  by rewrite Hfp, !bool_decide_eq_true_2.
Qed.


(** ** Streams: cancel, cleanup and what other sub-chats see *)

(** X4. A run that is started and then cancelled with its own run id is
    unregistered with its controller aborted and no provider session left;
    after that a second cancel, the finally block of the run and its
    teardown leave the registry as it is. *)
Theorem chatStart_cancel_roundtrip (subChatId runId0 : string) (w : World) :
  let '(w1, c) := chatStart subChatId runId0 w in
  let '(w2, r) := cancel subChatId runId0 w1 in
  r = {| cancelled_ := true; ignoredStale := false |}
  /\ activeStreams w2 !! subChatId = None
  /\ providerSessions w2 !! subChatId = None
  /\ (Abort c ∈ effects w2)
  /\ cancel subChatId runId0 w2
     = (w2, {| cancelled_ := false; ignoredStale := false |})
  /\ chatFinally subChatId runId0 w2 = w2
  /\ activeStreams (chatTeardown subChatId runId0 c w2) = activeStreams w2.
Proof.
  destruct (chatStart subChatId runId0 w) as [w1 c] eqn:Hstart.
  assert (H1 : activeStreams w1 !! subChatId
               = Some {| runId := runId0; controller := c |}).
  { unfold chatStart in Hstart. simpl in Hstart. injection Hstart as <- <-.
    simpl. by rewrite lookup_insert_eq. }
  destruct (cancel subChatId runId0 w1) as [w2 r] eqn:Hcancel. cbv beta iota.
  unfold cancel in Hcancel. rewrite H1 in Hcancel. simpl in Hcancel.
  rewrite bool_decide_eq_true_2 in Hcancel by done. simpl in Hcancel.
  injection Hcancel as <- <-.
  set (w2 := withActiveStreams _ _).
  assert (H2 : activeStreams w2 !! subChatId = None).
  { unfold w2. simpl. by rewrite lookup_delete_eq. }
  split; [done|]. split; [done|]. split; [|split; [|split; [|split]]].
  - unfold w2. simpl. rewrite cleanupProvider_providerSessions.
    by rewrite lookup_delete_eq.
  - unfold w2. simpl. rewrite cleanupProvider_effects. simpl.
    rewrite !elem_of_app, list_elem_of_singleton. by left; right.
  - unfold cancel. by rewrite H2.
  - unfold chatFinally, releaseStream. by rewrite H2.
  - unfold chatTeardown, releaseStream.
    change (activeStreams (emit (Abort c) w2) !! subChatId)
      with (activeStreams w2 !! subChatId).
    by rewrite H2.
Qed.

Lemma cleanupProvider_other (subChatId other : string) (w : World) :
  other <> subChatId ->
  providerSessions (cleanupProvider subChatId w) !! other
  = providerSessions w !! other.
Proof.
  intros Hne. rewrite cleanupProvider_providerSessions.
  by rewrite lookup_delete_ne.
Qed.

Lemma cleanup_absent (subChatId : string) (w : World) :
  providerSessions w !! subChatId = None ->
  activeStreams w !! subChatId = None ->
  cleanup subChatId w = (w, true).
Proof.
  intros Hp Ha. unfold cleanup, cleanupProvider. rewrite Hp. by rewrite Ha.
Qed.

(** X5. After [cleanup(subChatId)] neither registry has an entry for the
    sub-chat: the provider was cleaned up and the controller aborted, in
    that order, where they existed. The entries of other sub-chats and the
    login sessions are untouched, and a second [cleanup] changes nothing. *)
Theorem cleanup_spec (subChatId : string) (w : World) :
  let '(w', ok) := cleanup subChatId w in
  ok = true
  /\ providerSessions w' !! subChatId = None
  /\ activeStreams w' !! subChatId = None
  /\ effects w'
     = effects w ++ teardownCalls subChatId w
       ++ match activeStreams w !! subChatId with
          | Some s => [Abort (controller s)]
          | None => []
          end
  /\ (forall other, other <> subChatId ->
        providerSessions w' !! other = providerSessions w !! other
        /\ activeStreams w' !! other = activeStreams w !! other)
  /\ loginSessions w' = loginSessions w
  /\ cleanup subChatId w' = (w', true).
Proof.
  unfold cleanup at 1. rewrite cleanupProvider_activeStreams.
  destruct (activeStreams w !! subChatId) as [s|] eqn:Hs.
  - set (w' := withActiveStreams _ _).
    assert (Hp : providerSessions w' !! subChatId = None).
    { unfold w'. simpl. rewrite cleanupProvider_providerSessions.
      by rewrite lookup_delete_eq. }
    assert (Ha : activeStreams w' !! subChatId = None).
    { unfold w'. simpl. by rewrite lookup_delete_eq. }
    split; [done|]. split; [done|]. split; [done|].
    split; [|split; [|split]].
    + unfold w'. simpl. rewrite cleanupProvider_effects. by rewrite <- app_assoc.
    + intros other Hne. unfold w'. simpl.
      rewrite cleanupProvider_other, cleanupProvider_activeStreams by done.
      by rewrite lookup_delete_ne.
    + unfold w'. simpl. apply cleanupProvider_loginSessions.
    + by apply cleanup_absent.
  - assert (Hp : providerSessions (cleanupProvider subChatId w) !! subChatId = None).
    { rewrite cleanupProvider_providerSessions. by rewrite lookup_delete_eq. }
    split; [done|]. split; [done|].
    split; [by rewrite cleanupProvider_activeStreams|].
    split; [|split; [|split]].
    + rewrite cleanupProvider_effects. by rewrite app_nil_r.
    + intros other Hne.
      by rewrite cleanupProvider_other, cleanupProvider_activeStreams.
    + apply cleanupProvider_loginSessions.
    + apply cleanup_absent; [done|]. by rewrite cleanupProvider_activeStreams.
Qed.

Lemma createProvider_other (host : Host)
    (subChatId cwd0 other : string) (sid : option string)
    (authConfig : option AuthConfig) (w : World) :
  other <> subChatId ->
  providerSessions (createProvider host subChatId cwd0 sid authConfig w).1 !! other
  = providerSessions w !! other.
Proof.
  intros Hne. unfold createProvider.
  destruct (resolveCodexAcpBinaryPath host); [|done]. simpl.
  by rewrite lookup_insert_ne.
Qed.

Lemma createProvider_activeStreams (host : Host)
    (subChatId cwd0 : string) (sid : option string)
    (authConfig : option AuthConfig) (w : World) :
  activeStreams (createProvider host subChatId cwd0 sid authConfig w).1
  = activeStreams w
  /\ listeners (createProvider host subChatId cwd0 sid authConfig w).1
     = listeners w.
Proof. unfold createProvider. by destruct (resolveCodexAcpBinaryPath host). Qed.

Lemma cleanupProvider_listeners (subChatId : string) (w : World) :
  listeners (cleanupProvider subChatId w) = listeners w.
Proof. unfold cleanupProvider. by destruct (providerSessions w !! subChatId). Qed.

Lemma getOrCreateProvider_frame (host : Host)
    (subChatId cwd0 : string) (sid : option string)
    (authConfig : option AuthConfig) (w : World) :
  activeStreams (getOrCreateProvider host subChatId cwd0 sid authConfig w).1
  = activeStreams w
  /\ listeners (getOrCreateProvider host subChatId cwd0 sid authConfig w).1
     = listeners w
  /\ forall other, other <> subChatId ->
       providerSessions
         (getOrCreateProvider host subChatId cwd0 sid authConfig w).1 !! other
       = providerSessions w !! other.
Proof.
  rewrite getOrCreateProvider_unfold.
  destruct (providerSessions w !! subChatId) as [ex|];
    [destruct (_ && _); [done|]|].
  - destruct (createProvider_activeStreams host subChatId cwd0 sid authConfig
                (cleanupProvider subChatId w)) as [-> ->].
    rewrite cleanupProvider_activeStreams, cleanupProvider_listeners.
    split; [done|]. split; [done|]. intros other Hne.
    by rewrite createProvider_other, cleanupProvider_other.
  - destruct (createProvider_activeStreams host subChatId cwd0 sid authConfig w)
      as [-> ->].
    split; [done|]. split; [done|]. intros other Hne.
    by rewrite createProvider_other.
Qed.

Lemma chatEvent_login_frame (host : Host) (e : Event) (w : World)
    (subChatId : string) :
  eventSubChat e = Some subChatId ->
  loginSessions (handleEvent host e w) = loginSessions w
  /\ listeners (handleEvent host e w) = listeners w.
Proof.
  intros He. split.
  - destruct e; try done; simpl.
    + unfold supersede. destruct (activeStreams w !! subChatId0); [|done].
      by rewrite cleanupProvider_loginSessions.
    + unfold chatProvider. rewrite getOrCreateProvider_loginSessions.
      destruct forceNewSession; [|done]. apply cleanupProvider_loginSessions.
    + unfold chatFinally, releaseStream.
      destruct (activeStreams w !! subChatId0); [|done]. by case_bool_decide.
    + unfold chatTeardown, releaseStream. simpl.
      destruct (activeStreams w !! subChatId0); [|done]. by case_bool_decide.
    + unfold cancel. destruct (activeStreams w !! subChatId0); [|done].
      destruct (negb _); [done|]. simpl. by rewrite cleanupProvider_loginSessions.
    + unfold cleanup. rewrite cleanupProvider_activeStreams.
      destruct (activeStreams w !! subChatId0); simpl;
        by rewrite cleanupProvider_loginSessions.
  - destruct e; try done; simpl.
    + unfold supersede. destruct (activeStreams w !! subChatId0); [|done].
      by rewrite cleanupProvider_listeners.
    + unfold chatProvider.
      rewrite (proj1 (proj2 (getOrCreateProvider_frame _ _ _ _ _ _))).
      destruct forceNewSession; [|done]. apply cleanupProvider_listeners.
    + unfold chatFinally, releaseStream.
      destruct (activeStreams w !! subChatId0); [|done]. by case_bool_decide.
    + unfold chatTeardown, releaseStream. simpl.
      destruct (activeStreams w !! subChatId0); [|done]. by case_bool_decide.
    + unfold cancel. destruct (activeStreams w !! subChatId0); [|done].
      destruct (negb _); [done|]. simpl. by rewrite cleanupProvider_listeners.
    + unfold cleanup. rewrite cleanupProvider_activeStreams.
      destruct (activeStreams w !! subChatId0); simpl;
        by rewrite cleanupProvider_listeners.
Qed.

(** X6. The two halves of the router do not touch each other, and a call
    about one sub-chat does not touch another: the login procedures and the
    events of a login child leave both registries of sub-chats as they are;
    [chat], [cancel] and [cleanup] leave the login sessions and their
    listeners as they are, and leave the provider session and the stream of
    every other sub-chat as they are. *)
Theorem handleEvent_frame (host : Host) (e : Event) (w : World) :
  (eventSubChat e = None ->
     providerSessions (handleEvent host e w) = providerSessions w
     /\ activeStreams (handleEvent host e w) = activeStreams w)
  /\ (forall subChatId, eventSubChat e = Some subChatId ->
        loginSessions (handleEvent host e w) = loginSessions w
        /\ listeners (handleEvent host e w) = listeners w
        /\ forall other, other <> subChatId ->
             providerSessions (handleEvent host e w) !! other
               = providerSessions w !! other
             /\ activeStreams (handleEvent host e w) !! other
                = activeStreams w !! other).
Proof.
  split.
  - destruct e; try done; intros _; simpl.
    + unfold startLogin. destruct (getActiveLoginSession w); [done|].
      by destruct (resolveBundledCodexCliPath host).
    + destruct (mapGet sessionId (loginSessions w)) as [s|] eqn:Hs;
        [|by unfold cancelLogin; rewrite Hs].
      by destruct (cancelLogin_cases sessionId kill w s Hs)
        as (f & l' & r & -> & _).
    + unfold childError. destruct (listeners w !! sessionId) as [l|]; [|done].
      by destruct (onError l).
    + unfold childClose. destruct (listeners w !! sessionId) as [l|]; [|done].
      by destruct (onClose l).
  - intros subChatId He.
    destruct (chatEvent_login_frame host e w subChatId He) as [Hlogin Hlisten].
    split; [done|]. split; [done|].
    intros other Hne. destruct e; try done; simpl in He; injection He as ->; simpl.
    + unfold supersede. rewrite lookup_insert_ne by done.
      destruct (activeStreams w !! subChatId); [|done].
      by rewrite cleanupProvider_other, cleanupProvider_activeStreams.
    + unfold chatProvider.
      destruct (getOrCreateProvider_frame host subChatId cwd0
                  (if forceNewSession then None else existingSessionId0) authConfig
                  (if forceNewSession then cleanupProvider subChatId w else w))
        as (-> & _ & Hother).
      rewrite (Hother other Hne). destruct forceNewSession; [|done].
      by rewrite cleanupProvider_other, cleanupProvider_activeStreams.
    + unfold chatFinally, releaseStream.
      destruct (activeStreams w !! subChatId); [|done].
      case_bool_decide; [|done]. simpl. by rewrite lookup_delete_ne.
    + unfold chatTeardown, releaseStream. simpl.
      destruct (activeStreams w !! subChatId); [|done].
      case_bool_decide; [|done]. simpl. by rewrite lookup_delete_ne.
    + unfold cancel. destruct (activeStreams w !! subChatId); [|done].
      destruct (negb _); [done|]. simpl.
      rewrite cleanupProvider_other, cleanupProvider_activeStreams by done.
      by rewrite lookup_delete_ne.
    + unfold cleanup. rewrite cleanupProvider_activeStreams.
      destruct (activeStreams w !! subChatId); simpl;
        rewrite ?cleanupProvider_other, ?cleanupProvider_activeStreams by done;
        [by rewrite lookup_delete_ne | done].
Qed.

(** ** Login sessions: identity, polls and the life of a session *)

Lemma mapGet_elem_of {A : Type} (k : string) (v : A) (m : list (string * A)) :
  mapGet k m = Some v -> (k, v) ∈ m.
Proof.
  induction m as [|[k0 v0] m IH]; simpl; [done|].
  destruct (String.eqb_spec k0 k) as [->|Hne].
  - intros [= ->]. by left.
  - intros H. right. by apply IH.
Qed.

Lemma mapGet_None {A : Type} (k : string) (m : list (string * A)) :
  mapGet k m = None <-> k ∉ m.*1.
Proof.
  induction m as [|[k0 v0] m IH]; simpl.
  - split; [intros _ H; by inversion H | done].
  - rewrite not_elem_of_cons. destruct (String.eqb_spec k0 k) as [->|Hne].
    + split; [done | by intros [? _]].
    + rewrite IH. split; [by intros ? | by intros [_ ?]].
Qed.

Lemma elem_of_mapGet {A : Type} (k : string) (v : A) (m : list (string * A)) :
  NoDup m.*1 -> (k, v) ∈ m -> mapGet k m = Some v.
Proof.
  induction m as [|[k0 v0] m IH]; simpl; [by inversion 2|].
  intros [Hk0 Hnd]%NoDup_cons [[= <- <-]|Hin]%elem_of_cons.
  - by rewrite String.eqb_refl.
  - destruct (String.eqb_spec k0 k) as [->|Hne]; [|by apply IH].
    destruct Hk0. apply list_elem_of_fmap. by exists (k, v).
Qed.

Lemma mapMutate_keys {A : Type} (k : string) (f : A -> A) (m : list (string * A)) :
  (mapMutate k f m).*1 = m.*1.
Proof.
  induction m as [|[k0 v0] m IH]; simpl; [done|].
  destruct (String.eqb k0 k); rewrite !fmap_cons; simpl; [done|by f_equal].
Qed.

Lemma mapSet_fresh {A : Type} (k : string) (v : A) (m : list (string * A)) :
  mapGet k m = None -> mapSet k v m = m ++ [(k, v)].
Proof.
  induction m as [|[k0 v0] m IH]; simpl; [done|].
  destruct (String.eqb k0 k); [done|]. intros H. by rewrite IH.
Qed.

Lemma elem_of_mapMutate {A : Type} (k k' : string) (f : A -> A) (v' : A)
    (m : list (string * A)) :
  (k', v') ∈ mapMutate k f m ->
  (k', v') ∈ m \/ (k' = k /\ exists v, (k, v) ∈ m /\ v' = f v).
Proof.
  induction m as [|[k0 v0] m IH]; simpl; [by left|].
  destruct (String.eqb_spec k0 k) as [->|Hne].
  - intros [[= -> ->]|Hin]%elem_of_cons.
    + right. split; [done|]. exists v0. split; [by left|done].
    + left. by right.
  - intros [[= -> ->]|Hin]%elem_of_cons; [left; by left|].
    destruct (IH Hin) as [?|(-> & v & ? & ->)].
    + left. by right.
    + right. split; [done|]. exists v. split; [by right|done].
Qed.

Lemma sessionStep_inactive (host : Host) (s s' : CodexLoginSession) :
  sessionStep host s s' ->
  (Login.state s <> running -> Login.state s' <> running)
  /\ (Login.process s = None -> Login.process s' = None)
  /\ (isActiveLogin s = false -> isActiveLogin s' = false).
Proof.
  intros Hstep. split; [|split].
  - destruct Hstep as [s0 chunk|s0 m|s0 code|s0|s0|s0 m]; try done.
    + by destruct (appendLoginOutput_state host s0 chunk) as (-> & _).
    + unfold onChildClose. destruct (Login.state s0); try done; by case_decide.
  - destruct Hstep as [s0 chunk|s0 m|s0 code|s0|s0|s0 m]; try done.
    + by destruct (appendLoginOutput_state host s0 chunk) as (_ & -> & _).
    + unfold onChildClose. destruct (Login.state s0); try done; by case_decide.
    + simpl. by intros ->.
  - intros Hs. destruct (isActiveLogin s') eqn:Hs'; [|done].
    by rewrite (sessionStep_active host s s' Hstep Hs') in Hs.
Qed.

Lemma loginsSound_handleEvent (host : Host) (e : Event) (w : World) :
  admissible w e -> loginsSound w -> loginsSound (handleEvent host e w).
Proof.
  intros Hadm (Hnd & Hid & Harmed & Hclean). split; [|split; [|split]]; cycle 3.
  - intros k s. destruct (handleEvent_loginSessions host e w)
      as [->|[(k0 & f & Hf & _ & ->)|(uuid & -> & _ & ->)]]; [apply Hclean| |].
    + intros [?|(-> & s0 & Hin & ->)]%elem_of_mapMutate; [by apply (Hclean k)|].
      specialize (Hclean _ _ Hin).
      destruct (Hf s0) as [s1 chunk|s1 m|s1 code|s1|s1|s1 m]; try done.
      * destruct (appendLoginOutput_state host s1 chunk) as (-> & _).
        unfold appendLoginOutput. by destruct (negb _).
      * unfold onChildClose. destruct (Login.state s1); try done; by case_decide.
    + simpl in Hadm. rewrite (mapSet_fresh _ _ _ Hadm), elem_of_app.
      intros [?|[= -> ->]%list_elem_of_singleton]; [by apply (Hclean k)|done].
  - destruct (handleEvent_loginSessions host e w)
      as [->|[(k & f & _ & _ & ->)|(uuid & -> & _ & ->)]]; [done| |].
    + by rewrite mapMutate_keys.
    + simpl in Hadm. rewrite (mapSet_fresh _ _ _ Hadm), fmap_app. simpl.
      apply NoDup_app. split; [done|]. split; [|apply NoDup_singleton].
      intros x Hx ->%list_elem_of_singleton. by apply mapGet_None in Hadm.
  - intros k s. destruct (handleEvent_loginSessions host e w)
      as [->|[(k0 & f & Hf & _ & ->)|(uuid & -> & _ & ->)]]; [apply Hid| |].
    + intros [?|(-> & s0 & Hin & ->)]%elem_of_mapMutate; [by apply Hid|].
      rewrite (sessionStep_id host s0 (f s0) (Hf s0)). by apply Hid.
    + simpl in Hadm. rewrite (mapSet_fresh _ _ _ Hadm), elem_of_app.
      intros [?|[= -> ->]%list_elem_of_singleton]; [by apply Hid|done].
  - intros k s child. destruct e; simpl.
    + unfold startLogin. destruct (getActiveLoginSession w); [apply Harmed|].
      destruct (resolveBundledCodexCliPath host); [|apply Harmed]. simpl.
      rewrite mapGet_mapSet, lookup_insert. simpl in Hadm.
      destruct (decide (k = uuid)) as [->|Hne].
      * by rewrite decide_True.
      * rewrite decide_False by done. apply Harmed.
    + destruct (mapGet sessionId (loginSessions w)) as [s0|] eqn:Hs0;
        [|unfold cancelLogin; rewrite Hs0; apply Harmed].
      destruct (cancelLogin_cases sessionId kill w s0 Hs0)
        as (f & l' & r & -> & Hcase). simpl.
      rewrite mapGet_mapMutate.
      destruct (decide (k = sessionId)) as [->|Hne].
      * rewrite Hs0. simpl. intros [= <-].
        destruct Hcase as [(_ & -> & -> & _)|[(_ & _ & -> & -> & _)|
          [(m & l & _ & _ & _ & _ & -> & _)|(m & _ & _ & _ & -> & -> & _)]]];
          simpl.
        -- apply (Harmed _ _ _ Hs0).
        -- destruct (Login.process s0) as [c|] eqn:Hp; [|done]. intros _.
           apply (Harmed _ _ _ Hs0 Hp).
        -- done.
        -- apply (Harmed _ _ _ Hs0).
      * assert (Hl : l' !! k = listeners w !! k).
        { destruct Hcase as [(_ & _ & -> & _)|[(_ & _ & _ & -> & _)|
            [(m & l & _ & _ & _ & _ & _ & -> & _)|(m & _ & _ & _ & _ & -> & _)]]];
            try done. by rewrite lookup_insert_ne. }
        rewrite Hl. apply Harmed.
    + rewrite mapGet_mapMutate. case_decide as Hk; [|apply Harmed]. subst.
      destruct (mapGet sessionId (loginSessions w)) as [s0|] eqn:Hs0; [|done].
      intros [= <-].
      destruct (appendLoginOutput_state host s0 chunk) as (_ & -> & _).
      apply (Harmed _ _ _ Hs0).
    + unfold childError. destruct (listeners w !! sessionId) as [l|] eqn:Hl;
        [|apply Harmed].
      destruct (onError l); [|apply Harmed]. simpl.
      rewrite mapGet_mapMutate, lookup_insert.
      destruct (decide (k = sessionId)) as [->|Hne].
      * rewrite decide_True by done.
        destruct (mapGet sessionId (loginSessions w)); [|done]. by intros [= <-].
      * rewrite decide_False by done. apply Harmed.
    + unfold childClose. destruct (listeners w !! sessionId) as [l|] eqn:Hl;
        [|apply Harmed].
      destruct (onClose l); [|apply Harmed]. simpl.
      rewrite mapGet_mapMutate, lookup_insert.
      destruct (decide (k = sessionId)) as [->|Hne].
      * rewrite decide_True by done.
        destruct (mapGet sessionId (loginSessions w)) as [s0|]; [|done].
        intros [= <-]. unfold onChildClose.
        destruct (Login.state s0); try done; by case_decide.
      * rewrite decide_False by done. apply Harmed.
    + destruct (chatEvent_login_frame host (ChatStart subChatId runId0) w
                  subChatId eq_refl) as [Hl1 Hl2].
      simpl in Hl1, Hl2. rewrite Hl1, Hl2. apply Harmed.
    + destruct (chatEvent_login_frame host
                  (ChatProvider subChatId cwd0 existingSessionId0 authConfig
                     forceNewSession) w subChatId eq_refl) as [Hl1 Hl2].
      simpl in Hl1, Hl2. rewrite Hl1, Hl2. apply Harmed.
    + destruct (chatEvent_login_frame host (ChatFinally subChatId runId0) w
                  subChatId eq_refl) as [Hl1 Hl2].
      simpl in Hl1, Hl2. rewrite Hl1, Hl2. apply Harmed.
    + destruct (chatEvent_login_frame host
                  (ChatTeardown subChatId runId0 abortController) w
                  subChatId eq_refl) as [Hl1 Hl2].
      simpl in Hl1, Hl2. rewrite Hl1, Hl2. apply Harmed.
    + destruct (chatEvent_login_frame host (Cancel subChatId runId0) w
                  subChatId eq_refl) as [Hl1 Hl2].
      simpl in Hl1, Hl2. rewrite Hl1, Hl2. apply Harmed.
    + destruct (chatEvent_login_frame host (CleanupCall subChatId) w
                  subChatId eq_refl) as [Hl1 Hl2].
      simpl in Hl1, Hl2. rewrite Hl1, Hl2. apply Harmed.
Qed.

Lemma steps_invariant_admissible (host : Host) (P : World -> Prop) :
  (forall w e, admissible w e -> P w -> P (handleEvent host e w)) ->
  forall w es w', steps host w es w' -> P w -> P w'.
Proof. intros Hstep w es w'. induction 1; eauto. Qed.

Lemma reachable_loginsSound (host : Host) (w : World) :
  reachable host w -> loginsSound w.
Proof.
  intros [es Hsteps].
  apply (steps_invariant_admissible host loginsSound)
    with (w := initial) (es := es); [|done|].
  - intros w0 e. apply loginsSound_handleEvent.
  - split; [apply NoDup_nil_2|]. split; [by intros k s Hin; inversion Hin|].
    split; [done|]. by intros k s Hin; inversion Hin.
Qed.

(** X7. A poll answers for the session that was asked for: in a reachable
    registry the answer of [getLoginSession] carries the requested id, it
    throws "not found" exactly for ids that were never stored, and the
    answer of [startLogin] (a new session or the one that runs) is what a
    poll for its session id returns right after. *)
Theorem getLoginSession_identity (host : Host) (w : World) (sid : string) :
  reachable host w ->
  (forall r, getLoginSession sid w = Return r -> r_sessionId r = sid)
  /\ (getLoginSession sid w = Throw "Codex login session not found"
      <-> sid ∉ (loginSessions w).*1)
  /\ (forall uuid w' r,
        mapGet uuid (loginSessions w) = None ->
        startLogin host uuid w = (w', Return r) ->
        getLoginSession (r_sessionId r) w' = Return r).
Proof.
  intros Hreach.
  destruct (reachable_loginsSound host w Hreach) as (Hnd & Hid & _ & _).
  split; [|split].
  - intros r. unfold getLoginSession.
    destruct (mapGet sid (loginSessions w)) as [s|] eqn:Hs; [|done].
    intros [= <-]. simpl. apply Hid. by apply mapGet_elem_of.
  - rewrite <- mapGet_None. unfold getLoginSession.
    destruct (mapGet sid (loginSessions w)); split; done.
  - intros uuid w' r Hfresh. unfold startLogin, getLoginSession.
    destruct (getActiveLoginSession w) as [s|] eqn:Hs.
    + intros [= <- <-]. simpl.
      destruct (firstActiveLogin_Some _ _ Hs) as [_ [k Hin]].
      rewrite (Hid k s Hin). by rewrite (elem_of_mapGet k s _ Hnd Hin).
    + destruct (resolveBundledCodexCliPath host); [|done].
      intros [= <- <-]. simpl. by rewrite mapGet_mapSet, decide_True.
Qed.

Lemma rtc_sessionStep_inactive (host : Host) (s s' : CodexLoginSession) :
  rtc (sessionStep host) s s' ->
  (Login.state s <> running -> Login.state s' <> running)
  /\ (Login.process s = None -> Login.process s' = None)
  /\ (isActiveLogin s = false -> isActiveLogin s' = false).
Proof.
  induction 1 as [|s s1 s2 H1 _ (IH1 & IH2 & IH3)]; [done|].
  destruct (sessionStep_inactive host s s1 H1) as (H1a & H1b & H1c).
  split; [|split]; auto.
Qed.

(** X8. A login that is over stays over. Whatever happens later, a stored
    session that is not running never returns to running, one that has lost
    its process never gets one again, and one that is not active (it would
    not block [startLogin]) never becomes active again; it stays stored under
    its id. *)
Theorem login_session_never_resumes (host : Host) (w w' : World)
    (es : list Event) (sid : string) (s : CodexLoginSession) :
  steps host w es w' ->
  mapGet sid (loginSessions w) = Some s ->
  exists s',
    mapGet sid (loginSessions w') = Some s'
    /\ (Login.state s <> running -> Login.state s' <> running)
    /\ (Login.process s = None -> Login.process s' = None)
    /\ (isActiveLogin s = false -> isActiveLogin s' = false).
Proof.
  intros Hsteps Hs.
  destruct (steps_session host w w' es sid s Hsteps Hs) as (s' & Hs' & Hrtc).
  exists s'. split; [done|]. by apply (rtc_sessionStep_inactive host).
Qed.

(** X9. The listeners of a child run once. A second ["close"] event of the
    same child changes nothing, whatever its exit code, and so does a second
    ["error"] event; a ["close"] event that follows the ["error"] event is
    still handled. *)
Theorem child_listeners_run_once (sessionId : string) (w : World) :
  (forall code code',
     childClose sessionId code' (childClose sessionId code w)
     = childClose sessionId code w)
  /\ (forall message message',
        childError sessionId message' (childError sessionId message w)
        = childError sessionId message w)
  /\ (forall message code l,
        listeners w !! sessionId = Some l -> onClose l = true ->
        loginSessions (childClose sessionId code (childError sessionId message w))
        = mapMutate sessionId (onChildClose code)
            (loginSessions (childError sessionId message w))).
Proof.
  split; [|split].
  - intros code code'.
    assert (Hoff : match listeners (childClose sessionId code w) !! sessionId with
                   | Some l => onClose l = false
                   | None => True
                   end).
    { unfold childClose. destruct (listeners w !! sessionId) as [l|] eqn:Hl.
      - destruct (onClose l) eqn:Hc; simpl.
        + by rewrite lookup_insert_eq.
        + by rewrite Hl.
      - by rewrite Hl. }
    unfold childClose at 1.
    destruct (listeners (childClose sessionId code w) !! sessionId) as [l|];
      [by rewrite Hoff|done].
  - intros message message'.
    assert (Hoff : match listeners (childError sessionId message w) !! sessionId with
                   | Some l => onError l = false
                   | None => True
                   end).
    { unfold childError. destruct (listeners w !! sessionId) as [l|] eqn:Hl.
      - destruct (onError l) eqn:Hc; simpl.
        + by rewrite lookup_insert_eq.
        + by rewrite Hl.
      - by rewrite Hl. }
    unfold childError at 1.
    destruct (listeners (childError sessionId message w) !! sessionId) as [l|];
      [by rewrite Hoff|done].
  - intros message code l Hl Hc.
    assert (Hon : exists l', listeners (childError sessionId message w) !! sessionId
                             = Some l' /\ onClose l' = true).
    { unfold childError. rewrite Hl. destruct (onError l); simpl.
      - rewrite lookup_insert_eq. by eexists.
      - by exists l. }
    destruct Hon as (l' & Hl' & Hc'). unfold childClose at 1.
    by rewrite Hl', Hc'.
Qed.

Lemma activeCount_deactivate (k : string) (s : CodexLoginSession)
    (f : CodexLoginSession -> CodexLoginSession)
    (sessions : list (string * CodexLoginSession)) :
  activeCount sessions <= 1 ->
  mapGet k sessions = Some s ->
  isActiveLogin s = true ->
  isActiveLogin (f s) = false ->
  activeCount (mapMutate k f sessions) = 0.
Proof.
  intros Hc Hs Ha Hf. induction sessions as [|[k0 s0] l IH]; [done|].
  simpl in *. destruct (String.eqb_spec k0 k) as [->|Hne].
  - injection Hs as ->. simpl. rewrite Hf. rewrite Ha in Hc. lia.
  - simpl. pose proof (activeCount_elem_of l k s (mapGet_elem_of _ _ _ Hs) Ha).
    destruct (isActiveLogin s0); [lia|]. apply IH; [lia|done].
Qed.

(** X10. Cancelling the login that runs frees the slot at once. In a
    reachable registry, after [cancelLogin] for the active session (whatever
    [kill] did, and before the child has closed) no session is active, and
    the next [startLogin] spawns a new CLI and stores a new running session
    that a poll finds: SIGTERM to the old child and the spawn of the new one
    are the two calls made. *)
Theorem cancelLogin_then_startLogin (host : Host) (w : World)
    (sid uuid codexCliPath : string) (s : CodexLoginSession) (kill : KillResult) :
  reachable host w ->
  mapGet sid (loginSessions w) = Some s ->
  isActiveLogin s = true ->
  resolveBundledCodexCliPath host = Return codexCliPath ->
  let w1 := (cancelLogin sid kill w).1 in
  let started :=
    {| r_sessionId := uuid; r_state := running; r_url := None; r_output := "";
       r_error := None; r_exitCode := None |} in
  getActiveLoginSession w1 = None
  /\ exists child w2,
       Login.process s = Some child
       /\ startLogin host uuid w1 = (w2, Return started)
       /\ effects w2
          = effects w ++ [Kill (pid child) "SIGTERM";
                          Spawn (next w) codexCliPath ["login"]]
       /\ getLoginSession uuid w2 = Return started.
Proof.
  intros Hreach Hs Ha Hcli w1 started.
  pose proof (reachable_activeCount host w Hreach) as Hcount.
  apply isActiveLogin_iff in Ha as Ha'. destruct Ha' as (_ & child & Hchild & Hk).
  destruct (cancelLogin_cases sid kill w s Hs) as (f & l' & r & Hw1 & Hcase).
  assert (Hcalls : killCalls s = [Kill (pid child) "SIGTERM"]).
  { unfold killCalls. by rewrite Hchild, Hk. }
  assert (Hf : isActiveLogin (f s) = false).
  { destruct Hcase as [(_ & -> & _)|[(_ & _ & -> & _)|
      [(m & l & _ & _ & _ & _ & -> & _)|(m & _ & _ & _ & -> & _)]]]; done. }
  assert (Hnone : getActiveLoginSession w1 = None).
  { unfold w1. rewrite Hw1. apply firstActiveLogin_None. simpl.
    by apply (activeCount_deactivate sid s). }
  split; [done|]. exists child. unfold startLogin. rewrite Hnone, Hcli.
  eexists. split; [done|]. split; [reflexivity|]. split.
  - unfold w1. rewrite Hw1. simpl. by rewrite Hcalls, <- app_assoc.
  - unfold getLoginSession. simpl. by rewrite mapGet_mapSet, decide_True.
Qed.

(** X11. [cancelLogin] for an unknown id changes nothing and answers
    [found = false]. For a session of a reachable registry it returns, and
    answers with the snapshot a poll returns right after, with id, URL,
    output and exit code as they were. SIGTERM is sent exactly when the
    session has a process that is not killed. The snapshot has state
    cancelled and no error when [kill] is not called, sends the signal or
    finds the process gone; when [kill] fails, the child emits ["error"]
    inside the call, and the snapshot has state error with the message of
    the error listener. The child is marked killed when the signal is sent,
    and the session loses it when [kill] fails. In a registry where the
    error listener of the child is gone, the error of [kill] is thrown. *)
Theorem cancelLogin_spec (host : Host) (sessionId : string) (kill : KillResult)
    (w : World) :
  (mapGet sessionId (loginSessions w) = None ->
     cancelLogin sessionId kill w
     = (w, Return {| cl_success := true; cl_found := false; cl_session := None |}))
  /\ (reachable host w ->
      forall s, mapGet sessionId (loginSessions w) = Some s ->
        exists w' s',
          cancelLogin sessionId kill w
          = (w', Return {| cl_success := true; cl_found := true;
                           cl_session := Some (toLoginSessionResponse s') |})
          /\ mapGet sessionId (loginSessions w') = Some s'
          /\ getLoginSession sessionId w' = Return (toLoginSessionResponse s')
          /\ Login.id s' = sessionId
          /\ Login.url s' = Login.url s
          /\ Login.output s' = Login.output s
          /\ Login.exitCode s' = Login.exitCode s
          /\ effects w'
             = effects w ++ match Login.process s with
                            | Some child =>
                                if killed child then []
                                else [Kill (pid child) "SIGTERM"]
                            | None => []
                            end
          /\ (Login.process s = None
              \/ (exists child, Login.process s = Some child /\ killed child = true)
              \/ kill = killGone ->
                Login.state s' = cancelled /\ Login.error s' = None
                /\ Login.process s' = Login.process s)
          /\ (forall child,
                Login.process s = Some child -> killed child = false ->
                kill = killSent ->
                Login.state s' = cancelled /\ Login.error s' = None
                /\ Login.process s' = Some {| pid := pid child; killed := true |})
          /\ (forall child message,
                Login.process s = Some child -> killed child = false ->
                kill = killFailed message ->
                Login.state s' = error
                /\ Login.error s'
                   = Some ("[codex] Failed to start login flow: " +:+ message)
                /\ Login.process s' = None))
  /\ (forall s child message,
        mapGet sessionId (loginSessions w) = Some s ->
        Login.process s = Some child -> killed child = false ->
        kill = killFailed message ->
        (forall l, listeners w !! sessionId = Some l -> onError l = false) ->
        exists w',
          cancelLogin sessionId kill w = (w', Throw message)
          /\ mapGet sessionId (loginSessions w') = Some (markCancelled s)).
Proof.
  split; [by unfold cancelLogin; intros ->|]. split.
  - intros Hreach s Hs.
    destruct (reachable_loginsSound host w Hreach) as (_ & Hid & Harmed & _).
    destruct (cancelLogin_cases sessionId kill w s Hs)
      as (f & l' & r & Hw & Hcase).
    assert (Hcalls : killCalls s <> [] ->
              exists child, Login.process s = Some child /\ killed child = false).
    { unfold killCalls. destruct (Login.process s) as [c|]; [|done].
      destruct (killed c) eqn:Hk; [done|]. by exists c. }
    assert (Hnocalls : Login.process s = None
              \/ (exists child, Login.process s = Some child /\ killed child = true) ->
              killCalls s = []).
    { unfold killCalls. intros [->|(c & -> & ->)]; done. }
    pose proof (Hid _ _ (mapGet_elem_of _ _ _ Hs)) as Hids.
    assert (Hget : mapGet sessionId (mapMutate sessionId f (loginSessions w))
                   = Some (f s)).
    { by rewrite mapGet_mapMutate, decide_True, Hs. }
    assert (Hsplit : forall (P1 P2 P3 P4 P5 P6 P7 P8 P9 P10 : Prop),
              P1 -> P2 -> P3 -> P4 -> P5 -> P6 -> P7 -> P8 -> P9 -> P10 ->
              P1 /\ P2 /\ P3 /\ P4 /\ P5 /\ P6 /\ P7 /\ P8 /\ P9 /\ P10) by tauto.
    destruct Hcase as [(Hwhy & -> & -> & ->)|[(Hc & -> & -> & -> & ->)|
      [(m & l & Hc & -> & Hl & He & -> & -> & ->)|(m & Hc & -> & Hl & _)]]].
    + exists (Build_World (providerSessions w) (activeStreams w)
                (mapMutate sessionId markCancelled (loginSessions w))
                (listeners w) (next w) (effects w ++ killCalls s)),
             (markCancelled s).
      split; [exact Hw|]. apply Hsplit; try done.
      * unfold getLoginSession. simpl. by rewrite Hget.
      * intros c Hp Hk ->. destruct Hwhy as [Hwhy|]; [|done].
        unfold killCalls in Hwhy. by rewrite Hp, Hk in Hwhy.
      * intros c message Hp Hk ->. destruct Hwhy as [Hwhy|]; [|done].
        unfold killCalls in Hwhy. by rewrite Hp, Hk in Hwhy.
    + exists (Build_World (providerSessions w) (activeStreams w)
                (mapMutate sessionId (fun s => markKilled (markCancelled s))
                   (loginSessions w))
                (listeners w) (next w) (effects w ++ killCalls s)),
             (markKilled (markCancelled s)).
      split; [exact Hw|]. apply Hsplit; try done.
      * unfold getLoginSession. simpl. by rewrite Hget.
      * intros [H|[H|H]]; try done.
        -- by rewrite (Hnocalls (or_introl H)) in Hc.
        -- by rewrite (Hnocalls (or_intror H)) in Hc.
      * intros c Hp _ _. simpl. by rewrite Hp.
    + exists (Build_World (providerSessions w) (activeStreams w)
                (mapMutate sessionId (fun s => onChildError m (markCancelled s))
                   (loginSessions w))
                (<[sessionId := {| onError := false; onClose := onClose l |}]>
                   (listeners w))
                (next w) (effects w ++ killCalls s)),
             (onChildError m (markCancelled s)).
      split; [exact Hw|]. apply Hsplit; try done.
      * unfold getLoginSession. simpl. by rewrite Hget.
      * intros [H|[H|H]]; try done.
        -- by rewrite (Hnocalls (or_introl H)) in Hc.
        -- by rewrite (Hnocalls (or_intror H)) in Hc.
      * by intros c message _ _ [= ->].
    + destruct (Hcalls Hc) as (c & Hp & _).
      rewrite (Harmed _ _ _ Hs Hp) in Hl. by specialize (Hl _ eq_refl).
  - intros s child message Hs Hp Hk -> Hl.
    unfold cancelLogin, childKill. rewrite Hs, Hp, Hk. simpl.
    assert (Hget : mapGet sessionId
                     (mapMutate sessionId markCancelled (loginSessions w))
                   = Some (markCancelled s)).
    { by rewrite mapGet_mapMutate, decide_True, Hs. }
    destruct (listeners w !! sessionId) as [l|] eqn:Hlw.
    + rewrite (Hl l eq_refl). by eexists.
    + by eexists.
Qed.

(** X12. When the child of the running login closes, a poll reports the
    outcome: with exit code 0 success without error, otherwise error with
    the message ["Codex login exited with code N"] (["unknown"] without a
    code); the exit code is recorded, URL and output are kept, and no session
    is active any more, so the next [startLogin] starts a new login. *)
Theorem childClose_ends_login (host : Host) (w : World)
    (sid : string) (s : CodexLoginSession) (code : option Z) :
  reachable host w ->
  mapGet sid (loginSessions w) = Some s ->
  isActiveLogin s = true ->
  let w' := childClose sid code w in
  getLoginSession sid w'
  = Return {| r_sessionId := sid;
              r_state := if decide (code = Some 0%Z) then success else error;
              r_url := Login.url s;
              r_output := Login.output s;
              r_error := if decide (code = Some 0%Z) then None
                         else Some ("Codex login exited with code "
                                    +:+ from_option pretty "unknown" code);
              r_exitCode := code |}
  /\ getActiveLoginSession w' = None.
Proof.
  intros Hreach Hs Ha w'.
  pose proof (reachable_activeCount host w Hreach) as Hcount.
  destruct (reachable_loginsSound host w Hreach) as (_ & Hid & Harmed & Hclean).
  pose proof (mapGet_elem_of _ _ _ Hs) as Hin.
  apply isActiveLogin_iff in Ha as Ha'. destruct Ha' as (Hrun & child & Hchild & _).
  destruct (Hclean sid s Hin Hrun) as [Herr _].
  assert (Hw' : w' = withListeners
                       (withLogin w (mapMutate sid (onChildClose code) (loginSessions w)))
                       (<[sid := {| onError := true; onClose := false |}]> (listeners w))).
  { unfold w', childClose. by rewrite (Harmed sid s child Hs Hchild). }
  assert (Hoff : isActiveLogin (onChildClose code s) = false).
  { unfold isActiveLogin, onChildClose. rewrite Hrun. by case_decide. }
  split.
  - rewrite Hw'. unfold getLoginSession. simpl.
    rewrite mapGet_mapMutate, decide_True, Hs by done. simpl.
    unfold onChildClose, exitError. rewrite Hrun, Herr, <- (Hid sid s Hin).
    by case_decide.
  - rewrite Hw'. apply firstActiveLogin_None. simpl.
    by apply (activeCount_deactivate sid s).
Qed.

(** ** Binaries *)

Lemma string_eqb_true (a b : string) : String.eqb a b = true -> a = b.
Proof. apply String.eqb_eq. Qed.

(** X13. [getCodexPackageName] returns a package exactly for the platforms
    darwin, linux and win32 with the architectures arm64 and x64, and the
    package is ["@zed-industries/codex-acp-<platform>-<arch>"]; for every
    other pair it throws, and so does [resolveCodexAcpBinaryPath], whatever
    [require.resolve] would find. *)
Theorem getCodexPackageName_spec (host : Host) :
  let supported :=
    platform host ∈ ["darwin"; "linux"; "win32"]
    /\ arch host ∈ ["arm64"; "x64"] in
  (supported ->
     getCodexPackageName host
     = Return ("@zed-industries/codex-acp-" +:+ platform host +:+ "-" +:+ arch host))
  /\ (~ supported ->
        getCodexPackageName host
        = Throw ("Unsupported platform/arch for codex-acp: "
                 +:+ platform host +:+ "/" +:+ arch host)
        /\ resolveCodexAcpBinaryPath host
           = Throw ("Unsupported platform/arch for codex-acp: "
                    +:+ platform host +:+ "/" +:+ arch host)).
Proof.
  intros supported. unfold supported, resolveCodexAcpBinaryPath, getCodexPackageName.
  generalize (platform host) (arch host). intros p a.
  rewrite !elem_of_cons, !elem_of_nil.
  destruct (String.eqb_spec p "darwin") as [->|Hd];
    [|destruct (String.eqb_spec p "linux") as [->|Hl];
      [|destruct (String.eqb_spec p "win32") as [->|Hw]]];
    (destruct (String.eqb_spec a "arm64") as [->|Ha];
       [|destruct (String.eqb_spec a "x64") as [->|Hx]]);
    simpl;
    (split;
       [intros Hs; first [reflexivity | exfalso; intuition congruence]
       |intros Hn; first [done | exfalso; apply Hn; intuition congruence]]).
Qed.

Lemma getCodexPackageName_spec_witness :
  resolveCodexAcpBinaryPath
    {| platform := "freebsd"; arch := "x64"; sep := "/"; isPackaged := true;
       resourcesPath := "/r"; appPath := "/a"; process_env := ∅;
       existsSync := fun _ => true; path_join := fun _ => "";
       path_dirname := fun p => p;
       require_resolve := fun request _ => Return request;
       sha256_hex := fun s => s; URL_parse := fun _ => None |}
  = Throw "Unsupported platform/arch for codex-acp: freebsd/x64".
Proof.
  eapply getCodexPackageName_spec. simpl.
  rewrite !elem_of_cons, !elem_of_nil. intros [[H|[H|[H|[]]]] _]; discriminate H.
Defined.

(** X14. [resolveBundledCodexCliPath] answers with a path only when the file
    exists: the binary [codex] ([codex.exe] on win32) in [<resources>/bin]
    of a packaged app and in [<app>/resources/bin/<platform>-<arch>]
    otherwise; it throws when the file is missing. So [startLogin] never
    spawns a file that does not exist, and spawns it with the one argument
    [login]. *)
Theorem resolveBundledCodexCliPath_exists (host : Host) :
  let binaryName :=
    if decide (platform host = "win32") then "codex.exe" else "codex" in
  let resourcesDir :=
    if isPackaged host then path_join host [resourcesPath host; "bin"]
    else path_join host [appPath host; "resources"; "bin";
                         platform host +:+ "-" +:+ arch host] in
  let binaryPath := path_join host [resourcesDir; binaryName] in
  (existsSync host binaryPath = true ->
     resolveBundledCodexCliPath host = Return binaryPath)
  /\ (existsSync host binaryPath = false ->
        exists message, resolveBundledCodexCliPath host = Throw message)
  /\ (forall uuid w file childPid args,
        Spawn childPid file args ∈ effects (startLogin host uuid w).1 ->
        Spawn childPid file args ∈ effects w
        \/ (existsSync host file = true /\ file = binaryPath
            /\ args = ["login"] /\ childPid = next w)).
Proof.
  intros binaryName resourcesDir binaryPath.
  assert (Hname : (if String.eqb (platform host) "win32"
                   then "codex.exe" else "codex") = binaryName).
  { unfold binaryName. destruct (String.eqb_spec (platform host) "win32");
      by case_decide. }
  assert (Hres : resolveBundledCodexCliPath host
                 = if existsSync host binaryPath then Return binaryPath
                   else Throw ("[codex] Bundled Codex CLI not found at "
                               +:+ binaryPath +:+ ". "
                               +:+ (if isPackaged host
                                    then "Binary is missing from bundled resources."
                                    else "Run `bun run codex:download` to download it for local dev."))).
  { unfold resolveBundledCodexCliPath. by rewrite Hname. }
  split; [|split].
  - intros He. by rewrite Hres, He.
  - intros He. rewrite Hres, He. by eexists.
  - intros uuid w file childPid args. unfold startLogin.
    destruct (getActiveLoginSession w); [by left|]. rewrite Hres.
    destruct (existsSync host binaryPath) eqn:He; [|by left]. simpl.
    rewrite elem_of_app, list_elem_of_singleton.
    intros [?|[= -> -> ->]]; [by left|]. by right.
Qed.

Lemma resolveBundledCodexCliPath_exists_witness :
  resolveBundledCodexCliPath exampleHost
  = Return "/opt/app/resources/bin/linux-x64/codex".
Proof.
  destruct (resolveBundledCodexCliPath_exists exampleHost) as [H _].
  apply H. reflexivity.
Defined.

(** ** Model names *)

Ltac solve_elem_of_list :=
  solve [repeat first [apply list_elem_of_here | apply list_elem_of_further]].

(** X15. With an app-managed key the preprocessed model id is never
    ["gpt-5.3-codex"] and never starts with ["gpt-5.3-codex/"]; a request for
    that model or one of its variants ends in one of the four
    ["gpt-5.2-codex/<level>"] ids; and preprocessing twice is preprocessing
    once. *)
Theorem preprocessCodexModelName_never_gpt53
    (modelId : string) (authConfig : option AuthConfig) :
  hasAppManagedApiKey authConfig = true ->
  let selected := preprocessCodexModelName modelId authConfig in
  selected <> "gpt-5.3-codex"
  /\ startsWith selected "gpt-5.3-codex/" = false
  /\ (modelId = "gpt-5.3-codex" \/ startsWith modelId "gpt-5.3-codex/" = true ->
        selected ∈ ["gpt-5.2-codex/low"; "gpt-5.2-codex/medium";
                    "gpt-5.2-codex/high"; "gpt-5.2-codex/xhigh"])
  /\ preprocessCodexModelName selected authConfig = selected.
Proof.
  intros Hkey selected.
  assert (Hfix : forall m, m ∈ ["gpt-5.2-codex/low"; "gpt-5.2-codex/medium";
                                "gpt-5.2-codex/high"; "gpt-5.2-codex/xhigh"] ->
            m <> "gpt-5.3-codex" /\ startsWith m "gpt-5.3-codex/" = false
            /\ preprocessCodexModelName m authConfig = m).
  { intros m Hm. unfold preprocessCodexModelName. rewrite Hkey.
    rewrite !elem_of_cons, elem_of_nil in Hm.
    destruct Hm as [->|[->|[->|[->|[]]]]]; done. }
  assert (Hcases : (selected ∈ ["gpt-5.2-codex/low"; "gpt-5.2-codex/medium";
                                "gpt-5.2-codex/high"; "gpt-5.2-codex/xhigh"]
                    /\ (modelId = "gpt-5.3-codex"
                        \/ startsWith modelId "gpt-5.3-codex/" = true))
                   \/ (selected = modelId /\ modelId <> "gpt-5.3-codex"
                       /\ startsWith modelId "gpt-5.3-codex/" = false)).
  { unfold selected, preprocessCodexModelName. rewrite Hkey. simpl negb. cbv iota.
    destruct (String.eqb_spec modelId "gpt-5.3-codex") as [->|Hne].
    - left. split; [|by left]. solve_elem_of_list.
    - destruct (startsWith modelId "gpt-5.3-codex/") eqn:Hp; [|by right].
      left. split; [|by right].
      set (level := slice _ modelId). simpl existsb.
      destruct (String.eqb_spec level "low") as [->|]; [solve_elem_of_list|].
      destruct (String.eqb_spec level "medium") as [->|]; [solve_elem_of_list|].
      destruct (String.eqb_spec level "high") as [->|]; [solve_elem_of_list|].
      destruct (String.eqb_spec level "xhigh") as [->|]; solve_elem_of_list. }
  destruct Hcases as [[Hin Hm]|(Heq & Hne & Hp)].
  - destruct (Hfix _ Hin) as (? & ? & ?). done.
  - rewrite Heq. split; [done|]. split; [done|]. split.
    + intros [?|Hp']; [done|]. congruence.
    + unfold preprocessCodexModelName. rewrite Hkey. simpl negb. cbv iota.
      rewrite Hp. by destruct (String.eqb_spec modelId "gpt-5.3-codex").
Qed.

Lemma preprocessCodexModelName_never_gpt53_witness :
  preprocessCodexModelName "gpt-5.3-codex/turbo" (Some {| apiKey := "sk-1" |})
  ∈ ["gpt-5.2-codex/low"; "gpt-5.2-codex/medium";
     "gpt-5.2-codex/high"; "gpt-5.2-codex/xhigh"].
Proof.
  destruct (preprocessCodexModelName_never_gpt53 "gpt-5.3-codex/turbo"
              (Some {| apiKey := "sk-1" |}) eq_refl) as (_ & _ & H & _).
  apply H. right. reflexivity.
Defined.

(** X16. The model [chat] streams with is never empty and never ["codex"].
    Without a model, with a blank one or with ["codex"], it is the default
    ["gpt-5.3-codex/high"], which an app-managed key turns into
    ["gpt-5.2-codex/high"]. *)
Theorem selectedModelId_default
    (model : option string) (authConfig : option AuthConfig) :
  selectedModelId model authConfig <> ""
  /\ selectedModelId model authConfig <> "codex"
  /\ ((model = None \/ exists raw, model = Some raw
                                   /\ (trim raw = "" \/ trim raw = "codex")) ->
        selectedModelId model authConfig
        = if hasAppManagedApiKey authConfig
          then "gpt-5.2-codex/high" else "gpt-5.3-codex/high").
Proof.
  assert (Hpre : forall m, m <> "" -> m <> "codex" ->
            preprocessCodexModelName m authConfig <> ""
            /\ preprocessCodexModelName m authConfig <> "codex").
  { intros m Hm1 Hm2. unfold preprocessCodexModelName.
    destruct (negb _); [done|].
    destruct (String.eqb m "gpt-5.3-codex"); [done|].
    destruct (startsWith m "gpt-5.3-codex/"); done. }
  assert (Hreq : forall m, extractCodexModelId model = Some m ->
            m <> "" /\ m <> "codex").
  { intros m. unfold extractCodexModelId. destruct model as [raw|]; [|done].
    destruct (String.length raw =? 0)%nat; [done|].
    destruct (trim raw) as [|c t] eqn:Ht; cbn [truthy negb orb];
      [intros H; discriminate H|].
    destruct (String.eqb_spec (String c t) "codex"); [intros H; discriminate H|].
    by intros [= <-]. }
  unfold selectedModelId.
  destruct (extractCodexModelId model) as [m|] eqn:Hm.
  - destruct (Hreq m eq_refl) as [Hm1 Hm2]. apply truthy_iff in Hm1 as Hm1'.
    rewrite Hm1'. destruct (Hpre m Hm1 Hm2) as [? ?].
    split; [done|]. split; [done|].
    intros [->|(raw & -> & Hraw)]; [done|]. exfalso.
    unfold extractCodexModelId in Hm.
    destruct (String.length raw =? 0)%nat; [done|].
    destruct Hraw as [Hraw|Hraw]; rewrite Hraw in Hm; discriminate Hm.
  - destruct (Hpre DEFAULT_CODEX_MODEL) as [? ?]; [done..|].
    split; [done|]. split; [done|]. intros _.
    unfold preprocessCodexModelName. by destruct (hasAppManagedApiKey authConfig).
Qed.

Lemma selectedModelId_default_witness :
  selectedModelId (Some "  ") (Some {| apiKey := "sk-1" |}) = "gpt-5.2-codex/high".
Proof.
  destruct (selectedModelId_default (Some "  ") (Some {| apiKey := "sk-1" |}))
    as (_ & _ & H).
  apply H. right. exists "  ". split; [reflexivity|]. left. reflexivity.
Defined.


(** ** Scanning CLI output and errors *)

Lemma includes_nil (sub : string) :
  includes "" sub = String.prefix sub "" || false.
Proof. reflexivity. Qed.

Lemma includes_cons (c : ascii) (s sub : string) :
  includes (String c s) sub = String.prefix sub (String c s) || includes s sub.
Proof. reflexivity. Qed.

Lemma includes_iff (s sub : string) :
  includes s sub = true <-> exists a b, s = a +:+ sub +:+ b.
Proof.
  induction s as [|c s IH].
  - rewrite includes_nil, orb_false_r, prefix_iff. split.
    + intros [rest H]. by exists "", rest.
    + intros (a & b & H). destruct a; [by exists b|].
      rewrite append_cons in H. discriminate H.
  - rewrite includes_cons, orb_true_iff, IH, prefix_iff. split.
    + intros [[rest H]|(a & b & H)].
      * by exists "", rest.
      * exists (String c a), b. by rewrite append_cons, H.
    + intros (a & b & H). destruct a as [|x a].
      * left. by exists b.
      * right. rewrite append_cons in H. injection H as -> H. by exists a, b.
Qed.

Lemma toLowerCase_append (a b : string) :
  toLowerCase (a +:+ b) = toLowerCase a +:+ toLowerCase b.
Proof.
  induction a as [|c a IH]; [done|].
  rewrite append_cons. simpl. by rewrite IH, append_cons.
Qed.

(** A text mentions a phrase when its lower-case form contains it. *)
Lemma mentions_in_context (a p b phrase : string) :
  toLowerCase p = phrase ->
  includes (toLowerCase (a +:+ p +:+ b)) phrase = true.
Proof.
  intros <-. apply includes_iff.
  exists (toLowerCase a), (toLowerCase b). by rewrite !toLowerCase_append.
Qed.

(** X17. An error is an authentication error exactly when the lower-case
    text ["<code> <message>"] contains one of the eleven hints. So a message
    that contains a hint in any letter case and any context is an
    authentication error whatever the code, and so is a code that contains
    one whatever the message. *)
Theorem isCodexAuthError_spec (message code : option string) :
  (isCodexAuthError message code = true
   <-> exists hint a b,
         hint ∈ AUTH_HINTS
         /\ toLowerCase (orEmpty code +:+ " " +:+ orEmpty message)
            = a +:+ hint +:+ b)
  /\ (forall hint a p b,
        hint ∈ AUTH_HINTS -> toLowerCase p = hint ->
        (message = Some (a +:+ p +:+ b) -> isCodexAuthError message code = true)
        /\ (code = Some (a +:+ p +:+ b) -> isCodexAuthError message code = true)).
Proof.
  assert (Hiff : isCodexAuthError message code = true
            <-> exists hint a b,
                  hint ∈ AUTH_HINTS
                  /\ toLowerCase (orEmpty code +:+ " " +:+ orEmpty message)
                     = a +:+ hint +:+ b).
  { unfold isCodexAuthError. rewrite existsb_exists. split.
    - intros (hint & Hin & Hinc). apply includes_iff in Hinc as (a & b & H).
      exists hint, a, b. split; [|done]. by apply list_elem_of_In.
    - intros (hint & a & b & Hin & H). exists hint.
      split; [by apply list_elem_of_In|]. apply includes_iff. by exists a, b. }
  split; [exact Hiff|].
  intros hint a p b Hin <-. split; intros ->; apply Hiff; simpl.
  - exists (toLowerCase p), (toLowerCase (orEmpty code +:+ " " +:+ a)), (toLowerCase b).
    split; [done|]. by rewrite !toLowerCase_append, !append_assoc.
  - exists (toLowerCase p), (toLowerCase a),
      (toLowerCase (b +:+ " " +:+ orEmpty message)).
    split; [done|]. by rewrite !toLowerCase_append, !append_assoc.
Qed.

Lemma isCodexAuthError_spec_witness :
  isCodexAuthError (Some "Request failed: 401 Unauthorized") None = true.
Proof.
  destruct (isCodexAuthError_spec (Some "Request failed: 401 Unauthorized") None)
    as [_ H].
  destruct (H "unauthorized" "Request failed: 401 " "Unauthorized" "") as [H1 _].
  - solve_elem_of_list.
  - reflexivity.
  - apply H1. reflexivity.
Defined.

(** X18. The login state is read off the lower-case status output, the first
    phrase that occurs deciding: ["logged in using chatgpt"] gives
    connected_chatgpt even when ["not logged in"] occurs too; otherwise
    ["logged in using an api key"] or ["logged in using api key"] gives
    connected_api_key; otherwise ["not logged in"] gives not_logged_in;
    otherwise the state is unknown. *)
Theorem normalizeCodexIntegrationState_spec (rawOutput : string) :
  let mentions phrase := exists a b, toLowerCase rawOutput = a +:+ phrase +:+ b in
  (normalizeCodexIntegrationState rawOutput = connected_chatgpt
   <-> mentions "logged in using chatgpt")
  /\ (normalizeCodexIntegrationState rawOutput = connected_api_key
      <-> ~ mentions "logged in using chatgpt"
          /\ (mentions "logged in using an api key"
              \/ mentions "logged in using api key"))
  /\ (normalizeCodexIntegrationState rawOutput = not_logged_in
      <-> ~ mentions "logged in using chatgpt"
          /\ ~ mentions "logged in using an api key"
          /\ ~ mentions "logged in using api key"
          /\ mentions "not logged in")
  /\ (forall a p b, rawOutput = a +:+ p +:+ b ->
        toLowerCase p = "logged in using chatgpt" ->
        normalizeCodexIntegrationState rawOutput = connected_chatgpt).
Proof.
  intros mentions.
  assert (Hm : forall phrase,
            includes (toLowerCase rawOutput) phrase = true <-> mentions phrase).
  { intros phrase. apply includes_iff. }
  assert (Hn : forall phrase,
            includes (toLowerCase rawOutput) phrase = false <-> ~ mentions phrase).
  { intros phrase. rewrite <- Hm. by destruct (includes _ _). }
  unfold normalizeCodexIntegrationState.
  destruct (includes (toLowerCase rawOutput) "logged in using chatgpt") eqn:H1;
  destruct (includes (toLowerCase rawOutput) "logged in using an api key") eqn:H2;
  destruct (includes (toLowerCase rawOutput) "logged in using api key") eqn:H3;
  destruct (includes (toLowerCase rawOutput) "not logged in") eqn:H4;
    simpl; rewrite ?Hm, ?Hn in *;
    (split; [|split; [|split]];
     [split; [first [discriminate | intros _; tauto]
             |first [done | intros; exfalso; tauto]]
     |split; [first [discriminate | intros _; tauto]
             |first [done | intros; exfalso; tauto]]
     |split; [first [discriminate | intros _; tauto]
             |first [done | intros; exfalso; tauto]]
     |intros a p b -> Hp;
      try reflexivity;
      exfalso; apply H1; exists (toLowerCase a), (toLowerCase b);
      by rewrite !toLowerCase_append, Hp]).
Qed.

Lemma normalizeCodexIntegrationState_spec_witness :
  normalizeCodexIntegrationState "Logged in using ChatGPT" = connected_chatgpt.
Proof.
  destruct (normalizeCodexIntegrationState_spec "Logged in using ChatGPT")
    as (_ & _ & _ & H).
  apply (H "" "Logged in using ChatGPT" ""); reflexivity.
Defined.

Lemma trimStart_head (s : string) :
  match trimStart s with
  | EmptyString => True
  | String c _ => isWhiteSpace c = false
  end.
Proof.
  induction s as [|c s IH]; simpl; [done|].
  destruct (isWhiteSpace c) eqn:Hc; [exact IH | by rewrite Hc].
Qed.

Lemma trimStart_fixed (c : ascii) (s : string) :
  isWhiteSpace c = false -> trimStart (String c s) = String c s.
Proof. intros H. simpl. by rewrite H. Qed.

Lemma trimEnd_head (c : ascii) (s : string) :
  isWhiteSpace c = false -> exists t, trimEnd (String c s) = String c t.
Proof.
  intros H. simpl. destruct (trimEnd s); [rewrite H|]; by eexists.
Qed.

Lemma trimEnd_idempotent (s : string) : trimEnd (trimEnd s) = trimEnd s.
Proof.
  induction s as [|c s IH]; [done|]. simpl.
  destruct (trimEnd s) as [|d t] eqn:Ht.
  - destruct (isWhiteSpace c) eqn:Hc; [done|]. simpl. by rewrite Hc.
  - simpl. simpl in IH. by rewrite IH.
Qed.

Lemma trim_idempotent (s : string) : trim (trim s) = trim s.
Proof.
  unfold trim. pose proof (trimStart_head s) as Hh.
  destruct (trimStart s) as [|c u]; [done|].
  destruct (trimEnd_head c u Hh) as [t Ht]. rewrite Ht.
  rewrite (trimStart_fixed c t Hh), <- Ht. apply trimEnd_idempotent.
Qed.

Lemma blank_iff (chunk : string) :
  negb (Nat.eqb (String.length (trim chunk)) 0) = truthy (trim chunk).
Proof. by destruct (trim chunk). Qed.

(** X19. The raw output of a CLI call joins stdout and stderr with a line
    feed and trims the result; a stream that is blank (empty after trimming)
    is left out, so a blank stderr gives the trimmed stdout and two blank
    streams give the empty string. The raw output has no white space at
    either end. *)
Theorem combinedOutput_spec (result : CliResult) :
  (trim (stdout result) = "" -> trim (stderr result) = "" ->
     combinedOutput result = "")
  /\ (trim (stdout result) <> "" -> trim (stderr result) = "" ->
        combinedOutput result = trim (stdout result))
  /\ (trim (stdout result) = "" -> trim (stderr result) <> "" ->
        combinedOutput result = trim (stderr result))
  /\ (trim (stdout result) <> "" -> trim (stderr result) <> "" ->
        combinedOutput result
        = trim (stdout result +:+ String LF (stderr result)))
  /\ trim (combinedOutput result) = combinedOutput result.
Proof.
  unfold combinedOutput. simpl List.filter. rewrite !blank_iff.
  split; [|split; [|split; [|split]]].
  - by intros -> ->.
  - intros H1%truthy_iff ->. by rewrite H1.
  - intros -> H2%truthy_iff. by rewrite H2.
  - intros H1%truthy_iff H2%truthy_iff. by rewrite H1, H2.
  - apply trim_idempotent.
Qed.

Lemma combinedOutput_spec_witness :
  combinedOutput {| stdout := "Logged in using ChatGPT" +:+ String LF "";
                    stderr := " "; cli_exitCode := Some 0%Z |}
  = "Logged in using ChatGPT".
Proof.
  destruct (combinedOutput_spec
              {| stdout := "Logged in using ChatGPT" +:+ String LF "";
                 stderr := " "; cli_exitCode := Some 0%Z |}) as (_ & H & _).
  apply H; [discriminate | reflexivity].
Defined.

(** X20. [logout] and [getIntegration] read a status call in the same way:
    [logout] throws ["Failed to log out ..."] exactly when [getIntegration]
    would report the same status output as connected; otherwise it answers
    [success] with [isConnected = false], the state not_logged_in or
    unknown, and the outputs of both calls. A call that is rejected rejects
    the procedure. *)
Theorem logout_spec (logoutResult statusResult : CliResult) :
  (exists response,
     getIntegration (Return statusResult) = Return response
     /\ i_rawOutput response = combinedOutput statusResult
     /\ i_exitCode response = cli_exitCode statusResult
     /\ (i_isConnected response = true
         <-> i_state response = connected_chatgpt
             \/ i_state response = connected_api_key)
     /\ (i_isConnected response = true ->
           logout (Return logoutResult) (Return statusResult)
           = Throw "Failed to log out from Codex. Please try again.")
     /\ (i_isConnected response = false ->
           (i_state response = not_logged_in \/ i_state response = unknown)
           /\ logout (Return logoutResult) (Return statusResult)
              = Return {| lo_success := true;
                          lo_state := i_state response;
                          lo_isConnected := false;
                          lo_logoutExitCode := cli_exitCode logoutResult;
                          lo_logoutOutput := combinedOutput logoutResult;
                          lo_statusOutput := i_rawOutput response |}))
  /\ (forall message result,
        logout (Throw message) result = Throw message
        /\ logout (Return logoutResult) (Throw message) = Throw message
        /\ getIntegration (Throw message) = Throw message).
Proof.
  split; [|done]. eexists. split; [reflexivity|]. simpl.
  split; [done|]. split; [done|].
  destruct (normalizeCodexIntegrationState (combinedOutput statusResult));
    simpl; repeat split; try done; intros; try tauto;
    first [by left | by right | intuition discriminate].
Qed.

Lemma logout_spec_witness :
  logout (Return {| stdout := ""; stderr := ""; cli_exitCode := Some 0%Z |})
         (Return {| stdout := "Logged in using an API key - sk-***";
                    stderr := ""; cli_exitCode := Some 0%Z |})
  = Throw "Failed to log out from Codex. Please try again.".
Proof.
  destruct (logout_spec
              {| stdout := ""; stderr := ""; cli_exitCode := Some 0%Z |}
              {| stdout := "Logged in using an API key - sk-***";
                 stderr := ""; cli_exitCode := Some 0%Z |})
    as [(response & Hget & _ & _ & _ & H & _) _].
  apply H. injection Hget as <-. reflexivity.
Defined.

(** ** Stored messages *)

Lemma collectParts_userImageParts (images : list ImageAttachment) :
  collectParts (userImageParts images) = ([], []).
Proof.
  induction images as [|image rest IH]; simpl; [done|].
  destruct (imageUnusable image); [done|]. simpl. by rewrite IH.
Qed.

Lemma extractPrompt_userMessage (messageId prompt : string)
    (images : option (list ImageAttachment)) (metadataModel : string) :
  extractPromptFromStoredMessage (userMessage messageId prompt images metadataModel)
  = prompt.
Proof.
  unfold extractPromptFromStoredMessage, userMessage, buildUserParts.
  cbn [jsTruthy negb getProp mapGet String.eqb Ascii.eqb Bool.eqb].
  cbn [collectParts].
  replace (collectParts match images with Some l => userImageParts l | None => [] end)
    with (@nil string, @nil string)
    by (destruct images; [by rewrite collectParts_userImageParts|done]).
  simpl. apply append_empty_r.
Qed.

Lemma last_snoc {A : Type} (l : list A) (x d : A) : List.last (l ++ [x]) d = x.
Proof.
  induction l as [|y l IH]; [done|]. simpl.
  destruct (l ++ [x]) eqn:H; [by destruct l|exact IH].
Qed.

(** X21. The router recognises the prompt it stored. After [chat] has
    appended its user message for a prompt (with whatever images), a second
    request is a duplicate exactly when it carries the same prompt; with no
    stored message, or with an assistant message last, no prompt is a
    duplicate. *)
Theorem isDuplicatePrompt_after_store
    (existingMessages : list JsValue) (messageId prompt metadataModel : string)
    (images : option (list ImageAttachment)) (prompt' : string) :
  (isDuplicatePrompt
     (existingMessages ++ [userMessage messageId prompt images metadataModel])
     prompt' = true <-> prompt' = prompt)
  /\ isDuplicatePrompt [] prompt' = false
  /\ (forall fields,
        mapGet "role" fields = Some (JsString "assistant") ->
        isDuplicatePrompt (existingMessages ++ [JsObject fields]) prompt' = false).
Proof.
  split; [|split].
  - unfold isDuplicatePrompt. rewrite last_snoc, extractPrompt_userMessage.
    simpl. rewrite String.eqb_eq. split; congruence.
  - reflexivity.
  - intros fields Hrole. unfold isDuplicatePrompt. rewrite last_snoc.
    simpl. by rewrite Hrole.
Qed.

Lemma isDuplicatePrompt_after_store_witness :
  isDuplicatePrompt
    [userMessage "m-1" "fix the build" None "gpt-5.3-codex/high";
     JsObject [("role", JsString "assistant"); ("parts", JsArray [])]]
    "fix the build" = false.
Proof.
  destruct (isDuplicatePrompt_after_store
              [userMessage "m-1" "fix the build" None "gpt-5.3-codex/high"]
              "m-2" "" "" None "fix the build") as (_ & _ & H).
  apply (H [("role", JsString "assistant"); ("parts", JsArray [])]). reflexivity.
Defined.

(** X22. The message that is shown and the message that is sent carry the
    same attachments. Both builders start with the text part of the prompt
    and drop exactly the images without data or without media type; the
    images that are left appear in both, in the order given, with the same
    media type and data. *)
Theorem image_parts_agree (prompt : string)
    (images : option (list ImageAttachment)) :
  let usable :=
    List.filter (fun image => negb (imageUnusable image))
      (default [] images) in
  head (buildUserParts prompt images)
    = Some (JsObject [("type", JsString "text"); ("text", JsString prompt)])
  /\ head (buildModelMessageContent prompt images)
     = head (buildUserParts prompt images)
  /\ map (fun part => (getProp part "type",
                       getProp (getProp part "data") "mediaType",
                       getProp (getProp part "data") "base64Data"))
         (tail (buildUserParts prompt images))
     = map (fun image => (JsString "data-image",
                          optString (mediaType image),
                          optString (base64Data image))) usable
  /\ map (fun part => (getProp part "type", getProp part "mediaType",
                       getProp part "data"))
         (tail (buildModelMessageContent prompt images))
     = map (fun image => (JsString "file",
                          optString (mediaType image),
                          optString (base64Data image))) usable
  /\ Forall (fun image =>
               exists data type, base64Data image = Some data /\ data <> ""
                                 /\ mediaType image = Some type /\ type <> "")
            usable.
Proof.
  intros usable. split; [done|]. split; [done|].
  unfold usable, buildUserParts, buildModelMessageContent. simpl tail.
  destruct images as [l|]; simpl default; [|by repeat split].
  split; [|split].
  - induction l as [|image rest IH]; simpl; [done|].
    destruct (imageUnusable image); simpl; [exact IH | by rewrite IH].
  - induction l as [|image rest IH]; simpl; [done|].
    destruct (imageUnusable image); simpl; [exact IH | by rewrite IH].
  - apply Forall_forall. intros image [_ Hu]%list_elem_of_In%filter_In.
    unfold imageUnusable in Hu. apply negb_true_iff, orb_false_iff in Hu as [H1 H2].
    apply negb_false_iff, truthy_iff in H1, H2.
    destruct (base64Data image) as [d|]; [|done].
    destruct (mediaType image) as [t|]; [|done]. by exists d, t.
Qed.

Lemma find_app_skip {A : Type} (f : A -> bool) (l1 l2 : list A) :
  Forall (fun x => f x = false) l1 ->
  List.find f (l1 ++ l2) = List.find f l2.
Proof.
  induction 1 as [|x l1 Hx _ IH]; [done|]. simpl. by rewrite Hx.
Qed.

(** X23. The session to resume is read off the last assistant message:
    whatever follows it and whatever precedes it, [getLastSessionId] is the
    [metadata.sessionId] of that message when it is a string, and nothing
    otherwise (earlier assistant messages are not consulted); without an
    assistant message there is nothing to resume. *)
Theorem getLastSessionId_spec (before after : list JsValue) (message : JsValue) :
  (isString (getProp message "role") "assistant" = true ->
   Forall (fun m => isString (getProp m "role") "assistant" = false) after ->
   getLastSessionId (before ++ message :: after)
   = asString (getProp (getProp message "metadata") "sessionId"))
  /\ (Forall (fun m => isString (getProp m "role") "assistant" = false) after ->
      getLastSessionId after = None).
Proof.
  split.
  - intros Hm Hafter. unfold getLastSessionId, lastAssistant.
    rewrite rev_app_distr. simpl. rewrite <- app_assoc. simpl.
    rewrite find_app_skip by (by apply Forall_rev).
    simpl. by rewrite Hm.
  - intros Hafter. unfold getLastSessionId, lastAssistant.
    rewrite <- (app_nil_r (rev after)).
    by rewrite find_app_skip by (by apply Forall_rev).
Qed.

Lemma getLastSessionId_spec_witness :
  getLastSessionId
    [JsObject [("role", JsString "assistant");
               ("metadata", JsObject [("sessionId", JsString "s-1")])];
     JsObject [("role", JsString "assistant");
               ("metadata", JsObject [("model", JsString "m")])];
     JsObject [("role", JsString "user")]]
  = None.
Proof.
  destruct (getLastSessionId_spec
              [JsObject [("role", JsString "assistant");
                         ("metadata", JsObject [("sessionId", JsString "s-1")])]]
              [JsObject [("role", JsString "user")]]
              (JsObject [("role", JsString "assistant");
                         ("metadata", JsObject [("model", JsString "m")])]))
    as [H _].
  apply H; [reflexivity|]. repeat constructor.
Defined.

(** ** Errors of the stream *)





(** ** Forced new sessions and packaged binaries *)

(** X25. With [forceNewSession] the run of [chat] never streams with the
    cached provider, even when working directory and key are unchanged: the
    cached provider is cleaned up, and the provider that is returned is a new
    object, registered for the sub-chat, that resumes no session whatever
    session id the request carried. *)
Theorem chatProvider_forceNewSession (host : Host)
    (subChatId cwd0 binaryPath : string) (sid : option string)
    (authConfig : option AuthConfig) (w : World) :
  reachable host w ->
  resolveCodexAcpBinaryPath host = Return binaryPath ->
  let '(w', r) := chatProvider host subChatId cwd0 sid authConfig true w in
  exists p,
    r = Return p
    /\ handle p = next w
    /\ existingSessionId (settings p) = None
    /\ effects w' = effects w ++ teardownCalls subChatId w
    /\ providerSessions w' !! subChatId
       = Some {| provider := p; cwd := cwd0;
                 authFingerprint := getAuthFingerprint host authConfig |}
    /\ (forall cached, providerSessions w !! subChatId = Some cached ->
          handle (provider cached) <> handle p).
Proof.
  intros Hreach Hbin. unfold chatProvider.
  rewrite getOrCreateProvider_unfold, cleanupProvider_providerSessions.
  rewrite lookup_delete_eq. unfold createProvider. rewrite Hbin. simpl.
  eexists. split; [reflexivity|]. simpl.
  rewrite cleanupProvider_next, cleanupProvider_effects.
  split; [done|]. split; [by destruct (hasAppManagedApiKey authConfig)|].
  split; [done|]. split; [by rewrite lookup_insert_eq|].
  intros cached Hc.
  destruct (reachable_providersSound host w Hreach) as (H1 & _).
  destruct (H1 _ _ Hc) as (Hlt & _). lia.
Qed.

Lemma chatProvider_forceNewSession_witness :
  exists p,
    (chatProvider exampleHost "sub-1" "/repo/a" (Some "s-1") None true
       (getOrCreateProvider exampleHost "sub-1" "/repo/a" None None initial).1).2
    = Return p
    /\ handle p = 1.
Proof.
  pose proof (chatProvider_forceNewSession exampleHost "sub-1" "/repo/a"
                "/node_modules/@zed-industries/codex-acp-linux-x64/bin/codex-acp"
                (Some "s-1") None
                (getOrCreateProvider exampleHost "sub-1" "/repo/a" None None initial).1)
    as H.
  destruct (chatProvider exampleHost "sub-1" "/repo/a" (Some "s-1") None true
              (getOrCreateProvider exampleHost "sub-1" "/repo/a" None None initial).1)
    as [w' r].
  destruct H as (p & -> & Hh & _).
  - exists [ChatProvider "sub-1" "/repo/a" None None false].
    apply steps_cons; [done|]. apply steps_nil.
  - reflexivity.
  - exists p. split; [reflexivity | exact Hh].
Defined.

Lemma replaceString_absent (p r s : string) :
  includes s p = false -> replaceString p r s = s.
Proof.
  induction s as [|c s IH].
  - rewrite includes_nil. intros [H _]%orb_false_iff.
    change (replaceString p r "")
      with (if String.prefix p "" then r +:+ slice (String.length p) "" else "").
    by rewrite H.
  - rewrite includes_cons. intros [H1 H2]%orb_false_iff.
    change (replaceString p r (String c s))
      with (if String.prefix p (String c s)
            then r +:+ slice (String.length p) (String c s)
            else String c (replaceString p r s)).
    by rewrite H1, IH.
Qed.

Lemma replaceString_unfold (p r s : string) :
  replaceString p r s
  = if String.prefix p s then r +:+ slice (String.length p) s
    else match s with
         | EmptyString => EmptyString
         | String c s' => String c (replaceString p r s')
         end.
Proof. by destruct s. Qed.

(** [s.replace(p, r)] replaces the first occurrence of [p]. *)
Lemma replaceString_first (p r s : string) :
  includes s p = true ->
  exists a b,
    s = a +:+ p +:+ b
    /\ (forall a' b', s = a' +:+ p +:+ b' -> String.length a <= String.length a')
    /\ replaceString p r s = a +:+ r +:+ b.
Proof.
  induction s as [|c s IH]; intros Hin;
    rewrite replaceString_unfold;
    destruct (String.prefix p _) eqn:Hpre.
  - exists "", (slice (String.length p) "").
    split; [by apply prefix_split|]. split; [simpl; lia | done].
  - by rewrite includes_nil, Hpre in Hin.
  - exists "", (slice (String.length p) (String c s)).
    split; [by apply prefix_split|]. split; [simpl; lia | done].
  - rewrite includes_cons, Hpre in Hin. simpl in Hin.
    destruct (IH Hin) as (a & b & Hs & Hmin & ->).
    exists (String c a), b. rewrite !append_cons.
    split; [by rewrite <- Hs|]. split; [|done].
    intros [|c' a'] b' Heq.
    + rewrite append_nil in Heq.
      assert (String.prefix p (String c s) = true) as Hp
        by (apply prefix_iff; by exists b').
      by rewrite Hp in Hpre.
    + rewrite append_cons in Heq. injection Heq as _ Heq.
      specialize (Hmin _ _ Heq). simpl. lia.
Qed.

(** X26. The path of the codex-acp binary is what [require.resolve] finds
    for the package of the platform, looked up from the directory of the
    wrapper package, and a failure of either lookup is passed on. A
    resolved path without an [app.asar] segment is returned as it is. In a
    resolved path with such a segment the first one is replaced by
    [app.asar.unpacked]: that path is returned when the file exists, and the
    resolved path otherwise. *)
Theorem resolveCodexAcpBinaryPath_spec (host : Host) (packageName : string) :
  getCodexPackageName host = Return packageName ->
  let binaryName :=
    if decide (platform host = "win32") then "codex-acp.exe" else "codex-acp" in
  let wrapper := require_resolve host "@zed-industries/codex-acp/package.json" [] in
  let archive := sep host +:+ "app.asar" +:+ sep host in
  let unpacked := sep host +:+ "app.asar.unpacked" +:+ sep host in
  (forall message, wrapper = Throw message ->
     resolveCodexAcpBinaryPath host = Throw message)
  /\ (forall packageJson, wrapper = Return packageJson ->
        let found :=
          require_resolve host (packageName +:+ "/bin/" +:+ binaryName)
            [path_dirname host packageJson] in
        (forall message, found = Throw message ->
           resolveCodexAcpBinaryPath host = Throw message)
        /\ (forall resolvedPath, found = Return resolvedPath ->
              (includes resolvedPath archive = false ->
                 resolveCodexAcpBinaryPath host = Return resolvedPath)
              /\ (includes resolvedPath archive = true ->
                    exists a b,
                      resolvedPath = a +:+ archive +:+ b
                      /\ (forall a' b', resolvedPath = a' +:+ archive +:+ b' ->
                            String.length a <= String.length a')
                      /\ resolveCodexAcpBinaryPath host
                         = Return (if existsSync host (a +:+ unpacked +:+ b)
                                   then a +:+ unpacked +:+ b
                                   else resolvedPath)))).
Proof.
  intros Hpkg binaryName wrapper archive unpacked.
  assert (Hname : (if String.eqb (platform host) "win32"
                   then "codex-acp.exe" else "codex-acp") = binaryName).
  { unfold binaryName. destruct (String.eqb_spec (platform host) "win32");
      by case_decide. }
  unfold resolveCodexAcpBinaryPath. rewrite Hpkg, Hname. fold wrapper.
  split; [by intros message ->|].
  intros packageJson ->. cbv zeta. split; [by intros message ->|].
  intros resolvedPath ->. unfold toUnpackedAsarPath. fold archive unpacked.
  split.
  - intros Habs. rewrite (replaceString_absent _ _ _ Habs).
    by rewrite String.eqb_refl.
  - intros Hin.
    destruct (replaceString_first archive unpacked resolvedPath Hin)
      as (a & b & Hpath & Hmin & ->).
    exists a, b. split; [done|]. split; [done|].
    assert (Hne : String.eqb (a +:+ unpacked +:+ b) resolvedPath = false).
    { apply String.eqb_neq. intros Heq%(f_equal String.length).
      rewrite Hpath in Heq. unfold archive, unpacked in Heq.
      rewrite !length_append in Heq. simpl in Heq. lia. }
    by rewrite Hne.
Qed.

Lemma resolveCodexAcpBinaryPath_spec_witness :
  exists a b,
    "/opt/app/resources/app.asar/node_modules/"
      +:+ "@zed-industries/codex-acp-linux-x64/bin/codex-acp"
    = a +:+ "/app.asar/" +:+ b
    /\ resolveCodexAcpBinaryPath packagedHost
       = Return (a +:+ "/app.asar.unpacked/" +:+ b).
Proof.
  destruct (resolveCodexAcpBinaryPath_spec packagedHost
              "@zed-industries/codex-acp-linux-x64" eq_refl) as [_ H].
  destruct (H _ eq_refl) as [_ H'].
  destruct (H' _ eq_refl) as [_ Hin].
  destruct (Hin eq_refl) as (a & b & Hpath & _ & Hresult).
  exists a, b. split; [exact Hpath | exact Hresult].
Defined.

(** The same call, computed. *)
Example resolveCodexAcpBinaryPath_packaged :
  resolveCodexAcpBinaryPath packagedHost
  = Return ("/opt/app/resources/app.asar.unpacked/node_modules/"
            +:+ "@zed-industries/codex-acp-linux-x64/bin/codex-acp")
  /\ resolveCodexAcpBinaryPath exampleHost
     = Return "/node_modules/@zed-industries/codex-acp-linux-x64/bin/codex-acp".
Proof. split; reflexivity. Qed.

(** ** The candidates of the URL scan *)

Lemma exec_sound (r : regex) :
  forall (s : string) (k : string -> option string) (out : string),
    exec r s k = Some out ->
    exists m rest, s = m +:+ rest /\ matchesPrefix r m rest /\ k rest = Some out.
Proof.
  induction r as [|c|p|r1 IH1 r2 IH2|r1 IH1 r2 IH2|r IH|]; intros s k out; simpl.
  - intros H. exists "", s. repeat split; [constructor | done].
  - destruct s as [|a s]; [done|]. destruct (Ascii.eqb a c) eqn:Hc; [|done].
    apply Ascii.eqb_eq in Hc as ->. intros H.
    exists (String c ""), s. repeat split; [constructor | done].
  - destruct s as [|a s]; [done|]. destruct (p a) eqn:Hp; [|done]. intros H.
    exists (String a ""), s. repeat split; [by constructor | done].
  - intros H. apply IH1 in H as (m1 & rest1 & -> & Hm1 & H).
    apply IH2 in H as (m2 & rest & -> & Hm2 & Hk).
    exists (m1 +:+ m2), rest. rewrite append_assoc.
    repeat split; [by constructor | done].
  - destruct (exec r1 s k) as [o|] eqn:E.
    + intros [= <-]. apply IH1 in E as (m & rest & -> & Hm & Hk).
      exists m, rest. repeat split; [by apply matches_Alt_l | done].
    + intros H. apply IH2 in H as (m & rest & -> & Hm & Hk).
      exists m, rest. repeat split; [by apply matches_Alt_r | done].
  - generalize (String.length s) as fuel. intros fuel. revert s.
    induction fuel as [|fuel IHf]; intros s.
    + intros H. exists "", s. repeat split; [constructor | done].
    + match goal with
      | |- context [exec r s ?k'] => destruct (exec r s k') as [o|] eqn:E
      end.
      * intros [= <-]. apply IH in E as (m1 & rest1 & -> & Hm1 & Hk).
        destruct (Nat.ltb _ _) eqn:Hlt in Hk; [|done].
        apply IHf in Hk as (m2 & rest & -> & Hm2 & Hk).
        exists (m1 +:+ m2), rest. rewrite append_assoc.
        repeat split; [|done]. constructor; [|done..].
        intros ->. apply Nat.ltb_lt in Hlt. rewrite append_nil in Hlt. lia.
      * intros H. exists "", s. repeat split; [constructor | done].
  - destruct s; [|done]. intros H. exists "", "".
    repeat split; [constructor | done].
Qed.

Lemma substring_prefix (m rest : string) :
  String.substring 0 (String.length m) (m +:+ rest) = m.
Proof.
  induction m as [|c m IH].
  - rewrite append_nil. by destruct rest.
  - rewrite append_cons. simpl. by rewrite IH.
Qed.

Lemma matchAt_sound (r : regex) (s rest : string) :
  matchAt r s = Some rest ->
  exists m, s = m +:+ rest /\ matchesPrefix r m rest
            /\ String.substring 0 (matchLength s rest) s = m.
Proof.
  intros H. apply exec_sound in H as (m & rest' & -> & Hm & [= ->]).
  exists m. repeat split; [done|].
  unfold matchLength. rewrite length_append.
  replace (_ + _ - _) with (String.length m) by lia.
  apply substring_prefix.
Qed.

Lemma matchAll_go_sound (r : regex) (s : string) :
  forall (skip : nat) (m : string),
    m ∈ matchAll_go r skip s ->
    exists a rest, s = a +:+ m +:+ rest /\ matchesPrefix r m rest.
Proof.
  induction s as [|c s IH]; intros skip m; simpl.
  - destruct skip; [|by intros ?%elem_of_nil].
    destruct (matchAt r "") as [rest|] eqn:E; [|by intros ?%elem_of_nil].
    intros ->%list_elem_of_singleton.
    apply matchAt_sound in E as (m & Hs & Hm & _).
    destruct m; [|rewrite append_cons in Hs; discriminate Hs].
    rewrite append_nil in Hs. subst rest. by exists "", "".
  - assert (Hrest : forall n, m ∈ matchAll_go r n s ->
              exists a rest, String c s = a +:+ m +:+ rest /\ matchesPrefix r m rest).
    { intros n (a & rest & -> & Hm)%IH. by exists (String c a), rest. }
    destruct skip as [|n]; [|apply Hrest].
    destruct (matchAt r (String c s)) as [rest|] eqn:E; [|apply Hrest].
    intros [Heq|Hin]%elem_of_cons; [|by eapply Hrest].
    apply matchAt_sound in E as (m' & Hs & Hm & Hsub).
    assert (m = m') as -> by (by rewrite Heq, <- Hsub).
    exists "", rest. by rewrite append_nil.
Qed.

Lemma matches_Str_inv (p m rest : string) :
  matchesPrefix (Str p) m rest -> m = p.
Proof.
  revert m rest. induction p as [|c p IH]; intros m rest H; simpl in H.
  - by inversion H.
  - inversion H as [| | |r1 r2 m1 m2 rest' H1 H2| | | | |]; subst.
    inversion H1; subst. apply IH in H2 as ->. by rewrite append_cons.
Qed.

Lemma matches_Star_Cls_inv (p : ascii -> bool) (m rest : string) :
  matchesPrefix (Star (Cls p)) m rest ->
  Forall (fun c => p c = true) (list_ascii_of_string m).
Proof.
  intros H. remember (Star (Cls p)) as r eqn:Hr.
  induction H as [| | | | | | |r0 m1 m2 rest Hne H1 _ H2 IH2|];
    try discriminate Hr.
  - constructor.
  - injection Hr as ->. inversion H1; subst. rewrite append_cons, append_nil.
    simpl. constructor; [done | by apply IH2].
Qed.

Lemma trimEnd_fixed (s : string) :
  Forall (fun c => isWhiteSpace c = false) (list_ascii_of_string s) ->
  trimEnd s = s.
Proof.
  induction s as [|c s IH]; [done|]. simpl. intros [Hc Hs]%Forall_cons.
  rewrite (IH Hs). destruct s; [by rewrite Hc | done].
Qed.

Lemma list_ascii_of_string_append (a b : string) :
  list_ascii_of_string (a +:+ b) = list_ascii_of_string a ++ list_ascii_of_string b.
Proof.
  induction a as [|c a IH]; [done|]. rewrite append_cons. simpl. by rewrite IH.
Qed.

Lemma url_candidate_inv (m rest : string) :
  matchesPrefix URL_CANDIDATE_REGEX m rest ->
  exists scheme tail,
    m = scheme +:+ tail
    /\ (scheme = "http://" \/ scheme = "https://")
    /\ tail <> ""
    /\ Forall (fun c => isWhiteSpace c = false) (list_ascii_of_string tail).
Proof.
  unfold URL_CANDIDATE_REGEX. intros H.
  inversion H as [| | |? ? m1 m' ? H1 H'| | | | |]; subst. clear H.
  apply (matches_Str_inv "http") in H1 as ->.
  inversion H' as [| | |? ? m2 m'' ? H2 H''| | | | |]; subst. clear H'.
  inversion H'' as [| | |? ? m3 m4 ? H3 H4| | | | |]; subst. clear H''.
  apply (matches_Str_inv "://") in H3 as ->.
  unfold Plus in H4.
  inversion H4 as [| | |? ? m5 m6 ? H5 H6| | | | |]; subst. clear H4.
  inversion H5 as [| |? c ? Hc| | | | | |]; subst. clear H5.
  apply matches_Star_Cls_inv in H6.
  exists ("http" +:+ m2 +:+ "://"), (String c "" +:+ m6).
  split; [by rewrite !append_assoc|]. split; [|split].
  - unfold Opt in H2. inversion H2 as [| | | |? ? ? ? Hs|? ? ? ? He| | |]; subst.
    + inversion Hs; subst. by right.
    + inversion He; subst. by left.
  - by rewrite append_cons.
  - rewrite append_cons, append_nil. simpl. constructor.
    + by apply negb_true_iff.
    + eapply Forall_impl; [exact H6|]. intros a Ha. by apply negb_true_iff.
Qed.

Lemma removeFirst_trailing_keeps (c : ascii) (s : string) :
  oneOf "),.;!?" c = false ->
  removeFirst TRAILING_PUNCTUATION_REGEX (String c s)
  = String c (removeFirst TRAILING_PUNCTUATION_REGEX s).
Proof.
  intros Hc.
  change (removeFirst TRAILING_PUNCTUATION_REGEX (String c s))
    with (match matchAt TRAILING_PUNCTUATION_REGEX (String c s) with
          | Some rest => rest
          | None => String c (removeFirst TRAILING_PUNCTUATION_REGEX s)
          end).
  unfold matchAt, TRAILING_PUNCTUATION_REGEX, Plus.
  cbn [exec]. by rewrite Hc.
Qed.

(** X27. Every candidate of the URL scan is a piece of the stripped output
    that starts with [http://] or [https://], goes on with at least one
    character and holds no white space, so that [trim] leaves it as it is;
    what is handed to [new URL] after the trailing punctuation is dropped
    still starts with [http://] or [https://]. *)
Theorem url_candidates_shape (output m : string) :
  m ∈ matchAll URL_CANDIDATE_REGEX (stripAnsi output) ->
  (exists a b, stripAnsi output = a +:+ m +:+ b)
  /\ (exists scheme tail,
        m = scheme +:+ tail /\ (scheme = "http://" \/ scheme = "https://")
        /\ tail <> "")
  /\ Forall (fun c => isWhiteSpace c = false) (list_ascii_of_string m)
  /\ trim m = m
  /\ (startsWith (candidateText m) "http://" = true
      \/ startsWith (candidateText m) "https://" = true).
Proof.
  intros (a & b & Hs & Hm)%matchAll_go_sound.
  apply url_candidate_inv in Hm as (scheme & tail & -> & Hscheme & Htail & Hws).
  assert (Hall : Forall (fun c => isWhiteSpace c = false)
                   (list_ascii_of_string (scheme +:+ tail))).
  { rewrite list_ascii_of_string_append. apply Forall_app. split; [|done].
    destruct Hscheme as [-> | ->]; simpl; repeat constructor. }
  assert (Htrim : trim (scheme +:+ tail) = scheme +:+ tail).
  { unfold trim.
    assert (trimStart (scheme +:+ tail) = scheme +:+ tail) as ->.
    { destruct Hscheme as [-> | ->]; by rewrite append_cons. }
    by apply trimEnd_fixed. }
  split; [by exists a, b|]. split; [by exists scheme, tail|].
  split; [done|]. split; [done|].
  unfold candidateText. rewrite Htrim.
  destruct Hscheme as [-> | ->]; [left | right];
    rewrite !append_cons, append_nil;
    rewrite !removeFirst_trailing_keeps by reflexivity;
    unfold startsWith; simpl;
    by destruct (removeFirst TRAILING_PUNCTUATION_REGEX tail).
Qed.

(** ** The catch block of a run *)



(** * The further properties at concrete inputs *)

Lemma getOrCreateProvider_returns_live_provider_witness :
  exists w' p,
    getOrCreateProvider exampleHost "sub-1" "/repo/a" None None initial
    = (w', Return p)
    /\ Cleanup (handle p) ∉ effects w'.
Proof.
  destruct (getOrCreateProvider exampleHost "sub-1" "/repo/a" None None initial)
    as [w' r] eqn:Hcall.
  assert (Hr : exists p, r = Return p).
  { vm_compute in Hcall. injection Hcall as _ <-. by eexists. }
  destruct Hr as [p ->]. exists w', p. split; [reflexivity|].
  destruct (getOrCreateProvider_returns_live_provider exampleHost
              "sub-1" "/repo/a" None None initial w' p) as (_ & _ & H & _).
  - exists []. apply steps_nil.
  - exact Hcall.
  - exact H.
Defined.

Lemma getOrCreateProvider_again_witness :
  let first :=
    getOrCreateProvider exampleHost "sub-1" "/repo/a" None
      (Some {| apiKey := "sk-1" |}) initial in
  getOrCreateProvider exampleHost "sub-1" "/repo/a" (Some "s-9")
    (Some {| apiKey := " sk-1 " |}) first.1
  = first.
Proof.
  intros first.
  destruct first as [w' r] eqn:Hcall.
  assert (Hr : exists p, r = Return p).
  { vm_compute in Hcall. injection Hcall as _ <-. by eexists. }
  destruct Hr as [p ->].
  apply (getOrCreateProvider_again exampleHost "sub-1" "/repo/a" None (Some "s-9")
           (Some {| apiKey := "sk-1" |}) (Some {| apiKey := " sk-1 " |})
           initial w' p Hcall).
  reflexivity.
Defined.


Lemma getLoginSession_identity_witness :
  let w := handleEvent exampleHost (StartLogin "login-1") initial in
  getLoginSession "login-2" w = Throw "Codex login session not found".
Proof.
  intros w.
  destruct (getLoginSession_identity exampleHost w "login-2") as (_ & H & _).
  - exists [StartLogin "login-1"]. apply steps_cons; [done|]. apply steps_nil.
  - apply H. simpl. rewrite list_elem_of_singleton. discriminate.
Defined.

Lemma login_session_never_resumes_witness :
  let w := handleEvent exampleHost (CancelLogin "login-1" killSent)
             (handleEvent exampleHost (StartLogin "login-1") initial) in
  let w' := handleEvent exampleHost (ChildData "login-1" "bye") w in
  exists s', mapGet "login-1" (loginSessions w') = Some s'
             /\ isActiveLogin s' = false.
Proof.
  intros w w'.
  destruct (mapGet "login-1" (loginSessions w)) as [s|] eqn:Hs;
    [|discriminate Hs].
  destruct (login_session_never_resumes exampleHost w w'
              [ChildData "login-1" "bye"] "login-1" s)
    as (s' & Hs' & _ & _ & H).
  - apply steps_cons; [done|]. apply steps_nil.
  - exact Hs.
  - exists s'. split; [exact Hs'|]. apply H.
    vm_compute in Hs. injection Hs as <-. reflexivity.
Defined.

Lemma cancelLogin_then_startLogin_witness :
  let w := handleEvent exampleHost (StartLogin "login-1") initial in
  getActiveLoginSession (cancelLogin "login-1" killSent w).1 = None.
Proof.
  intros w.
  destruct (cancelLogin_then_startLogin exampleHost w "login-1" "login-2"
              "/opt/app/resources/bin/linux-x64/codex"
              (newLoginSession "login-1" 0) killSent) as [H _].
  - exists [StartLogin "login-1"]. apply steps_cons; [done|]. apply steps_nil.
  - reflexivity.
  - reflexivity.
  - reflexivity.
  - exact H.
Defined.

Lemma childClose_ends_login_witness :
  let w := handleEvent exampleHost (StartLogin "login-1") initial in
  getLoginSession "login-1" (childClose "login-1" (Some 2%Z) w)
  = Return {| r_sessionId := "login-1"; r_state := error; r_url := None;
              r_output := "";
              r_error := Some "Codex login exited with code 2";
              r_exitCode := Some 2%Z |}.
Proof.
  intros w.
  destruct (childClose_ends_login exampleHost w "login-1"
              (newLoginSession "login-1" 0) (Some 2%Z)) as [H _].
  - exists [StartLogin "login-1"]. apply steps_cons; [done|]. apply steps_nil.
  - reflexivity.
  - reflexivity.
  - exact H.
Defined.

Lemma cleanup_spec_witness :
  let w := (chatStart "sub-2" "run-1" (chatStart "sub-1" "run-1" initial).1).1 in
  activeStreams (cleanup "sub-1" w).1 !! "sub-2" = activeStreams w !! "sub-2".
Proof.
  intros w. pose proof (cleanup_spec "sub-1" w) as H.
  destruct (cleanup "sub-1" w) as [w' ok].
  destruct H as (_ & _ & _ & _ & H & _).
  destruct (H "sub-2") as [_ Ha]; [discriminate | exact Ha].
Defined.

Lemma handleEvent_frame_witness :
  let w := (chatStart "sub-2" "run-1" initial).1 in
  activeStreams (handleEvent exampleHost (Cancel "sub-1" "run-1") w) !! "sub-2"
  = activeStreams w !! "sub-2".
Proof.
  intros w.
  destruct (handleEvent_frame exampleHost (Cancel "sub-1" "run-1") w) as [_ H].
  destruct (H "sub-1" eq_refl) as (_ & _ & Hother).
  destruct (Hother "sub-2") as [_ Ha]; [discriminate | exact Ha].
Defined.

Lemma child_listeners_run_once_witness :
  let w := childError "login-1" "spawn ENOENT"
             (handleEvent exampleHost (StartLogin "login-1") initial) in
  loginSessions (childClose "login-1" None w)
  = mapMutate "login-1" (onChildClose None) (loginSessions w).
Proof.
  intros w.
  destruct (child_listeners_run_once "login-1"
              (handleEvent exampleHost (StartLogin "login-1") initial))
    as (_ & _ & H).
  apply (H "spawn ENOENT" None {| onError := true; onClose := true |});
    reflexivity.
Defined.

Lemma cancelLogin_spec_witness :
  let w := handleEvent exampleHost (StartLogin "login-1") initial in
  exists w' s',
    cancelLogin "login-1" (killFailed "kill EPERM") w
    = (w', Return {| cl_success := true; cl_found := true;
                     cl_session := Some (toLoginSessionResponse s') |})
    /\ Login.state s' = error.
Proof.
  intros w.
  destruct (cancelLogin_spec exampleHost "login-1" (killFailed "kill EPERM") w)
    as (_ & H & _).
  destruct (H (ex_intro _ [StartLogin "login-1"]
                 (steps_cons exampleHost initial (StartLogin "login-1") [] w
                    eq_refl (steps_nil exampleHost w)))
              (newLoginSession "login-1" 0) eq_refl)
    as (w' & s' & Heq & _ & _ & _ & _ & _ & _ & _ & _ & _ & Hfailed).
  exists w', s'. split; [exact Heq|].
  apply (Hfailed {| pid := 0; killed := false |} "kill EPERM"); reflexivity.
Defined.

Lemma url_candidates_shape_witness :
  trim "https://auth.openai.com/x)." = "https://auth.openai.com/x).".
Proof.
  refine (proj1 (proj2 (proj2 (proj2
    (url_candidates_shape "open https://auth.openai.com/x). now"
       "https://auth.openai.com/x)." _))))).
  vm_compute. apply list_elem_of_here.
Defined.

